(** * images-batch-pdf: CSV parsing, natural sort, EPUB navigation and batch runs

    A shallow embedding of the conversion scripts of the repository
    (gen-pdf, epub-converter, the two merge scripts, the analyzer and the
    older script.js) and the properties of their shared logic.

    Conventions.
    - A JavaScript string is the list of its UTF-16 code units ([jsstring]).
    - A thrown [Error] is a value of the inductive type [error]; the nesting
      of messages ([`Erro ao ler pasta: ${error.message}`]) is the nesting of
      constructors.
    - The file system, the console and the archiver are an explicit [world]
      threaded through the asynchronous methods (they run strictly in
      sequence, every call is awaited).
    - Functions of the host (String.prototype.trim, Array.prototype.sort,
      parseInt, Node's path module) are modelled after their documented
      behaviour; String.prototype.localeCompare, which depends on the
      host's locale data, is a Section variable. *)

From Stdlib Require Import String Ascii DecimalString DecimalNat.
From Stdlib Require Import ZArith NArith Bool Lia Arith.
From Stdlib Require Import List Sorted Permutation.
Import ListNotations.
Open Scope string_scope.
Open Scope list_scope.

Set Implicit Arguments.

(* ===================================================================== *)
(** ** JavaScript strings *)
(* ===================================================================== *)

Module Js.

Definition char := N.
Definition jsstring := list char.

(** An ASCII literal of the source as a [jsstring]. *)
Definition lit (s : string) : jsstring :=
  map N_of_ascii (list_ascii_of_string s).

Definition LF : char := 10%N.          (* line feed *)
Definition dquote : char := 34%N.      (* double quote *)
Definition semicolon : char := 59%N.   (* semicolon *)
Definition comma : char := 44%N.       (* comma *)
Definition dot : char := 46%N.         (* full stop *)
Definition slash : char := 47%N.       (* solidus *)

(** [a === b] on strings. *)
Fixpoint str_eqb (a b : jsstring) : bool :=
  match a, b with
  | [], [] => true
  | x :: a', y :: b' => N.eqb x y && str_eqb a' b'
  | _, _ => false
  end.

(** WhiteSpace and LineTerminator code points of ECMAScript, the set that
    [trim] strips. *)
Definition isWhiteSpace (c : char) : bool :=
  existsb (N.eqb c)
    [9; 10; 11; 12; 13; 32; 160; 5760; 8232; 8233; 8239; 8287; 12288; 65279]%N
  || (N.leb 8192 c && N.leb c 8202).

Fixpoint trimStart (s : jsstring) : jsstring :=
  match s with
  | [] => []
  | c :: s' => if isWhiteSpace c then trimStart s' else s
  end.

Definition trimEnd (s : jsstring) : jsstring := rev (trimStart (rev s)).

(** [s.trim()] *)
Definition trim (s : jsstring) : jsstring := trimEnd (trimStart s).

(** [s.split(sep)] for a one-character separator: never the empty array,
    [''.split(sep)] is [['']]. *)
Fixpoint split (sep : char) (s : jsstring) : list jsstring :=
  match s with
  | [] => [[]]
  | c :: s' =>
      if N.eqb c sep then [] :: split sep s'
      else match split sep s' with
           | [] => [[c]]
           | l :: ls => (c :: l) :: ls
           end
  end.

(** [s.toLowerCase()] on the letters A-Z; other code units are kept. The
    patterns it is compared with in the scripts ('nome', 'caminho', the
    image extensions) are ASCII, and no non-ASCII code unit lower-cases to a
    string on which these comparisons change. *)
Definition lowerChar (c : char) : char :=
  if N.leb 65 c && N.leb c 90 then (c + 32)%N else c.

Definition toLowerCase (s : jsstring) : jsstring := map lowerChar s.

Fixpoint startsWith (s p : jsstring) : bool :=
  match p, s with
  | [], _ => true
  | y :: p', x :: s' => N.eqb x y && startsWith s' p'
  | _ :: _, [] => false
  end.

(** [s.includes(p)] *)
Fixpoint includes (s p : jsstring) : bool :=
  startsWith s p ||
  match s with
  | [] => false
  | _ :: s' => includes s' p
  end.

(** [s.endsWith(p)] *)
Definition endsWith (s p : jsstring) : bool := startsWith (rev s) (rev p).

(** [s.replace(/;/g, ',')] *)
Definition replaceSemicolons (s : jsstring) : jsstring :=
  map (fun c => if N.eqb c semicolon then comma else c) s.

(** [String(n)] for a non-negative integer. *)
Definition String_of_nat (n : nat) : jsstring :=
  lit (NilEmpty.string_of_uint (Nat.to_uint n)).

(** [s.padStart(width, '0')] *)
Definition padStart0 (width : nat) (s : jsstring) : jsstring :=
  repeat 48%N (width - length s) ++ s.

(** [arr.includes(x)] on an array of strings. *)
Definition array_includes (arr : list jsstring) (x : jsstring) : bool :=
  existsb (str_eqb x) arr.

End Js.
Import Js.

(* ===================================================================== *)
(** ** CSV line scanner (identical in every converter class) *)
(* ===================================================================== *)

(** The [for] loop of [parseCsvLine]: [result], [current] and [inQuotes] are
    the loop's variables. *)
Fixpoint parseCsvLine_loop (line : jsstring) (result : list jsstring)
    (current : jsstring) (inQuotes : bool) : list jsstring :=
  match line with
  | [] => result ++ [current]
  | char :: rest =>
      if N.eqb char dquote then
        parseCsvLine_loop rest result current (negb inQuotes)
      else if N.eqb char semicolon && negb inQuotes then
        parseCsvLine_loop rest (result ++ [current]) [] inQuotes
      else
        parseCsvLine_loop rest result (current ++ [char]) inQuotes
  end.

Definition parseCsvLine (line : jsstring) : list jsstring :=
  parseCsvLine_loop line [] [] false.

(* ===================================================================== *)
(** ** Errors and console output *)
(* ===================================================================== *)

(** The [Error] values the scripts throw, by message. *)
Inductive error : Type :=
| UsageError                          (* 'Uso: node ...' *)
| OutputNameRequired                  (* 'Nome do arquivo ... é obrigatório' *)
| CsvFileNotFound (csvFile : jsstring) (* `Arquivo CSV não encontrado: ...` *)
| CsvEmpty                            (* 'Arquivo CSV está vazio' *)
| CsvNoValidEntries                   (* 'Nenhuma entrada válida encontrada no arquivo CSV' *)
| CsvReadError (cause : error)        (* `Erro ao ler arquivo CSV: ${error.message}` *)
| NotAFolder (folderPath : jsstring)  (* `O caminho especificado não é uma pasta: ...` *)
| FolderNotFound (folderPath : jsstring) (* `Pasta não encontrada: ...` *)
| NoImagesInFolder                    (* 'Nenhum arquivo de imagem encontrado na pasta' *)
| ReadFolderError (cause : error)     (* `Erro ao ler pasta: ${error.message}` *)
| FileNotFound (imagePath : jsstring) (* `Arquivo não encontrado: ...` *)
| NoImagesCollected                   (* 'Nenhuma imagem foi encontrada em todas as pastas especificadas' *)
| ZipMimetypeFailed (code : Z)        (* `Erro ao criar arquivo EPUB (mimetype): código ${code}` *)
| ZipContentFailed (code : Z)         (* `Erro ao criar arquivo EPUB (conteúdo): código ${code}` *)
| NotAFunction (property : string)    (* TypeError: this.<property> is not a function *)
| GenerateCsvError (cause : error)    (* `Erro ao gerar CSV: ${error.message}` *)
| ENOENT (path : jsstring)            (* system error, code 'ENOENT' *)
| ENOTDIR (path : jsstring)           (* system error, code 'ENOTDIR' *)
| EISDIR (path : jsstring)            (* system error, code 'EISDIR' *)
| EEXIST (path : jsstring)            (* system error, code 'EEXIST' *)
| UnknownImageFormat.                 (* 'Unknown image format.', thrown by pdfkit *)

(** What the scripts print with [console.warn] and [console.error]
    (progress lines of [console.log] are not recorded). *)
Inductive diagnostic : Type :=
| WarnInvalidLine (lineNumber : nat) (line : jsstring)
    (* console.warn(`Aviso: Linha ${i + 1} ignorada - formato inválido: ${line}`) *)
| WarnEmptyField (lineNumber : nat)
    (* console.warn(`Aviso: Linha ${i + 1} ignorada - nome ou caminho vazio`) *)
| WarnNoImages (caminho : jsstring)
    (* console.warn(`   ⚠️ Nenhuma imagem encontrada em: ${caminho}`) *)
| WarnImage (imagePath : jsstring) (e : error)
    (* console.warn(`Aviso: Erro ao processar ${imagePath}: ${error.message}`)
       in createPdf,
       console.warn(`   ⚠️ Erro ao processar ${imageInfo.path}: ${error.message}`)
       in createMergedPdf *)
| ErrorEntry (nome : jsstring) (e : error)
    (* console.error(`   ❌ Erro ao processar ${nome}: ${error.message}`) *)
| ErrorFatal (e : error).
    (* console.error('\n❌ Erro:', error.message) *)

(* ===================================================================== *)
(** ** CSV file reader (identical in every converter class) *)
(* ===================================================================== *)

Record CsvEntry : Type := { nome : jsstring; caminho : jsstring }.

Definition isEmpty (s : jsstring) : bool :=
  match s with [] => true | _ => false end.

(** The [for] loop over [lines] of [readCsvFile], from index [i] on;
    returns the entries pushed and the warnings printed. *)
Fixpoint readCsvFile_loop (i : nat) (lines : list jsstring)
    : list CsvEntry * list diagnostic :=
  match lines with
  | [] => ([], [])
  | raw :: rest =>
      let line := trim raw in
      let '(entries, warns) := readCsvFile_loop (S i) rest in
      if isEmpty line then (entries, warns)
      else if Nat.eqb i 0
              && includes (toLowerCase line) (lit "nome")
              && includes (toLowerCase line) (lit "caminho")
      then (entries, warns)
      else
        let columns := parseCsvLine line in
        if Nat.ltb (length columns) 2 then
          (entries, WarnInvalidLine (i + 1) line :: warns)
        else
          let nome := trim (nth 0 columns []) in
          let caminho := trim (nth 1 columns []) in
          if isEmpty nome || isEmpty caminho then
            (entries, WarnEmptyField (i + 1) :: warns)
          else
            ({| nome := nome; caminho := caminho |} :: entries, warns)
  end.

(** The [try] block of [readCsvFile] once the file's [content] is read. *)
Definition readCsvFile_try (content : jsstring)
    : (error + list CsvEntry) * list diagnostic :=
  let lines := split LF (trim content) in
  if Nat.eqb (length lines) 0 then (inl CsvEmpty, [])
  else
    let '(entries, warns) := readCsvFile_loop 0 lines in
    if Nat.eqb (length entries) 0 then (inl CsvNoValidEntries, warns)
    else (inr entries, warns).

(** [readCsvFile] on the content of the file: the [catch] clause wraps
    whatever was thrown. *)
Definition readCsvContent (content : jsstring)
    : (error + list CsvEntry) * list diagnostic :=
  match readCsvFile_try content with
  | (inl e, warns) => (inl (CsvReadError e), warns)
  | (inr entries, warns) => (inr entries, warns)
  end.

(** The result of parsing alone. *)
Definition parseCsv (content : jsstring) : error + list CsvEntry :=
  fst (readCsvContent content).

(* ===================================================================== *)
(** ** Node's path module (POSIX flavour) *)
(* ===================================================================== *)

Module NodePath.

Fixpoint takeWhile (p : char -> bool) (s : jsstring) : jsstring :=
  match s with
  | [] => []
  | c :: s' => if p c then c :: takeWhile p s' else []
  end.

Fixpoint dropWhile (p : char -> bool) (s : jsstring) : jsstring :=
  match s with
  | [] => []
  | c :: s' => if p c then dropWhile p s' else s
  end.

Definition isSlash (c : char) : bool := N.eqb c slash.
Definition isDot (c : char) : bool := N.eqb c dot.

(** The last portion of a path, trailing separators ignored. *)
Definition lastPortion (p : jsstring) : jsstring :=
  rev (takeWhile (fun c => negb (isSlash c)) (dropWhile isSlash (rev p))).

(** [path.extname(p)]: from the last full stop of the last portion to its
    end; empty when there is none, when the only full stop is the portion's
    first character, and for the portion [..]. *)
Definition extname (p : jsstring) : jsstring :=
  let part := lastPortion p in
  if negb (existsb isDot part) then []
  else
    let after := takeWhile (fun c => negb (isDot c)) (rev part) in
    let startDot := length part - length after - 1 in
    if Nat.eqb startDot 0 then []
    else if str_eqb part [dot; dot] then []
    else dot :: rev after.

(** [path.basename(p, suffix)] *)
Definition basename (p suffix : jsstring) : jsstring :=
  let part := lastPortion p in
  if negb (isEmpty suffix) && Nat.leb (length suffix) (length p) then
    if str_eqb suffix p then []
    else if endsWith part suffix && Nat.ltb (length suffix) (length part)
    then firstn (length part - length suffix) part
    else part
  else part.

(** [path.dirname(p)] for a path without trailing separator. *)
Definition dirname (p : jsstring) : jsstring :=
  match rev (dropWhile (fun c => negb (isSlash c)) (rev p)) with
  | [] => [dot]
  | [_] => [slash]
  | d => removelast d
  end.

(** [path.join(a, b)] and [path.resolve] below do not normalise: the paths
    met in the properties have no [.] or [..] segment and no doubled or
    trailing separator, on which normalisation is the identity. *)
Definition join (a b : jsstring) : jsstring := a ++ [slash] ++ b.

Definition isAbsolute (p : jsstring) : bool :=
  match p with
  | c :: _ => isSlash c
  | [] => false
  end.

End NodePath.

(* ===================================================================== *)
(** ** parseInt *)
(* ===================================================================== *)

(** The value of a code unit as a digit (0-9, a-z, A-Z). *)
Definition digitValue (c : char) : option N :=
  if N.leb 48 c && N.leb c 57 then Some (c - 48)%N
  else if N.leb 97 c && N.leb c 122 then Some (c - 87)%N
  else if N.leb 65 c && N.leb c 90 then Some (c - 55)%N
  else None.

(** The values of the longest prefix of [s] made of radix-[R] digits. *)
Fixpoint radixDigits (R : N) (s : jsstring) : list N :=
  match s with
  | [] => []
  | c :: s' =>
      match digitValue c with
      | Some d => if N.ltb d R then d :: radixDigits R s' else []
      | None => []
      end
  end.

Definition digitsValue (R : N) (ds : list N) : N :=
  fold_left (fun acc d => (acc * R + d)%N) ds 0%N.

(** [parseInt(s)] with no radix argument; [None] is NaN. Leading white space
    is skipped, a sign is read, a [0x]/[0X] prefix selects radix 16, and the
    longest run of digits is converted; what follows it is ignored. The
    result is the exact integer: a Number holds it exactly up to 2^53
    ([safeInteger]). *)
Definition parseInt (s : jsstring) : option Z :=
  let S0 := trimStart s in
  let '(sign, S1) :=
    match S0 with
    | c :: r => if N.eqb c 45 then ((-1)%Z, r)
                else if N.eqb c 43 then (1%Z, r)
                else (1%Z, S0)
    | [] => (1%Z, S0)
    end in
  let '(R, S2) :=
    match S1 with
    | c0 :: c1 :: r =>
        if N.eqb c0 48 && (N.eqb c1 120 || N.eqb c1 88) then (16%N, r)
        else (10%N, S1)
    | _ => (10%N, S1)
    end in
  match radixDigits R S2 with
  | [] => None
  | ds => Some (sign * Z.of_N (digitsValue R ds))%Z
  end.

Definition safeInteger (n : Z) : Prop := (Z.abs n <= 2 ^ 53)%Z.

(** [parseInt(path.basename(a, path.extname(a)))] *)
Definition stemNumber (a : jsstring) : option Z :=
  parseInt (NodePath.basename a (NodePath.extname a)).

(* ===================================================================== *)
(** ** Natural sort (identical in every converter class) *)
(* ===================================================================== *)

(** [arr.sort(compareFn)]. ECMAScript fixes the result of a sort only for a
    consistent comparator, and then it is the stable sorted permutation;
    the stable insertion sort below computes it. *)
Section ArraySort.
Variable A : Type.
Variable compareFn : A -> A -> Z.

Fixpoint sort_insert (x : A) (sorted : list A) : list A :=
  match sorted with
  | [] => [x]
  | y :: rest =>
      if (compareFn x y <=? 0)%Z then x :: y :: rest
      else y :: sort_insert x rest
  end.

Fixpoint Array_sort (arr : list A) : list A :=
  match arr with
  | [] => []
  | x :: rest => sort_insert x (Array_sort rest)
  end.
End ArraySort.

Section Host.

(** [a.localeCompare(b)]: negative, zero or positive, after the collation of
    the host's locale. *)
Variable localeCompare : jsstring -> jsstring -> Z.

(** The comparator passed to [files.sort]. *)
Definition compareFiles (a b : jsstring) : Z :=
  let numA := stemNumber a in
  let numB := stemNumber b in
  match numA, numB with
  | Some nA, Some nB => (nA - nB)%Z
  | _, _ => localeCompare a b
  end.

Definition sortFilesNumerically (files : list jsstring) : list jsstring :=
  Array_sort compareFiles files.

End Host.

(** Comparison of two strings by their code units, the order in which
    every upper-case ASCII letter precedes every lower-case one. *)
Fixpoint codeUnitCompare (a b : jsstring) : Z :=
  match a, b with
  | [], [] => 0
  | [], _ :: _ => -1
  | _ :: _, [] => 1
  | x :: a', y :: b' =>
      match N.compare x y with
      | Lt => -1
      | Gt => 1
      | Eq => codeUnitCompare a' b'
      end
  end.

(** A collation in which letters are first compared without regard to case
    and, on a tie, a lower-case letter precedes its upper-case form, as the
    default Unicode collation orders ASCII letters. *)
Fixpoint caseBlindCompare (a b : jsstring) : Z :=
  match a, b with
  | [], [] => 0
  | [], _ :: _ => -1
  | _ :: _, [] => 1
  | x :: a', y :: b' =>
      match N.compare (lowerChar x) (lowerChar y) with
      | Lt => -1
      | Gt => 1
      | Eq => caseBlindCompare a' b'
      end
  end.

Definition alphabeticCompare (a b : jsstring) : Z :=
  match caseBlindCompare a b with
  | 0%Z => (- codeUnitCompare a b)%Z
  | c => c
  end.

(* ===================================================================== *)
(** ** EPUB navigation documents (toc.ncx) *)
(* ===================================================================== *)

Module Ncx.

(** The four [meta] elements of the head, by their [content] attribute. *)
Record Head : Type := {
  dtb_uid : jsstring;
  dtb_depth : jsstring;
  dtb_totalPageCount : jsstring;
  dtb_maxPageNumber : jsstring
}.

(** One [navPoint] element. *)
Record NavPoint : Type := {
  np_id : jsstring;
  np_playOrder : nat;
  np_label : jsstring;
  np_src : jsstring
}.

(** A folder's [navPoint] of the merged book with the page points nested in
    it. *)
Record NavFolder : Type := {
  nf_point : NavPoint;
  nf_pages : list NavPoint
}.

Record Document (N : Type) : Type := {
  head : Head;
  docTitle : jsstring;
  navMap : list N
}.

(** The word in front of page numbers, with U+00E1 as its second letter. *)
Definition Pagina : jsstring := [80; 225; 103; 105; 110; 97]%N.

Definition quoted (s : jsstring) : jsstring := [dquote] ++ s ++ [dquote].

(** The text of a [navPoint] up to its [content] element, at indentation
    [ind]. *)
Definition renderOpen (ind : jsstring) (p : NavPoint) : jsstring :=
  ind ++ lit "<navPoint id=" ++ quoted (np_id p)
      ++ lit " playOrder=" ++ quoted (String_of_nat (np_playOrder p))
      ++ lit ">" ++ [LF]
  ++ ind ++ lit "  <navLabel>" ++ [LF]
  ++ ind ++ lit "    <text>" ++ np_label p ++ lit "</text>" ++ [LF]
  ++ ind ++ lit "  </navLabel>" ++ [LF]
  ++ ind ++ lit "  <content src=" ++ quoted (np_src p) ++ lit "/>" ++ [LF].

Definition renderClose (ind : jsstring) : jsstring :=
  ind ++ lit "</navPoint>" ++ [LF].

Definition renderPoint (ind : jsstring) (p : NavPoint) : jsstring :=
  renderOpen ind p ++ renderClose ind.

Definition renderFolder (f : NavFolder) : jsstring :=
  renderOpen (lit "    ") (nf_point f)
  ++ flat_map (renderPoint (lit "      ")) (nf_pages f)
  ++ renderClose (lit "    ").

Definition renderMeta (name content : jsstring) : jsstring :=
  lit "    <meta name=" ++ quoted name ++ lit " content=" ++ quoted content
  ++ lit "/>" ++ [LF].

(** The template literal [tocNcx] around the accumulated [navPoints]. *)
Definition render (N : Type) (renderNav : N -> jsstring) (d : Document N)
    : jsstring :=
  lit "<?xml version=" ++ quoted (lit "1.0") ++ lit " encoding="
    ++ quoted (lit "utf-8") ++ lit "?>" ++ [LF]
  ++ lit "<!DOCTYPE ncx PUBLIC " ++ quoted (lit "-//NISO//DTD ncx 2005-1//EN")
    ++ lit " " ++ quoted (lit "http://www.daisy.org/z3986/2005/ncx-2005-1.dtd")
    ++ lit ">" ++ [LF]
  ++ lit "<ncx xmlns=" ++ quoted (lit "http://www.daisy.org/z3986/2005/ncx/")
    ++ lit " version=" ++ quoted (lit "2005-1") ++ lit ">" ++ [LF]
  ++ lit "  <head>" ++ [LF]
  ++ renderMeta (lit "dtb:uid") (dtb_uid (head d))
  ++ renderMeta (lit "dtb:depth") (dtb_depth (head d))
  ++ renderMeta (lit "dtb:totalPageCount") (dtb_totalPageCount (head d))
  ++ renderMeta (lit "dtb:maxPageNumber") (dtb_maxPageNumber (head d))
  ++ lit "  </head>" ++ [LF]
  ++ lit "  <docTitle>" ++ [LF]
  ++ lit "    <text>" ++ docTitle d ++ lit "</text>" ++ [LF]
  ++ lit "  </docTitle>" ++ [LF]
  ++ lit "  <navMap>" ++ [LF]
  ++ flat_map renderNav (navMap d)
  ++ lit "  </navMap>" ++ [LF]
  ++ lit "</ncx>".

(** The [playOrder] attributes of a merged navigation map in document
    order. *)
Definition playOrders (m : list NavFolder) : list nat :=
  flat_map (fun f => np_playOrder (nf_point f)
                     :: map np_playOrder (nf_pages f)) m.

End Ncx.

(** [`${image.htmlFile}`]: the property is [undefined] until
    [createHtmlPages] has set it. *)
Definition showProperty (v : option jsstring) : jsstring :=
  match v with
  | Some s => s
  | None => lit "undefined"
  end.

(** The media type chosen by the [switch] of [copyImagesToEpub]. *)
Definition mediaTypeOf (ext : jsstring) : jsstring :=
  if str_eqb ext (lit ".png") then lit "image/png"
  else if str_eqb ext (lit ".gif") then lit "image/gif"
  else if str_eqb ext (lit ".bmp") then lit "image/bmp"
  else if str_eqb ext (lit ".webp") then lit "image/webp"
  else lit "image/jpeg".

(* ===================================================================== *)
(** ** EPUB package documents (content.opf) *)
(* ===================================================================== *)

Module Opf.

(** One [item] element of the manifest. *)
Record Item : Type := {
  item_id : jsstring;
  item_href : jsstring;
  item_mediaType : jsstring
}.

(** What the template literal [contentOpf] is filled with: the metadata
    that varies, the [item] elements and the [idref] attributes of the
    [itemref] elements. *)
Record Package : Type := {
  identifier : jsstring;
  title : jsstring;
  creator : jsstring;
  date : jsstring;
  description : option jsstring;
  manifest : list Item;
  spine : list jsstring
}.

(** The item of the navigation document, which the template holds. *)
Definition ncxItem : Item :=
  {| item_id := lit "ncx";
     item_href := lit "toc.ncx";
     item_mediaType := lit "application/x-dtbncx+xml" |}.

(** The two items that one iteration of the loop of [createContentOpf]
    appends to [manifest]. *)
Definition imageItems (id filename mediaType : jsstring) (pageNumber : nat)
    (htmlFile : option jsstring) : list Item :=
  [ {| item_id := id;
       item_href := lit "images/" ++ filename;
       item_mediaType := mediaType |};
    {| item_id := lit "page" ++ String_of_nat pageNumber;
       item_href := lit "text/" ++ showProperty htmlFile;
       item_mediaType := lit "application/xhtml+xml" |} ].

(** The [idref] that the same iteration appends to [spine]. *)
Definition pageRef (pageNumber : nat) : jsstring :=
  lit "page" ++ String_of_nat pageNumber.

Definition renderItem (i : Item) : jsstring :=
  lit "    <item id=" ++ Ncx.quoted (item_id i)
  ++ lit " href=" ++ Ncx.quoted (item_href i)
  ++ lit " media-type=" ++ Ncx.quoted (item_mediaType i)
  ++ lit "/>" ++ [LF].

Definition renderItemref (idref : jsstring) : jsstring :=
  lit "    <itemref idref=" ++ Ncx.quoted idref ++ lit "/>" ++ [LF].

Definition renderDescription (d : option jsstring) : jsstring :=
  match d with
  | Some text =>
      lit "    <dc:description>" ++ text ++ lit "</dc:description>" ++ [LF]
  | None => []
  end.

(** The template literal [contentOpf]. *)
Definition render (p : Package) : jsstring :=
  lit "<?xml version=" ++ Ncx.quoted (lit "1.0") ++ lit " encoding="
    ++ Ncx.quoted (lit "utf-8") ++ lit "?>" ++ [LF]
  ++ lit "<package version=" ++ Ncx.quoted (lit "2.0")
    ++ lit " unique-identifier=" ++ Ncx.quoted (lit "BookId")
    ++ lit " xmlns=" ++ Ncx.quoted (lit "http://www.idpf.org/2007/opf")
    ++ lit ">" ++ [LF]
  ++ lit "  <metadata xmlns:dc="
    ++ Ncx.quoted (lit "http://purl.org/dc/elements/1.1/")
    ++ lit " xmlns:opf=" ++ Ncx.quoted (lit "http://www.idpf.org/2007/opf")
    ++ lit ">" ++ [LF]
  ++ lit "    <dc:identifier id=" ++ Ncx.quoted (lit "BookId")
    ++ lit " opf:scheme=" ++ Ncx.quoted (lit "UUID") ++ lit ">"
    ++ identifier p ++ lit "</dc:identifier>" ++ [LF]
  ++ lit "    <dc:title>" ++ title p ++ lit "</dc:title>" ++ [LF]
  ++ lit "    <dc:language>pt-BR</dc:language>" ++ [LF]
  ++ lit "    <dc:creator opf:file-as=" ++ Ncx.quoted (creator p)
    ++ lit " opf:role=" ++ Ncx.quoted (lit "aut") ++ lit ">"
    ++ creator p ++ lit "</dc:creator>" ++ [LF]
  ++ lit "    <dc:date opf:event=" ++ Ncx.quoted (lit "creation") ++ lit ">"
    ++ date p ++ lit "</dc:date>" ++ [LF]
  ++ lit "    <dc:publisher>Images Batch EPUB Converter</dc:publisher>" ++ [LF]
  ++ lit "    <dc:rights>Todos os direitos reservados</dc:rights>" ++ [LF]
  ++ renderDescription (description p)
  ++ lit "    <meta name=" ++ Ncx.quoted (lit "cover") ++ lit " content="
    ++ Ncx.quoted (lit "img1") ++ lit "/>" ++ [LF]
  ++ lit "  </metadata>" ++ [LF]
  ++ lit "  <manifest>" ++ [LF]
  ++ flat_map renderItem (manifest p)
  ++ lit "  </manifest>" ++ [LF]
  ++ lit "  <spine toc=" ++ Ncx.quoted (lit "ncx") ++ lit ">" ++ [LF]
  ++ flat_map renderItemref (spine p)
  ++ lit "  </spine>" ++ [LF]
  ++ lit "</package>".

End Opf.

(** An element of [allImages] in the merge scripts ([mi_path] and
    [mi_filename] are its properties [path] and [filename]). *)
Record MergedImageRecord : Type := {
  mi_path : jsstring;
  mi_filename : jsstring;
  folderName : jsstring;
  folderIndex : nat;
  imageIndex : nat;
  totalInFolder : nat
}.

(** What is kept of a finished package: its title, the names of the files
    under OEBPS/images and the text of OEBPS/toc.ncx (the XHTML pages and
    content.opf are not inspected by the properties below). *)
Record EpubPackage : Type := {
  epub_title : jsstring;
  epub_images : list jsstring;
  epub_toc : jsstring
}.

(* ===================================================================== *)
(** ** The world: file system, archiver, console *)
(* ===================================================================== *)

Inductive content : Type :=
| Text (s : jsstring)                 (* a text file, e.g. a CSV *)
| Image                               (* an image file with JPEG or PNG data *)
| Pdf (pages : list jsstring)         (* one page per image path, blank where
                                         the image could not be placed *)
| EpubMimetypeOnly                    (* the archive after the first zip pass *)
| Epub (package : EpubPackage)
| OtherImage.                         (* an image file with other data: GIF,
                                         BMP, WebP *)

(** [Dir entries]: a directory and what [readdir] lists in it. A listed
    name need not be present any more when it is accessed. *)
Inductive node : Type :=
| File (c : content)
| Dir (entries : list jsstring).

(** How a run of the archiver ends: the process is closed with an exit
    code, or it could not be started and the [error] event carries the
    system's error. *)
Inductive zipPass : Type :=
| ZipClosed (code : Z)
| ZipNotSpawned (e : error).

Record world : Type := {
  cwd : jsstring;                     (* process.cwd(), absolute *)
  fs : jsstring -> option node;       (* by absolute path *)
  zipExit : jsstring -> zipPass * zipPass;
                                      (* how the two zip passes end for an
                                         output path *)
  uuids : list jsstring;              (* what crypto.randomUUID() returns,
                                         call after call *)
  console : list diagnostic           (* oldest first *)
}.

Definition withFs (w : world) (f : jsstring -> option node) : world :=
  {| cwd := cwd w; fs := f; zipExit := zipExit w; uuids := uuids w;
     console := console w |}.

Definition update (f : jsstring -> option node) (p : jsstring) (n : node)
    : jsstring -> option node :=
  fun q => if str_eqb q p then Some n else f q.

(** Asynchronous methods: a state transformer on the world that returns a
    value or throws. *)
Definition M (A : Type) : Type := world -> world * (error + A).

Definition ret (A : Type) (a : A) : M A := fun w => (w, inr a).

Definition throw (A : Type) (e : error) : M A := fun w => (w, inl e).
Arguments throw {A} e.

Definition bind (A B : Type) (m : M A) (k : A -> M B) : M B :=
  fun w =>
    match m w with
    | (w', inl e) => (w', inl e)
    | (w', inr a) => k a w'
    end.

(** [try { m } catch (error) { handler(error) }] *)
Definition try_catch (A : Type) (m : M A) (handler : error -> M A) : M A :=
  fun w =>
    match m w with
    | (w', inl e) => handler e w'
    | (w', inr a) => (w', inr a)
    end.

Declare Scope js_scope.
Delimit Scope js_scope with js.
Notation "x <- c ;; k" := (bind c (fun x => k))
  (at level 61, c at next level, right associativity) : js_scope.
Notation "c ;; k" := (bind c (fun _ => k))
  (at level 61, right associativity) : js_scope.
Local Open Scope js_scope.

Definition say (d : diagnostic) : M unit :=
  fun w =>
    ({| cwd := cwd w; fs := fs w; zipExit := zipExit w; uuids := uuids w;
        console := console w ++ [d] |}, inr tt).

(** [path.resolve(p)] *)
Definition resolve (w : world) (p : jsstring) : jsstring :=
  if NodePath.isAbsolute p then p else NodePath.join (cwd w) p.

(** What stands in front of each separator of the path [rest] that
    follows [prefix], the separator at the very start apart: the
    directories on the way to the path. *)
Fixpoint ancestors_from (prefix rest : jsstring) : list jsstring :=
  match rest with
  | [] => []
  | c :: rest' =>
      if NodePath.isSlash c && negb (isEmpty prefix)
      then prefix :: ancestors_from (prefix ++ [c]) rest'
      else ancestors_from (prefix ++ [c]) rest'
  end.

Definition ancestors (q : jsstring) : list jsstring := ancestors_from [] q.

(** A file stands where a directory on the way to [q] should be. *)
Definition throughFile (w : world) (q : jsstring) : bool :=
  existsb (fun d => match fs w d with
                    | Some (File _) => true
                    | _ => false
                    end)
          (ancestors q).

(** The error of a system call on a path at which nothing is found:
    ENOTDIR when the path goes through a file, ENOENT otherwise. *)
Definition notFound (w : world) (p : jsstring) : error :=
  if throughFile w (resolve w p) then ENOTDIR p else ENOENT p.

(** [fsPromises.stat(p)] *)
Definition stat (p : jsstring) : M node :=
  fun w =>
    match fs w (resolve w p) with
    | Some n => (w, inr n)
    | None => (w, inl (notFound w p))
    end.

(** [fsPromises.access(p)] *)
Definition access (p : jsstring) : M unit :=
  fun w =>
    match fs w (resolve w p) with
    | Some _ => (w, inr tt)
    | None => (w, inl (notFound w p))
    end.

(** [fsPromises.readdir(p)] *)
Definition readdir (p : jsstring) : M (list jsstring) :=
  fun w =>
    match fs w (resolve w p) with
    | Some (Dir entries) => (w, inr entries)
    | Some (File _) => (w, inl (ENOTDIR p))
    | None => (w, inl (notFound w p))
    end.

(** [fsPromises.readFile(p, 'utf8')]; only the text of text files is
    modelled, any other file reads as the empty string. *)
Definition readFile (p : jsstring) : M jsstring :=
  fun w =>
    match fs w (resolve w p) with
    | Some (File (Text s)) => (w, inr s)
    | Some (File _) => (w, inr [])
    | Some (Dir _) => (w, inl (EISDIR p))
    | None => (w, inl (notFound w p))
    end.

(** [fsPromises.copyFile(source, destPath)] into the temporary directory:
    it needs a file at [source]. *)
Definition copyFile (source : jsstring) : M unit :=
  fun w =>
    match fs w (resolve w source) with
    | Some (File _) => (w, inr tt)
    | Some (Dir _) => (w, inl (EISDIR source))
    | None => (w, inl (notFound w source))
    end.

(** Listing [name] in the directory at [parent], when there is one. *)
Definition addEntry (f : jsstring -> option node) (parent name : jsstring)
    : jsstring -> option node :=
  match f parent with
  | Some (Dir entries) =>
      if array_includes entries name then f
      else update f parent (Dir (entries ++ [name]))
  | _ => f
  end.

(** [fsPromises.mkdir(p, { recursive: true })] for a directory whose
    parent exists: nothing happens when [p] is a directory already. *)
Definition mkdir (p : jsstring) : M unit :=
  fun w =>
    let q := resolve w p in
    match fs w q with
    | Some (Dir _) => (w, inr tt)
    | Some (File _) => (w, inl (EEXIST p))
    | None =>
        let f := addEntry (fs w) (NodePath.dirname q) (NodePath.lastPortion q) in
        (withFs w (update f q (Dir [])), inr tt)
    end.

(** Creating or replacing the file at the absolute path [q]: it needs the
    directory that is to hold it. *)
Definition writeOutput (q : jsstring) (c : content) : M unit :=
  fun w =>
    match fs w q with
    | Some (Dir _) => (w, inl (EISDIR q))
    | _ =>
        match fs w (NodePath.dirname q) with
        | Some (Dir _) =>
            let f := addEntry (fs w) (NodePath.dirname q) (NodePath.lastPortion q) in
            (withFs w (update f q (File c)), inr tt)
        | Some (File _) => (w, inl (ENOTDIR q))
        | None =>
            (w, inl (if throughFile w q then ENOTDIR q else ENOENT q))
        end
    end.

(** [crypto.randomUUID()] *)
Definition generateUUID : M jsstring :=
  fun w =>
    ({| cwd := cwd w; fs := fs w; zipExit := zipExit w; uuids := tl (uuids w);
        console := console w |}, inr (hd [] (uuids w))).

(** The extensions of [this.supportedExtensions]. *)
Definition supportedExtensions : list jsstring :=
  map lit [".jpg"; ".jpeg"; ".png"; ".gif"; ".bmp"; ".webp"]%string.

(** The callback of [files.filter] in [readImageFiles]. *)
Definition isImageFile (file : jsstring) : bool :=
  let ext := toLowerCase (NodePath.extname file) in
  array_includes supportedExtensions ext.

(** [validateFolder], identical in every converter class. *)
Definition validateFolder (folderPath : jsstring) : M unit :=
  try_catch
    (stats <- stat folderPath ;;
     match stats with
     | Dir _ => ret tt
     | File _ => throw (NotAFolder folderPath)
     end)
    (fun error =>
       match error with
       | ENOENT _ => throw (FolderNotFound folderPath)
       | _ => throw error
       end).

(** [readCsvFile], identical in every converter class. *)
Definition readCsvFile (csvPath : jsstring) : M (list CsvEntry) :=
  fun w =>
    match readFile csvPath w with
    | (w', inl e) => (w', inl (CsvReadError e))
    | (w', inr content) =>
        let '(r, warns) := readCsvContent content in
        ({| cwd := cwd w'; fs := fs w'; zipExit := zipExit w';
            uuids := uuids w'; console := console w' ++ warns |}, r)
    end.

(** The loop [for (const imagePath of imagePaths)] that checks that every
    file is still there. *)
Fixpoint checkFiles (imagePaths : list jsstring) : M unit :=
  match imagePaths with
  | [] => ret tt
  | imagePath :: rest =>
      try_catch (access imagePath) (fun _ => throw (FileNotFound imagePath)) ;;
      checkFiles rest
  end.

(** The calls [fsPromises.copyFile(source, destPath)] of
    [copyImagesToEpub], one after the other. *)
Fixpoint copyFiles (sources : list jsstring) : M unit :=
  match sources with
  | [] => ret tt
  | source :: rest => copyFile source ;; copyFiles rest
  end.

(** [name.endsWith(ext) ? name : `${name}${ext}`] *)
Definition withExtension (name ext : jsstring) : jsstring :=
  if endsWith name ext then name else name ++ ext.

(** The command-line arguments after validation. *)
Inductive params : Type :=
| CsvMode (csvFile : jsstring)
| SingleMode (folderPath outputName : jsstring).

Definition resolveM (p : jsstring) : M jsstring :=
  fun w => (w, inr (resolve w p)).

(** [path.resolve(dir, name)] *)
Definition resolve2M (dir name : jsstring) : M jsstring :=
  fun w =>
    (w, inr (if NodePath.isAbsolute name then name
             else resolve w (NodePath.join dir name))).

(** [validateArguments] of gen-pdf and epub-converter. *)
Definition validateArguments (args : list jsstring) : M params :=
  if Nat.ltb (length args) 3 then throw UsageError
  else if Nat.eqb (length args) 3 then ret (CsvMode (nth 2 args []))
  else
    let folderPath := nth 2 args [] in
    let outputName := nth 3 args [] in
    if isEmpty outputName then throw OutputNameRequired
    else ret (SingleMode folderPath outputName).

(** [validateArguments] of the two merge scripts. *)
Definition validateMergeArguments (args : list jsstring)
    : M (jsstring * jsstring) :=
  if Nat.ltb (length args) 4 then throw UsageError
  else
    let csvFile := nth 2 args [] in
    let outputName := nth 3 args [] in
    if isEmpty outputName then throw OutputNameRequired
    else ret (csvFile, outputName).

(** The [try]/[catch] around the whole of [run]: a failure is printed and the
    process exits with status 1; otherwise it ends with status 0. *)
Definition exitStatus (body : M unit) (w : world) : world * Z :=
  match body w with
  | (w', inr _) => (w', 0%Z)
  | (w', inl e) => (fst (say (ErrorFatal e) w'), 1%Z)
  end.

(** [readImageFiles] of gen-pdf and epub-converter: an empty result is an
    error. *)
Definition readImageFiles_orThrow (folderPath : jsstring)
    : M (list jsstring) :=
  try_catch
    (files <- readdir folderPath ;;
     let imageFiles := filter isImageFile files in
     if Nat.eqb (length imageFiles) 0 then throw NoImagesInFolder
     else ret imageFiles)
    (fun error => throw (ReadFolderError error)).

(** [readImageFiles] of the merge scripts: an empty result is returned. *)
Definition readImageFiles_lenient (folderPath : jsstring)
    : M (list jsstring) :=
  try_catch
    (files <- readdir folderPath ;;
     let imageFiles := filter isImageFile files in
     ret imageFiles)
    (fun error => throw (ReadFolderError error)).

(** [doc.image(imagePath, ...)] of pdfkit: it reads the file and places
    it on the page, and throws on a file it cannot read and on data that
    is neither JPEG nor PNG. *)
Definition placeImage (imagePath : jsstring) : M unit :=
  fun w =>
    match fs w (resolve w imagePath) with
    | Some (File Image) => (w, inr tt)
    | Some (File _) => (w, inl UnknownImageFormat)
    | Some (Dir _) => (w, inl (EISDIR imagePath))
    | None => (w, inl (notFound w imagePath))
    end.

(** The callback of [imagePaths.forEach]: a page is added, then the image
    is placed on it; what placing throws is caught and printed as a
    warning, and the page stays. *)
Fixpoint addPages (imagePaths : list jsstring) : M unit :=
  match imagePaths with
  | [] => ret tt
  | imagePath :: rest =>
      try_catch (placeImage imagePath)
        (fun error => say (WarnImage imagePath error)) ;;
      addPages rest
  end.

(** [createPdf] and [createMergedPdf]: the write stream is opened on
    [outputPath], the pages are added while it opens, and the promise
    settles when the stream has finished or failed. *)
Definition createPdf (imagePaths : list jsstring) (outputPath : jsstring)
    : M unit :=
  addPages imagePaths ;;
  writeOutput outputPath (Pdf imagePaths).

(** The archive after [zip] has added the files of [added] to the archive
    [old]: the files of [old] stay, those of the same name are replaced
    (content.opf, which holds the title, and toc.ncx always are), and the
    new images are added after them. *)
Definition updateArchive (old added : EpubPackage) : EpubPackage :=
  {| epub_title := epub_title added;
     epub_images :=
       epub_images old
       ++ filter (fun name => negb (array_includes (epub_images old) name))
                 (epub_images added);
     epub_toc := epub_toc added |}.

(** What is at the output path after the pass [zip -0Xq outputPath
    mimetype] has ended with code 0: [zip] adds to the archive that is
    there and makes one when there is none. On a file that it cannot read
    as an archive [zip] ends with another code; were the host to report
    0 there, the file would count as replaced. *)
Definition zipMimetype (existing : option node) : content :=
  match existing with
  | Some (File (Epub old)) => Epub old
  | _ => EpubMimetypeOnly
  end.

(** What is at the output path after the pass [zip -Xr9Dq outputPath .]
    has ended with code 0. *)
Definition zipContent (existing : option node) (package : EpubPackage)
    : content :=
  match existing with
  | Some (File (Epub old)) => Epub (updateArchive old package)
  | _ => Epub package
  end.

(** [createEpubFile]: two passes of the archiver, the second only after
    the first has been closed with code 0; a pass that cannot be started
    rejects with the error of its [error] event. The exit codes are the
    host's: [zip] ends with a code other than 0 when it cannot read what
    is at the output path as an archive or cannot write there. *)
Definition createEpubFile (outputPath : jsstring) (package : EpubPackage)
    : M unit :=
  fun w =>
    let '(pass1, pass2) := zipExit w outputPath in
    match pass1 with
    | ZipNotSpawned e => (w, inl e)
    | ZipClosed code1 =>
        if negb (Z.eqb code1 0) then (w, inl (ZipMimetypeFailed code1))
        else
          match writeOutput outputPath (zipMimetype (fs w outputPath)) w with
          | (w1, inl e) => (w1, inl e)
          | (w1, inr _) =>
              match pass2 with
              | ZipNotSpawned e => (w1, inl e)
              | ZipClosed code2 =>
                  if negb (Z.eqb code2 0)
                  then (w1, inl (ZipContentFailed code2))
                  else writeOutput outputPath
                         (zipContent (fs w1 outputPath) package) w1
              end
          end
    end.

(** [arr.map((x, index) => f(x, index))] with indices from [i] on. *)
Fixpoint mapi_from (A B : Type) (f : A -> nat -> B) (i : nat) (l : list A)
    : list B :=
  match l with
  | [] => []
  | x :: rest => f x i :: mapi_from f (S i) rest
  end.

(* ===================================================================== *)
(** ** gen-pdf.js: class ImageToPdfConverter *)
(* ===================================================================== *)

Module ImageToPdfConverter.
Section Host.
Variable localeCompare : jsstring -> jsstring -> Z.

Definition readImageFiles := readImageFiles_orThrow.

(** The body of the [try] of one iteration of [processCsvEntries]. *)
Definition processEntry (entry : CsvEntry) : M unit :=
  validateFolder (caminho entry) ;;
  imageFiles <- readImageFiles (caminho entry) ;;
  let sortedFiles := sortFilesNumerically localeCompare imageFiles in
  let imagePaths := map (NodePath.join (caminho entry)) sortedFiles in
  checkFiles imagePaths ;;
  let outputFileName :=
    if endsWith (nome entry) (lit ".pdf") then lit "pdf/" ++ nome entry
    else lit "pdf/" ++ nome entry ++ lit ".pdf" in
  outputPath <- resolveM outputFileName ;;
  createPdf imagePaths outputPath.

Fixpoint processCsvEntries (entries : list CsvEntry) : M unit :=
  match entries with
  | [] => ret tt
  | entry :: rest =>
      try_catch (processEntry entry)
        (fun error => say (ErrorEntry (nome entry) error)) ;;
      processCsvEntries rest
  end.

Definition runBody (args : list jsstring) : M unit :=
  params <- validateArguments args ;;
  match params with
  | CsvMode csvFile =>
      try_catch (access csvFile) (fun _ => throw (CsvFileNotFound csvFile)) ;;
      entries <- readCsvFile csvFile ;;
      processCsvEntries entries
  | SingleMode folderPath outputName =>
      validateFolder folderPath ;;
      imageFiles <- readImageFiles folderPath ;;
      let sortedFiles := sortFilesNumerically localeCompare imageFiles in
      let imagePaths := map (NodePath.join folderPath) sortedFiles in
      checkFiles imagePaths ;;
      let outputFileName := withExtension outputName (lit ".pdf") in
      outputPath <- resolveM outputFileName ;;
      createPdf imagePaths outputPath
  end.

Definition run (args : list jsstring) : world -> world * Z :=
  exitStatus (runBody args).

End Host.
End ImageToPdfConverter.

(* ===================================================================== *)
(** ** epub-converter.js: class ImageToEpubConverter *)
(* ===================================================================== *)

Module ImageToEpubConverter.

(** An element of [imageList]; [htmlFile] is [undefined] until
    [createHtmlPages] sets it. *)
Record EpubImage : Type := {
  filename : jsstring;
  id : jsstring;
  mediaType : jsstring;
  pageNumber : nat;
  htmlFile : option jsstring
}.

(** [imageList.push({...})] of [copyImagesToEpub] for the image at index
    [i]. *)
Definition epubImage (i : nat) (imagePath : jsstring) : EpubImage :=
  let ext := toLowerCase (NodePath.extname imagePath) in
  let newFileName :=
    lit "image_" ++ padStart0 3 (String_of_nat (i + 1)) ++ ext in
  {| filename := newFileName;
     id := lit "img" ++ String_of_nat (i + 1);
     mediaType := mediaTypeOf ext;
     pageNumber := i + 1;
     htmlFile := None |}.

(** The list [copyImagesToEpub] returns when every copy succeeds. *)
Definition imageListOf (imagePaths : list jsstring) : list EpubImage :=
  mapi_from (fun imagePath i => epubImage i imagePath) 0 imagePaths.

Definition copyImagesToEpub (imagePaths : list jsstring)
    : M (list EpubImage) :=
  copyFiles imagePaths ;;
  ret (imageListOf imagePaths).

(** [createHtmlPages]: the list after [image.htmlFile = htmlFileName] on
    each image. *)
Definition createHtmlPages (imageList : list EpubImage) : list EpubImage :=
  map (fun image =>
         {| filename := filename image;
            id := id image;
            mediaType := mediaType image;
            pageNumber := pageNumber image;
            htmlFile :=
              Some (lit "page_"
                    ++ padStart0 3 (String_of_nat (pageNumber image))
                    ++ lit ".xhtml") |})
      imageList.

(** One iteration of the loop of [createTocNcx]. *)
Definition navPoint (image : EpubImage) : Ncx.NavPoint :=
  {| Ncx.np_id := lit "navpoint-" ++ String_of_nat (pageNumber image);
     Ncx.np_playOrder := pageNumber image;
     Ncx.np_label := Ncx.Pagina ++ lit " " ++ String_of_nat (pageNumber image);
     Ncx.np_src := lit "text/" ++ showProperty (htmlFile image) |}.

Definition tocDocument (imageList : list EpubImage) (title uuid : jsstring)
    : Ncx.Document Ncx.NavPoint :=
  {| Ncx.head := {| Ncx.dtb_uid := uuid;
                    Ncx.dtb_depth := lit "1";
                    Ncx.dtb_totalPageCount := lit "0";
                    Ncx.dtb_maxPageNumber := lit "0" |};
     Ncx.docTitle := title;
     Ncx.navMap := map navPoint imageList |}.

(** The text written to OEBPS/toc.ncx. *)
Definition createTocNcx (imageList : list EpubImage) (title uuid : jsstring)
    : jsstring :=
  Ncx.render (Ncx.renderPoint (lit "    ")) (tocDocument imageList title uuid).

(** What [createContentOpf] fills its template with; [now] is the date of
    the host's clock, [new Date().toISOString().split('T')[0]]. *)
Definition contentOpf (imageList : list EpubImage) (title uuid now : jsstring)
    : Opf.Package :=
  {| Opf.identifier := uuid;
     Opf.title := title;
     Opf.creator := lit "Images Batch EPUB";
     Opf.date := now;
     Opf.description := None;
     Opf.manifest :=
       Opf.ncxItem
       :: flat_map (fun image =>
                      Opf.imageItems (id image) (filename image)
                        (mediaType image) (pageNumber image) (htmlFile image))
                   imageList;
     Opf.spine := map (fun image => Opf.pageRef (pageNumber image)) imageList |}.

(** The text written to OEBPS/content.opf. *)
Definition createContentOpf (imageList : list EpubImage)
    (title uuid now : jsstring) : jsstring :=
  Opf.render (contentOpf imageList title uuid now).

(** [createEpub]; the temporary directory it works in is created and
    removed within the call. *)
Definition createEpub (imagePaths : list jsstring)
    (outputPath title : jsstring) : M unit :=
  uuid <- generateUUID ;;
  imageList <- copyImagesToEpub imagePaths ;;
  let imageList := createHtmlPages imageList in
  let toc := createTocNcx imageList title uuid in
  createEpubFile outputPath
    {| epub_title := title;
       epub_images := map filename imageList;
       epub_toc := toc |}.

Section Host.
Variable localeCompare : jsstring -> jsstring -> Z.

Definition readImageFiles := readImageFiles_orThrow.

(** The methods of the class that take a list of file names, by property
    name; [None] is [undefined]. *)
Definition method (property : string)
    : option (list jsstring -> list jsstring) :=
  if String.eqb property "sortFilesNumerically"
  then Some (sortFilesNumerically localeCompare)
  else None.

(** [this.property(files)] *)
Definition callMethod (property : string) (files : list jsstring)
    : M (list jsstring) :=
  match method property with
  | Some f => ret (f files)
  | None => throw (NotAFunction property)
  end.

(** The body of the [try] of one iteration of [processCsvEntries]. *)
Definition processEntry (entry : CsvEntry) : M unit :=
  validateFolder (caminho entry) ;;
  imageFiles <- readImageFiles (caminho entry) ;;
  sortedFiles <- callMethod "sortFilesNumerically" imageFiles ;;
  let imagePaths := map (NodePath.join (caminho entry)) sortedFiles in
  checkFiles imagePaths ;;
  let outputFileName :=
    if endsWith (nome entry) (lit ".epub") then lit "epub/" ++ nome entry
    else lit "epub/" ++ nome entry ++ lit ".epub" in
  outputPath <- resolveM outputFileName ;;
  mkdir (lit "epub") ;;
  createEpub imagePaths outputPath (nome entry).

Fixpoint processCsvEntries (entries : list CsvEntry) : M unit :=
  match entries with
  | [] => ret tt
  | entry :: rest =>
      try_catch (processEntry entry)
        (fun error => say (ErrorEntry (nome entry) error)) ;;
      processCsvEntries rest
  end.

Definition runBody (args : list jsstring) : M unit :=
  params <- validateArguments args ;;
  match params with
  | CsvMode csvFile =>
      try_catch (access csvFile) (fun _ => throw (CsvFileNotFound csvFile)) ;;
      entries <- readCsvFile csvFile ;;
      processCsvEntries entries
  | SingleMode folderPath outputName =>
      validateFolder folderPath ;;
      imageFiles <- readImageFiles folderPath ;;
      sortedFiles <- callMethod "sortFilesNumericamente" imageFiles ;;
      let imagePaths := map (NodePath.join folderPath) sortedFiles in
      checkFiles imagePaths ;;
      let outputFileName := withExtension outputName (lit ".epub") in
      outputPath <- resolve2M (lit "epub") outputFileName ;;
      mkdir (lit "epub") ;;
      createEpub imagePaths outputPath outputName
  end.

Definition run (args : list jsstring) : world -> world * Z :=
  exitStatus (runBody args).

End Host.
End ImageToEpubConverter.

(* ===================================================================== *)
(** ** The merge scripts: what MergePdfConverter and MergeEpubConverter share *)
(* ===================================================================== *)

Section Collect.
Variable localeCompare : jsstring -> jsstring -> Z.

(** [sortedFiles.map((file, index) => ({...}))] for the entry at index [i]. *)
Definition imagesInfo (i : nat) (entry : CsvEntry)
    (sortedFiles : list jsstring) : list MergedImageRecord :=
  mapi_from
    (fun file index =>
       {| mi_path := NodePath.join (caminho entry) file;
          mi_filename := file;
          folderName := nome entry;
          folderIndex := i + 1;
          imageIndex := index + 1;
          totalInFolder := length sortedFiles |})
    0 sortedFiles.

(** The body of the [try] of one iteration of [collectAllImages]: the new
    value of [allImages]. *)
Definition collectEntry (i : nat) (entry : CsvEntry)
    (allImages : list MergedImageRecord) : M (list MergedImageRecord) :=
  validateFolder (caminho entry) ;;
  imageFiles <- readImageFiles_lenient (caminho entry) ;;
  if Nat.eqb (length imageFiles) 0 then
    say (WarnNoImages (caminho entry)) ;;
    ret allImages
  else
    let sortedFiles := sortFilesNumerically localeCompare imageFiles in
    let infos := imagesInfo i entry sortedFiles in
    checkFiles (map mi_path infos) ;;
    ret (allImages ++ infos).

Fixpoint collectAllImages_loop (i : nat) (entries : list CsvEntry)
    (allImages : list MergedImageRecord) : M (list MergedImageRecord) :=
  match entries with
  | [] => ret allImages
  | entry :: rest =>
      allImages' <-
        try_catch (collectEntry i entry allImages)
          (fun error =>
             say (ErrorEntry (nome entry) error) ;;
             ret allImages) ;;
      collectAllImages_loop (S i) rest allImages'
  end.

Definition collectAllImages (entries : list CsvEntry)
    : M (list MergedImageRecord) :=
  allImages <- collectAllImages_loop 0 entries [] ;;
  if Nat.eqb (length allImages) 0 then throw NoImagesCollected
  else ret allImages.

End Collect.

(* ===================================================================== *)
(** ** gen-lote-pdf.js: class MergePdfConverter *)
(* ===================================================================== *)

Module MergePdfConverter.
Section Host.
Variable localeCompare : jsstring -> jsstring -> Z.

Definition createMergedPdf (allImages : list MergedImageRecord)
    (outputPath : jsstring) : M unit :=
  createPdf (map mi_path allImages) outputPath.

Definition runBody (args : list jsstring) : M unit :=
  validated <- validateMergeArguments args ;;
  let '(csvFile, outputName) := validated in
  try_catch (access csvFile) (fun _ => throw (CsvFileNotFound csvFile)) ;;
  entries <- readCsvFile csvFile ;;
  allImages <- collectAllImages localeCompare entries ;;
  let outputFileName := withExtension outputName (lit ".pdf") in
  outputPath <- resolve2M (lit "pdf") outputFileName ;;
  mkdir (lit "pdf") ;;
  createMergedPdf allImages outputPath.

Definition run (args : list jsstring) : world -> world * Z :=
  exitStatus (runBody args).

End Host.
End MergePdfConverter.

(* ===================================================================== *)
(** ** gen-lote-epub.js: class MergeEpubConverter *)
(* ===================================================================== *)

Module MergeEpubConverter.

(** An element of [imageList]. *)
Record EpubImage : Type := {
  filename : jsstring;
  id : jsstring;
  mediaType : jsstring;
  pageNumber : nat;
  originalInfo : MergedImageRecord;
  htmlFile : option jsstring
}.

(** [imageList.push({...})] of [copyImagesToEpub] for the image at index
    [i]. *)
Definition epubImage (i : nat) (imageInfo : MergedImageRecord) : EpubImage :=
  let ext := toLowerCase (NodePath.extname (mi_path imageInfo)) in
  let newFileName :=
    lit "image_" ++ padStart0 4 (String_of_nat (i + 1)) ++ ext in
  {| filename := newFileName;
     id := lit "img" ++ String_of_nat (i + 1);
     mediaType := mediaTypeOf ext;
     pageNumber := i + 1;
     originalInfo := imageInfo;
     htmlFile := None |}.

(** The list [copyImagesToEpub] returns when every copy succeeds. *)
Definition imageListOf (allImages : list MergedImageRecord)
    : list EpubImage :=
  mapi_from (fun imageInfo i => epubImage i imageInfo) 0 allImages.

Definition copyImagesToEpub (allImages : list MergedImageRecord)
    : M (list EpubImage) :=
  copyFiles (map mi_path allImages) ;;
  ret (imageListOf allImages).

(** [createHtmlPages]: the list after [image.htmlFile = htmlFileName] on
    each image. *)
Definition createHtmlPages (imageList : list EpubImage) : list EpubImage :=
  map (fun image =>
         {| filename := filename image;
            id := id image;
            mediaType := mediaType image;
            pageNumber := pageNumber image;
            originalInfo := originalInfo image;
            htmlFile :=
              Some (lit "page_"
                    ++ padStart0 4 (String_of_nat (pageNumber image))
                    ++ lit ".xhtml") |})
      imageList.

(** The page point added for [folderImg] once [pageOrder] is incremented. *)
Definition pagePoint (folderImg : EpubImage) (pageOrder : nat)
    : Ncx.NavPoint :=
  {| Ncx.np_id := lit "page-" ++ String_of_nat (pageNumber folderImg);
     Ncx.np_playOrder := pageOrder;
     Ncx.np_label :=
       Ncx.Pagina ++ lit " "
       ++ String_of_nat (imageIndex (originalInfo folderImg));
     Ncx.np_src := lit "text/" ++ showProperty (htmlFile folderImg) |}.

(** The inner loop [for (let i = 0; i < folderImages.length; i++)] of
    [createTocNcx]: the page points and the final [pageOrder]. *)
Fixpoint pagePoints (folderImages : list EpubImage) (pageOrder : nat)
    : list Ncx.NavPoint * nat :=
  match folderImages with
  | [] => ([], pageOrder)
  | folderImg :: rest =>
      let pageOrder := pageOrder + 1 in
      let '(points, pageOrder') := pagePoints rest pageOrder in
      (pagePoint folderImg pageOrder :: points, pageOrder')
  end.

(** The loop [for (const image of imageList)] of [createTocNcx] over what
    is left of the list, with the loop's variables [currentFolder],
    [folderNavPoint] and [pageOrder]. *)
Fixpoint createTocNcx_loop (imageList rest : list EpubImage)
    (currentFolder : jsstring) (folderNavPoint pageOrder : nat)
    : list Ncx.NavFolder :=
  match rest with
  | [] => []
  | image :: rest' =>
      let folderInfo := originalInfo image in
      if negb (str_eqb (folderName folderInfo) currentFolder) then
        let currentFolder := folderName folderInfo in
        let folderImages :=
          filter (fun img =>
                    str_eqb (folderName (originalInfo img)) currentFolder)
                 imageList in
        let '(pages, pageOrder') := pagePoints folderImages pageOrder in
        {| Ncx.nf_point :=
             {| Ncx.np_id := lit "folder-" ++ String_of_nat folderNavPoint;
                Ncx.np_playOrder := pageOrder;
                Ncx.np_label := folderName folderInfo;
                Ncx.np_src := lit "text/" ++ showProperty (htmlFile image) |};
           Ncx.nf_pages := pages |}
        :: createTocNcx_loop imageList rest' currentFolder
             (folderNavPoint + 1) (pageOrder' + 1)
      else
        createTocNcx_loop imageList rest' currentFolder
          folderNavPoint pageOrder
  end.

Definition tocDocument (imageList : list EpubImage) (title uuid : jsstring)
    : Ncx.Document Ncx.NavFolder :=
  {| Ncx.head :=
       {| Ncx.dtb_uid := uuid;
          Ncx.dtb_depth := lit "2";
          Ncx.dtb_totalPageCount := String_of_nat (length imageList);
          Ncx.dtb_maxPageNumber := String_of_nat (length imageList) |};
     Ncx.docTitle := title;
     Ncx.navMap := createTocNcx_loop imageList imageList [] 1 1 |}.

(** The text written to OEBPS/toc.ncx. *)
Definition createTocNcx (imageList : list EpubImage) (title uuid : jsstring)
    : jsstring :=
  Ncx.render Ncx.renderFolder (tocDocument imageList title uuid).

(** What [createContentOpf] fills its template with; [now] is the date of
    the host's clock, [new Date().toISOString().split('T')[0]]. The word
    [múltiplas] of the description has U+00FA as its second letter. *)
Definition contentOpf (imageList : list EpubImage) (title uuid now : jsstring)
    : Opf.Package :=
  {| Opf.identifier := uuid;
     Opf.title := title;
     Opf.creator := lit "Merge EPUB Converter";
     Opf.date := now;
     Opf.description :=
       Some (lit "EPUB gerado a partir de m" ++ [250%N]
             ++ lit "ltiplas pastas de imagens");
     Opf.manifest :=
       Opf.ncxItem
       :: flat_map (fun image =>
                      Opf.imageItems (id image) (filename image)
                        (mediaType image) (pageNumber image) (htmlFile image))
                   imageList;
     Opf.spine := map (fun image => Opf.pageRef (pageNumber image)) imageList |}.

(** The text written to OEBPS/content.opf. *)
Definition createContentOpf (imageList : list EpubImage)
    (title uuid now : jsstring) : jsstring :=
  Opf.render (contentOpf imageList title uuid now).

(** The navigation map of the book merged from [allImages]. *)
Definition navMapOf (allImages : list MergedImageRecord)
    : list Ncx.NavFolder :=
  Ncx.navMap
    (tocDocument (createHtmlPages (imageListOf allImages)) [] []).

(** [createMergedEpub]; the temporary directory it works in is created and
    removed within the call. *)
Definition createMergedEpub (allImages : list MergedImageRecord)
    (outputPath title : jsstring) : M unit :=
  uuid <- generateUUID ;;
  imageList <- copyImagesToEpub allImages ;;
  let imageList := createHtmlPages imageList in
  let toc := createTocNcx imageList title uuid in
  createEpubFile outputPath
    {| epub_title := title;
       epub_images := map filename imageList;
       epub_toc := toc |}.

Section Host.
Variable localeCompare : jsstring -> jsstring -> Z.

Definition runBody (args : list jsstring) : M unit :=
  validated <- validateMergeArguments args ;;
  let '(csvFile, outputName) := validated in
  try_catch (access csvFile) (fun _ => throw (CsvFileNotFound csvFile)) ;;
  entries <- readCsvFile csvFile ;;
  allImages <- collectAllImages localeCompare entries ;;
  let outputFileName := withExtension outputName (lit ".epub") in
  outputPath <- resolve2M (lit "epub") outputFileName ;;
  mkdir (lit "epub") ;;
  createMergedEpub allImages outputPath outputName.

Definition run (args : list jsstring) : world -> world * Z :=
  exitStatus (runBody args).

End Host.
End MergeEpubConverter.

(* ===================================================================== *)
(** ** analizer.js: the CSV generator *)
(* ===================================================================== *)

Module Analyzer.

(** The [Error] values [listImmediateFolders] throws, by message. *)
Inductive listError : Type :=
| PathNotFound (targetPath : jsstring)     (* `Caminho não encontrado: ...` *)
| NotADirectory (targetPath : jsstring)    (* `O caminho informado não é um diretório: ...` *)
| SystemError (e : error)                  (* an error of the fs module *)
| ListFoldersError (cause : listError).    (* `Erro ao listar pastas: ${error.message}` *)

(** The loop [for (const item of items)] of [listImmediateFolders]:
    [fs.statSync] throws on an item that is not there any more. *)
Fixpoint listImmediateFolders_loop (w : world) (targetPath : jsstring)
    (items : list jsstring) : listError + list CsvEntry :=
  match items with
  | [] => inr []
  | item :: rest =>
      let fullPath := NodePath.join targetPath item in
      match fs w (resolve w fullPath) with
      | None => inl (SystemError (ENOENT fullPath))
      | Some itemStats =>
          match listImmediateFolders_loop w targetPath rest with
          | inl e => inl e
          | inr folders =>
              match itemStats with
              | Dir _ =>
                  inr ({| nome := item; caminho := fullPath |} :: folders)
              | File _ => inr folders
              end
          end
      end
  end.

(** The [try] block of [listImmediateFolders]. *)
Definition listImmediateFolders_try (w : world) (targetPath : jsstring)
    : listError + list CsvEntry :=
  match fs w (resolve w targetPath) with
  | None => inl (PathNotFound targetPath)
  | Some (File _) => inl (NotADirectory targetPath)
  | Some (Dir items) => listImmediateFolders_loop w targetPath items
  end.

(** [listImmediateFolders(targetPath)]: it reads the file system and
    leaves it as it is; the [catch] clause wraps whatever was thrown. *)
Definition listImmediateFolders (w : world) (targetPath : jsstring)
    : listError + list CsvEntry :=
  match listImmediateFolders_try w targetPath with
  | inl e => inl (ListFoldersError e)
  | inr folders => inr folders
  end.

(** The value of [csvContent] when the loop of [generateCSV] ends. *)
Definition csvContent (folders : list CsvEntry) : jsstring :=
  lit "nome;caminho" ++ [LF]
  ++ flat_map
       (fun folder =>
          let nome := replaceSemicolons (nome folder) in
          let caminho := replaceSemicolons (caminho folder) in
          nome ++ [semicolon] ++ caminho ++ [LF])
       folders.

(** [fs.writeFileSync(p, data, 'utf8')]: the file is written where [p]
    resolves, in a directory that is there; an error names [p] as it was
    given. *)
Definition writeFileSync (p : jsstring) (c : content) : M unit :=
  fun w =>
    match writeOutput (resolve w p) c w with
    | (w', inr u) => (w', inr u)
    | (w', inl (EISDIR _)) => (w', inl (EISDIR p))
    | (w', inl (ENOTDIR _)) => (w', inl (ENOTDIR p))
    | (w', inl (ENOENT _)) => (w', inl (ENOENT p))
    | (w', inl e) => (w', inl e)
    end.

(** [generateCSV(folders, outputPath)] *)
Definition generateCSV (folders : list CsvEntry) (outputPath : jsstring)
    : M jsstring :=
  try_catch
    (writeFileSync outputPath (Text (csvContent folders)) ;;
     resolveM outputPath)
    (fun error => throw (GenerateCsvError error)).

End Analyzer.

(* ===================================================================== *)
(** ** script.js: the converter of one folder that gen-pdf.js grew from *)
(* ===================================================================== *)

Module Script.
Section Host.
Variable localeCompare : jsstring -> jsstring -> Z.

(** [validateArguments]: a folder and an output name are both required. *)
Definition validateArguments (args : list jsstring)
    : M (jsstring * jsstring) :=
  if Nat.ltb (length args) 4 then throw UsageError
  else
    let folderPath := nth 2 args [] in
    let outputName := nth 3 args [] in
    if isEmpty outputName then throw OutputNameRequired
    else ret (folderPath, outputName).

Definition runBody (args : list jsstring) : M unit :=
  validated <- validateArguments args ;;
  let '(folderPath, outputName) := validated in
  validateFolder folderPath ;;
  imageFiles <- readImageFiles_orThrow folderPath ;;
  let sortedFiles := sortFilesNumerically localeCompare imageFiles in
  let imagePaths := map (NodePath.join folderPath) sortedFiles in
  checkFiles imagePaths ;;
  let outputFileName := withExtension outputName (lit ".pdf") in
  outputPath <- resolveM outputFileName ;;
  createPdf imagePaths outputPath.

Definition run (args : list jsstring) : world -> world * Z :=
  exitStatus (runBody args).

End Host.
End Script.

(* ===================================================================== *)
(** ** Notions used in the statements *)
(* ===================================================================== *)

Definition quoteFree (field : jsstring) : Prop := ~ In dquote field.

(** The number [parseInt] reads in the stem of a file name (0 when it is
    NaN). *)
Definition stemValue (file : jsstring) : Z :=
  match stemNumber file with
  | Some n => n
  | None => 0%Z
  end.

(** The stem of [file] parses as an integer that a Number holds exactly. *)
Definition numericStem (file : jsstring) : Prop :=
  exists n, stemNumber file = Some n /\ safeInteger n.

(** The files of [files] whose stem has the value [n], in their order. *)
Definition withStemValue (n : Z) (files : list jsstring) : list jsstring :=
  filter (fun file => Z.eqb (stemValue file) n) files.

(** The sign of a comparator's result, which is all a sort looks at. *)
Definition sign (c : Z) : comparison := Z.compare c 0.

(** A folder that [collectAllImages] has added to [allImages]: the index
    of its entry in the CSV, the entry and its sorted image files. *)
Record CollectedFolder : Type := {
  cf_index : nat;
  cf_entry : CsvEntry;
  cf_files : list jsstring
}.

Definition cf_name (f : CollectedFolder) : jsstring := nome (cf_entry f).

(** [allImages] once the folders [folders] have been added, one after the
    other. *)
Definition collected (folders : list CollectedFolder)
    : list MergedImageRecord :=
  flat_map (fun f => imagesInfo (cf_index f) (cf_entry f) (cf_files f))
           folders.

(** [`text/page_${String(n).padStart(4, '0')}.xhtml`] *)
Definition pageSrc (n : nat) : jsstring :=
  lit "text/" ++ lit "page_" ++ padStart0 4 (String_of_nat n) ++ lit ".xhtml".

(** The navigation map of a merged book in the specification's words: the
    page points of one folder, [n] of them, numbered from [pageNo] in the
    book and from [indexInFolder] in the folder, the play order running
    from [playOrder]. *)
Fixpoint specPages (n pageNo playOrder indexInFolder : nat)
    : list Ncx.NavPoint :=
  match n with
  | 0 => []
  | S n' =>
      {| Ncx.np_id := lit "page-" ++ String_of_nat pageNo;
         Ncx.np_playOrder := playOrder;
         Ncx.np_label := Ncx.Pagina ++ lit " " ++ String_of_nat indexInFolder;
         Ncx.np_src := pageSrc pageNo |}
      :: specPages n' (S pageNo) (S playOrder) (S indexInFolder)
  end.

(** One navigation point per folder, in the order of the folders, each
    holding one point per page of the folder; the play order is a running
    counter that advances by one for a folder point and for a page point. *)
Fixpoint specNavMap (folders : list CollectedFolder)
    (folderNo pageNo playOrder : nat) : list Ncx.NavFolder :=
  match folders with
  | [] => []
  | f :: rest =>
      let n := length (cf_files f) in
      {| Ncx.nf_point :=
           {| Ncx.np_id := lit "folder-" ++ String_of_nat folderNo;
              Ncx.np_playOrder := playOrder;
              Ncx.np_label := cf_name f;
              Ncx.np_src := pageSrc pageNo |};
         Ncx.nf_pages := specPages n pageNo (S playOrder) 1 |}
      :: specNavMap rest (S folderNo) (pageNo + n) (playOrder + n + 1)
  end.

(** The folders of the specification's example: A with two images and B
    with one, in that order of the CSV. *)
Definition folderA : CollectedFolder :=
  {| cf_index := 0;
     cf_entry := {| nome := lit "A"; caminho := lit "/data/A" |};
     cf_files := map lit ["1.jpg"; "2.jpg"]%string |}.

Definition folderB : CollectedFolder :=
  {| cf_index := 1;
     cf_entry := {| nome := lit "B"; caminho := lit "/data/B" |};
     cf_files := map lit ["1.jpg"]%string |}.

(** A third folder that is named A as well. *)
Definition folderA' : CollectedFolder :=
  {| cf_index := 2;
     cf_entry := {| nome := lit "A"; caminho := lit "/other/A" |};
     cf_files := map lit ["7.jpg"]%string |}.

(** [l1] is [l2] with some elements left out. *)
Inductive subseq (A : Type) : list A -> list A -> Prop :=
| subseq_nil : subseq [] []
| subseq_skip (x : A) (l1 l2 : list A) : subseq l1 l2 -> subseq l1 (x :: l2)
| subseq_keep (x : A) (l1 l2 : list A) :
    subseq l1 l2 -> subseq (x :: l1) (x :: l2).

(** A file system given by the list of its nodes. *)
Definition fsOf (nodes : list (string * node)) : jsstring -> option node :=
  fold_right (fun pn f => update f (lit (fst pn)) (snd pn)) (fun _ => None)
             nodes.

Definition anImage : node := File Image.

(** A working directory [/work] without [pdf] or [epub] directory; a folder
    [/data/A] with two images and a text file, a folder [/data/B] with one
    image, a folder [/data/empty] without image; a CSV that lists the
    empty folder, then A and B. The archiver succeeds. *)
Definition exampleWorld : world :=
  {| cwd := lit "/work";
     fs := fsOf
       [("/work", Dir [lit "list.csv"]);
        ("/work/list.csv",
         File (Text (lit "nome;caminho" ++ [LF]
                     ++ lit "vazio;/data/empty" ++ [LF]
                     ++ lit "A;/data/A" ++ [LF]
                     ++ lit "B;/data/B" ++ [LF])));
        ("/data/A", Dir (map lit ["2.jpg"; "notes.txt"; "1.jpg"]));
        ("/data/A/1.jpg", anImage);
        ("/data/A/2.jpg", anImage);
        ("/data/A/notes.txt", File (Text []));
        ("/data/B", Dir (map lit ["1.jpg"]));
        ("/data/B/1.jpg", anImage);
        ("/data/empty", Dir (map lit ["readme.txt"]));
        ("/data/empty/readme.txt", File (Text []))];
     zipExit := fun _ => (ZipClosed 0, ZipClosed 0);
     uuids := [lit "uuid-1"; lit "uuid-2"; lit "uuid-3"];
     console := [] |}.

(** [exampleWorld] with one more folder, [/data/G], that lists a JPEG
    image, a GIF image and a directory that has the name of an image. *)
Definition galleryWorld : world :=
  withFs exampleWorld
    (fold_right (fun pn f => update f (lit (fst pn)) (snd pn))
       (fs exampleWorld)
       [("/data/G", Dir (map lit ["1.jpg"; "2.gif"; "3.png"]));
        ("/data/G/1.jpg", anImage);
        ("/data/G/2.gif", File OtherImage);
        ("/data/G/3.png", Dir [])]).

Definition argv (args : list string) : list jsstring := map lit args.

(** The entries that [readCsvFile] returns for [/work/list.csv] in
    [exampleWorld]. *)
Definition exampleEntries : list CsvEntry :=
  [ {| nome := lit "vazio"; caminho := lit "/data/empty" |};
    {| nome := lit "A"; caminho := lit "/data/A" |};
    {| nome := lit "B"; caminho := lit "/data/B" |} ].

(** The value a method call returns, or the empty list when it throws. *)
Definition returned (A : Type) (r : world * (error + list A)) : list A :=
  match snd r with
  | inr l => l
  | inl _ => []
  end.

(** The world after [d] is printed on the console. *)
Definition printed (w : world) (d : diagnostic) : world := fst (say d w).

(** The world after the diagnostics [ds] are printed, one after the
    other. *)
Definition printedAll (w : world) (ds : list diagnostic) : world :=
  fold_left printed ds w.

(** The absolute path of the directory [pdf] of the working directory. *)
Definition pdfDirectory (w : world) : jsstring := resolve w (lit "pdf").

(** The absolute path of the directory [epub] of the working directory. *)
Definition epubDirectory (w : world) : jsstring := resolve w (lit "epub").

(** [folderPath] is a directory in which [readdir] lists [entries]. *)
Definition isFolder (w : world) (folderPath : jsstring)
    (entries : list jsstring) : Prop :=
  fs w (resolve w folderPath) = Some (Dir entries).

(** A field that survives a line of the CSV: it is not empty, begins and
    ends with a character that is not white space, and holds no double
    quote and no line feed. *)
Definition writableField (s : jsstring) : Prop :=
  s <> []
  /\ isWhiteSpace (hd 0%N s) = false
  /\ isWhiteSpace (last s 0%N) = false
  /\ ~ In dquote s
  /\ ~ In LF s.

Definition writableEntry (f : CsvEntry) : Prop :=
  writableField (nome f) /\ writableField (caminho f).

Definition semicolonFree (f : CsvEntry) : Prop :=
  ~ In semicolon (nome f) /\ ~ In semicolon (caminho f).

(** A record as [generateCSV] writes it. *)
Definition written (f : CsvEntry) : CsvEntry :=
  {| nome := replaceSemicolons (nome f);
     caminho := replaceSemicolons (caminho f) |}.

(** [lines.join('\n')] *)
Fixpoint joinLines (lines : list jsstring) : jsstring :=
  match lines with
  | [] => []
  | [l] => l
  | l :: rest => l ++ LF :: joinLines rest
  end.

(** The line of a record in the CSV. *)
Definition csvLine (f : CsvEntry) : jsstring :=
  nome f ++ semicolon :: caminho f.

(** A field that a line of the CSV gives back as it is. *)
Definition plainField (s : jsstring) : Prop :=
  writableField s /\ ~ In semicolon s.

Definition plainEntry (f : CsvEntry) : Prop :=
  plainField (nome f) /\ plainField (caminho f).

(** [w'] has the files and the working directory of [w]. *)
Definition sameFiles (w w' : world) : Prop :=
  fs w' = fs w /\ cwd w' = cwd w.

(** The files of a collected folder are the images that [readdir] lists in
    it, sorted. *)
Definition sortedListing (localeCompare : jsstring -> jsstring -> Z)
    (w : world) (f : CollectedFolder) : Prop :=
  exists dirEntries,
    isFolder w (caminho (cf_entry f)) dirEntries
    /\ cf_files f
       = sortFilesNumerically localeCompare (filter isImageFile dirEntries).

(** The step of [digitsValue] in radix ten. *)
Definition decimalStep (acc d : N) : N := (acc * 10 + d)%N.

(** The code units of the digits 0 to 9. *)
Definition isDecimalDigit (c : char) : Prop := (48 <= c <= 57)%N.

(** A file named after the number of its page, [`${n}.${ext}`]. *)
Definition numberedName (page : nat * jsstring) : jsstring :=
  String_of_nat (fst page) ++ dot :: snd page.

(** An extension without full stop or separator in it. *)
Definition plainExtension (ext : jsstring) : Prop :=
  ~ In dot ext /\ ~ In slash ext.


(** Nothing is at the path [p]. *)
Definition missing (w : world) (p : jsstring) : bool :=
  match fs w (resolve w p) with
  | None => true
  | Some _ => false
  end.

(** What [doc.image] throws for the image at [imagePath], if it throws. *)
Definition placeError (w : world) (imagePath : jsstring) : option error :=
  match snd (placeImage imagePath w) with
  | inl e => Some e
  | inr _ => None
  end.

(** The warnings of [createPdf] for the images at [imagePaths]: one for
    each image that cannot be placed, in the order of the pages. *)
Definition imageWarnings (w : world) (imagePaths : list jsstring)
    : list diagnostic :=
  flat_map (fun imagePath =>
              match placeError w imagePath with
              | Some e => [WarnImage imagePath e]
              | None => []
              end)
           imagePaths.

(** A file is at the path [p]. *)
Definition isFile (w : world) (p : jsstring) : bool :=
  match fs w (resolve w p) with
  | Some (File _) => true
  | _ => false
  end.

(** The number that the decimal digits at the start of [s] denote. *)
Definition leadingNumber (s : jsstring) : nat :=
  N.to_nat (digitsValue 10 (radixDigits 10 s)).

(** The navigation point of page [k] of a book made from one folder, in
    the words of the template: the page's number is its play order and
    names its label and its file. *)
Definition flatPoint (k : nat) : Ncx.NavPoint :=
  {| Ncx.np_id := lit "navpoint-" ++ String_of_nat k;
     Ncx.np_playOrder := k;
     Ncx.np_label := Ncx.Pagina ++ lit " " ++ String_of_nat k;
     Ncx.np_src :=
       lit "text/page_" ++ padStart0 3 (String_of_nat k) ++ lit ".xhtml" |}.

(** A number for each [id] of a manifest: 0 for [ncx], [2k] for [img]
    followed by [k], [2k+1] for [page] followed by [k]. *)
Definition idKey (id : jsstring) : nat :=
  if startsWith id (lit "img") then 2 * leadingNumber (skipn 3 id)
  else if startsWith id (lit "page") then 2 * leadingNumber (skipn 4 id) + 1
  else 0.


(** What the loop of [collectAllImages] meets in the folder of an entry
    whose images are all there: a diagnostic when nothing is at the path
    of the folder (the system's ENOTDIR when the path goes through a file,
    the converter's own error otherwise), when a file is there or when the
    folder lists no image, and the image files otherwise. *)
Definition folderOutcome (w : world) (entry : CsvEntry)
    : diagnostic + list jsstring :=
  match fs w (resolve w (caminho entry)) with
  | None =>
      inl (ErrorEntry (nome entry)
             (if throughFile w (resolve w (caminho entry))
              then ENOTDIR (caminho entry)
              else FolderNotFound (caminho entry)))
  | Some (File _) => inl (ErrorEntry (nome entry) (NotAFolder (caminho entry)))
  | Some (Dir files) =>
      if Nat.eqb (length (filter isImageFile files)) 0
      then inl (WarnNoImages (caminho entry))
      else inr (filter isImageFile files)
  end.


(** The invariant of a record of [allImages] collected from [entries]:
    [folderIndex] is the position, counted from 1, of the record's entry in
    the CSV, the record names that entry and a file of its folder, and
    [imageIndex] is a position, counted from 1, among the [totalInFolder]
    images of the folder. *)
Definition recordOf (entries : list CsvEntry) (r : MergedImageRecord)
    : Prop :=
  (exists entry,
     nth_error entries (folderIndex r - 1) = Some entry
     /\ folderName r = nome entry
     /\ mi_path r = NodePath.join (caminho entry) (mi_filename r))
  /\ 1 <= folderIndex r
  /\ 1 <= imageIndex r <= totalInFolder r
  /\ isImageFile (mi_filename r) = true.


(** The record that [listImmediateFolders] pushes for [item]. *)
Definition folderRecord (targetPath item : jsstring) : CsvEntry :=
  {| nome := item; caminho := NodePath.join targetPath item |}.

(** [item] of the directory [targetPath] is a directory itself. *)
Definition isSubfolder (w : world) (targetPath item : jsstring) : bool :=
  match fs w (resolve w (NodePath.join targetPath item)) with
  | Some (Dir _) => true
  | _ => false
  end.

(** A field of an entry that [readCsvFile] returns: it is not empty, has
    no white space at either end and holds no double quote. *)
Definition validField (s : jsstring) : Prop :=
  s <> [] /\ trim s = s /\ quoteFree s.

Definition validEntry (entry : CsvEntry) : Prop :=
  validField (nome entry) /\ validField (caminho entry).


(** [p] is neither the directory [pdf] of the working directory nor a
    path under it. *)
Definition outsidePdfDirectory (w : world) (p : jsstring) : Prop :=
  p <> pdfDirectory w /\ forall name, p <> pdfDirectory w ++ [slash] ++ name.

(** Two nodes of the same kind: nothing, the same file, or a directory. *)
Definition sameKind (a b : option node) : Prop :=
  match a, b with
  | None, None => True
  | Some (File c), Some (File c') => c = c'
  | Some (Dir _), Some (Dir _) => True
  | _, _ => False
  end.

(** What the archiver can work on at the output path: nothing or an
    archive. *)
Definition archiveOrNothing (existing : option node) : Prop :=
  match existing with
  | None => True
  | Some (File EpubMimetypeOnly) => True
  | Some (File (Epub _)) => True
  | _ => False
  end.

(** The package that [createEpub] hands to the archiver for the images
    at [imagePaths]. *)
Definition bookOf (imagePaths : list jsstring) (title uuid : jsstring)
    : EpubPackage :=
  let imageList :=
    ImageToEpubConverter.createHtmlPages
      (ImageToEpubConverter.imageListOf imagePaths) in
  {| epub_title := title;
     epub_images := map ImageToEpubConverter.filename imageList;
     epub_toc := ImageToEpubConverter.createTocNcx imageList title uuid |}.



(** The labels of the folder points of a merged book whose images have the
    folder names [names], [currentFolder] being the name of the folder
    point that is open: a point is opened where the name is not the name
    of the image before. *)
Fixpoint nameChanges (currentFolder : jsstring) (names : list jsstring)
    : list jsstring :=
  match names with
  | [] => []
  | name :: rest =>
      if str_eqb name currentFolder then nameChanges currentFolder rest
      else name :: nameChanges name rest
  end.

(** The numbers, counted from [first], of the pages of the book whose
    image comes from a folder named [name]. *)
Fixpoint pagesNamed (name : jsstring) (first : nat)
    (allImages : list MergedImageRecord) : list nat :=
  match allImages with
  | [] => []
  | image :: rest =>
      if str_eqb (folderName image) name
      then first :: pagesNamed name (S first) rest
      else pagesNamed name (S first) rest
  end.

(** [`page-${folderImg.pageNumber}`] *)
Definition pageId (pageNumber : nat) : jsstring :=
  lit "page-" ++ String_of_nat pageNumber.

(** A diagnostic printed through [console.warn]. *)
Definition isWarning (d : diagnostic) : bool :=
  match d with
  | WarnInvalidLine _ _ => true
  | WarnEmptyField _ => true
  | WarnNoImages _ => true
  | WarnImage _ _ => true
  | ErrorEntry _ _ => false
  | ErrorFatal _ => false
  end.

(** [exampleWorld] with a second folder named A, [/other/A], and a CSV
    that lists the folders A, B and the second A. *)
Definition sameNameWorld : world :=
  withFs exampleWorld
    (fold_right (fun pn f => update f (lit (fst pn)) (snd pn))
       (fs exampleWorld)
       [("/other/A", Dir (map lit ["7.jpg"]));
        ("/other/A/7.jpg", anImage);
        ("/work/list.csv",
         File (Text (lit "nome;caminho" ++ [LF]
                     ++ lit "A;/data/A" ++ [LF]
                     ++ lit "B;/data/B" ++ [LF]
                     ++ lit "A;/other/A" ++ [LF])))]).

(** The entries that [readCsvFile] returns for [/work/list.csv] in
    [sameNameWorld]. *)
Definition sameNameEntries : list CsvEntry :=
  [ {| nome := lit "A"; caminho := lit "/data/A" |};
    {| nome := lit "B"; caminho := lit "/data/B" |};
    {| nome := lit "A"; caminho := lit "/other/A" |} ].


(** [w'] is [w] with more printed on the console. *)
Definition printedMore (w w' : world) : Prop :=
  cwd w' = cwd w /\ fs w' = fs w /\ zipExit w' = zipExit w
  /\ uuids w' = uuids w /\ exists ds, console w' = console w ++ ds.

(** The package that [createMergedEpub] hands to the archiver for the
    images collected. *)
Definition mergedBookOf (allImages : list MergedImageRecord)
    (title uuid : jsstring) : EpubPackage :=
  let imageList :=
    MergeEpubConverter.createHtmlPages
      (MergeEpubConverter.imageListOf allImages) in
  {| epub_title := title;
     epub_images := map MergeEpubConverter.filename imageList;
     epub_toc := MergeEpubConverter.createTocNcx imageList title uuid |}.


(* ===================================================================== *)
(** * Properties *)
(* ===================================================================== *)

Local Open Scope list_scope.

(** ** Strings *)

Lemma str_eqb_eq (a b : jsstring) : str_eqb a b = true <-> a = b.
Proof.
  revert b; induction a as [|x a IH]; intros [|y b]; simpl;
    try (split; [discriminate | intros H; discriminate H]);
    try tauto.
  rewrite andb_true_iff, N.eqb_eq, IH.
  split; [intros [-> ->]; reflexivity | intros H; inversion H; auto].
Qed.

Lemma str_eqb_refl (a : jsstring) : str_eqb a a = true.
Proof. apply str_eqb_eq; reflexivity. Qed.

Lemma str_eqb_neq (a b : jsstring) : str_eqb a b = false <-> a <> b.
Proof.
  rewrite <- str_eqb_eq. destruct (str_eqb a b); split; congruence.
Qed.

Lemma split_not_nil (sep : char) (s : jsstring) : split sep s <> [].
Proof.
  destruct s as [|c s]; simpl; [discriminate|].
  destruct (N.eqb c sep); [discriminate|].
  destruct (split sep s); discriminate.
Qed.

(** ** The CSV line scanner *)

Lemma parseCsvLine_loop_quoteFree (line : jsstring) :
  forall result current inQuotes,
    Forall quoteFree result -> quoteFree current ->
    Forall quoteFree (parseCsvLine_loop line result current inQuotes).
Proof.
  induction line as [|char rest IH]; intros result current inQuotes Hr Hc; simpl.
  - apply Forall_app; split; [assumption | constructor; [assumption | constructor]].
  - destruct (N.eqb char dquote) eqn:Hq.
    + apply IH; assumption.
    + destruct (N.eqb char semicolon && negb inQuotes).
      * apply IH.
        -- apply Forall_app; split; [assumption | repeat constructor; assumption].
        -- intros [].
      * apply IH; [assumption|].
        unfold quoteFree. rewrite in_app_iff. intros [H | [H | []]].
        -- exact (Hc H).
        -- apply N.eqb_neq in Hq. congruence.
Qed.

(** C9. No field returned by the CSV line scanner contains a double-quote
    character, whatever the line: a quote only flips [inQuotes] and is
    never appended to [current]. *)
Theorem parseCsvLine_fields_have_no_quote (line : jsstring) :
  Forall (fun field => ~ In dquote field) (parseCsvLine line).
Proof.
  unfold parseCsvLine.
  apply parseCsvLine_loop_quoteFree; [constructor | intros []].
Qed.

(** A quoted value comes back without its quotes, its semicolons kept. *)
Lemma parseCsvLine_loop_inQuotes (v : jsstring) :
  forall rest result current,
    ~ In dquote v ->
    parseCsvLine_loop (v ++ dquote :: rest) result current true
    = parseCsvLine_loop rest result (current ++ v) false.
Proof.
  induction v as [|c v IH]; intros rest result current Hv; simpl.
  - rewrite app_nil_r. reflexivity.
  - destruct (N.eqb c dquote) eqn:Hq.
    + apply N.eqb_eq in Hq. exfalso. apply Hv. left. exact Hq.
    + rewrite andb_false_r. rewrite IH.
      * rewrite <- app_assoc. reflexivity.
      * intros H. apply Hv. right. exact H.
Qed.

Lemma parseCsvLine_quoted (v : jsstring) :
  ~ In dquote v -> parseCsvLine (dquote :: v ++ [dquote]) = [v].
Proof.
  intros Hv. unfold parseCsvLine. simpl.
  rewrite parseCsvLine_loop_inQuotes by assumption. reflexivity.
Qed.

(** ** The CSV reader *)

Lemma readCsvFile_try_not_CsvEmpty (content : jsstring) :
  fst (readCsvFile_try content) <> inl CsvEmpty.
Proof.
  unfold readCsvFile_try.
  destruct (split LF (trim content)) as [|l ls] eqn:Hs.
  - exfalso. exact (split_not_nil _ _ Hs).
  - cbn [length Nat.eqb].
    destruct (readCsvFile_loop 0 (l :: ls)) as [entries warns].
    destruct (Nat.eqb (length entries) 0); simpl; discriminate.
Qed.

Lemma trimStart_whitespace (ws : jsstring) :
  forallb isWhiteSpace ws = true -> trimStart ws = [].
Proof.
  induction ws as [|c ws IH]; simpl; [reflexivity|].
  rewrite andb_true_iff. intros [Hc Hws]. rewrite Hc. auto.
Qed.

(** A file of white space alone has no valid entry. *)
Lemma parseCsv_whitespace (ws : jsstring) :
  forallb isWhiteSpace ws = true ->
  parseCsv ws = inl (CsvReadError CsvNoValidEntries).
Proof.
  intros H. unfold parseCsv, readCsvContent, readCsvFile_try, trim.
  rewrite (trimStart_whitespace _ H). reflexivity.
Qed.

(** Every entry that the reader returns has a name and a path. *)
Lemma readCsvFile_loop_fields (lines : list jsstring) :
  forall i,
    Forall (fun entry => nome entry <> [] /\ caminho entry <> [])
           (fst (readCsvFile_loop i lines)).
Proof.
  induction lines as [|raw rest IH]; intros i; [constructor|].
  cbn [readCsvFile_loop]. specialize (IH (S i)).
  destruct (readCsvFile_loop (S i) rest) as [entries warns]. cbn [fst] in IH.
  destruct (isEmpty (trim raw)); [exact IH|].
  destruct (Nat.eqb i 0 && includes (toLowerCase (trim raw)) (lit "nome")
            && includes (toLowerCase (trim raw)) (lit "caminho"));
    [exact IH|].
  destruct (Nat.ltb (length (parseCsvLine (trim raw))) 2); [exact IH|].
  destruct (trim (nth 0 (parseCsvLine (trim raw)) [])) as [|c n] eqn:En;
    [exact IH|].
  destruct (trim (nth 1 (parseCsvLine (trim raw)) [])) as [|c' p] eqn:Ep;
    [exact IH|].
  cbn [isEmpty orb fst]. constructor; [|exact IH].
  cbn [nome caminho]. split; discriminate.
Qed.

(** C3. [readCsvFile] never fails with 'Arquivo CSV está vazio': [split]
    returns at least one line, so the test [lines.length === 0] is never
    true, and an empty file as well as one of blank lines fails with
    'Nenhuma entrada válida encontrada no arquivo CSV', the outcome of a
    file whose lines were all skipped. *)
Theorem readCsvFile_empty_file_reported_as_no_valid_entries :
  (forall content, parseCsv content <> inl (CsvReadError CsvEmpty))
  /\ parseCsv [] = inl (CsvReadError CsvNoValidEntries)
  /\ parseCsv (lit "  " ++ [LF] ++ lit " " ++ [LF])
     = inl (CsvReadError CsvNoValidEntries)
  /\ parseCsv (lit "a")
     = inl (CsvReadError CsvNoValidEntries).
Proof.
  split; [|repeat split; reflexivity].
  intros content. unfold parseCsv, readCsvContent.
  pose proof (readCsvFile_try_not_CsvEmpty content) as H.
  destruct (readCsvFile_try content) as [[e | entries] warns]; simpl in *.
  - intros Heq. apply H. congruence.
  - discriminate.
Qed.

(** ** Array.prototype.sort with a comparator that compares keys *)

Section SortByKey.
Variable A : Type.
Variable compareFn : A -> A -> Z.
Variable key : A -> Z.
Variable P : A -> Prop.
Hypothesis compare_key :
  forall x y, P x -> P y -> compareFn x y = (key x - key y)%Z.

Let keyLe (x y : A) : Prop := (key x <= key y)%Z.
Let keyLt (x y : A) : Prop := (key x < key y)%Z.

Lemma sort_insert_perm (x : A) (l : list A) :
  Permutation (x :: l) (sort_insert compareFn x l).
Proof.
  induction l as [|y l IH]; simpl; [apply Permutation_refl|].
  destruct (compareFn x y <=? 0)%Z; [apply Permutation_refl|].
  eapply perm_trans; [apply perm_swap|]. apply perm_skip. exact IH.
Qed.

Lemma Array_sort_perm (l : list A) : Permutation l (Array_sort compareFn l).
Proof.
  induction l as [|x l IH]; simpl; [constructor|].
  eapply perm_trans; [apply perm_skip; exact IH|]. apply sort_insert_perm.
Qed.

Lemma Array_sort_Forall (l : list A) :
  Forall P l -> Forall P (Array_sort compareFn l).
Proof.
  intros H. rewrite Forall_forall in *. intros x Hx. apply H.
  eapply Permutation_in; [apply Permutation_sym, Array_sort_perm | exact Hx].
Qed.

Lemma sort_insert_sorted (x : A) (l : list A) :
  P x -> Forall P l -> StronglySorted keyLe l ->
  StronglySorted keyLe (sort_insert compareFn x l).
Proof.
  intros Px. induction l as [|y l IH]; intros Pl Hs; simpl.
  - constructor; constructor.
  - inversion Pl as [|? ? Py Pl']; subst.
    inversion Hs as [|? ? Hs' Hy]; subst.
    rewrite (compare_key Px Py).
    destruct (key x - key y <=? 0)%Z eqn:Hc.
    + apply Z.leb_le in Hc. constructor; [exact Hs|].
      constructor; [unfold keyLe; lia|].
      eapply Forall_impl; [|exact Hy]. unfold keyLe. intros; lia.
    + apply Z.leb_gt in Hc. constructor; [apply IH; assumption|].
      rewrite Forall_forall. intros z Hz.
      apply (Permutation_in _ (Permutation_sym (sort_insert_perm x l))) in Hz.
      destruct Hz as [<- | Hz]; [unfold keyLe; lia|].
      rewrite Forall_forall in Hy. apply Hy. exact Hz.
Qed.

Lemma Array_sort_sorted (l : list A) :
  Forall P l -> StronglySorted keyLe (Array_sort compareFn l).
Proof.
  induction l as [|x l IH]; intros Pl; simpl; [constructor|].
  inversion Pl; subst.
  apply sort_insert_sorted; [assumption | apply Array_sort_Forall; assumption | auto].
Qed.

(** Stability: the elements of one key keep their order. *)
Lemma sort_insert_stable (n : Z) (x : A) (l : list A) :
  P x -> Forall P l ->
  filter (fun a => Z.eqb (key a) n) (sort_insert compareFn x l)
  = filter (fun a => Z.eqb (key a) n) (x :: l).
Proof.
  intros Px. induction l as [|y l IH]; intros Pl; [reflexivity|].
  inversion Pl as [|? ? Py Pl']; subst. cbn [sort_insert].
  rewrite (compare_key Px Py).
  destruct (key x - key y <=? 0)%Z eqn:Hc; [reflexivity|].
  apply Z.leb_gt in Hc.
  cbn [filter]. rewrite (IH Pl'). cbn [filter].
  destruct (Z.eqb (key y) n) eqn:Hy; destruct (Z.eqb (key x) n) eqn:Hx;
    try reflexivity.
  apply Z.eqb_eq in Hy, Hx. lia.
Qed.

Lemma Array_sort_stable (n : Z) (l : list A) :
  Forall P l ->
  filter (fun a => Z.eqb (key a) n) (Array_sort compareFn l)
  = filter (fun a => Z.eqb (key a) n) l.
Proof.
  induction l as [|x l IH]; intros Pl; [reflexivity|].
  inversion Pl; subst. cbn [Array_sort].
  rewrite sort_insert_stable by (try apply Array_sort_Forall; assumption).
  cbn [filter]. rewrite IH by assumption. reflexivity.
Qed.

Lemma sorted_strict (l : list A) :
  NoDup (map key l) -> StronglySorted keyLe l -> StronglySorted keyLt l.
Proof.
  induction l as [|x l IH]; intros Hn Hs; [constructor|].
  inversion Hn as [|? ? Hx Hn']; subst. inversion Hs as [|? ? Hs' Hall]; subst.
  constructor; [auto|].
  rewrite Forall_forall in *. intros y Hy.
  specialize (Hall y Hy). unfold keyLe, keyLt in *.
  assert (key x <> key y).
  { intros E. apply Hx. rewrite E. apply in_map. exact Hy. }
  lia.
Qed.

Lemma Array_sort_strict (l : list A) :
  Forall P l -> NoDup (map key l) ->
  StronglySorted keyLt (Array_sort compareFn l).
Proof.
  intros Pl Hn. apply sorted_strict; [|apply Array_sort_sorted; assumption].
  eapply Permutation_NoDup; [|exact Hn].
  apply Permutation_map, Array_sort_perm.
Qed.
End SortByKey.

(** ** The natural sort *)

Lemma compareFiles_numeric (localeCompare : jsstring -> jsstring -> Z)
    (a b : jsstring) :
  numericStem a -> numericStem b ->
  compareFiles localeCompare a b = (stemValue a - stemValue b)%Z.
Proof.
  intros [na [Ha _]] [nb [Hb _]]. unfold compareFiles, stemValue.
  rewrite Ha, Hb. reflexivity.
Qed.

(** C5, as the code has it. When every stem parses as an integer (that a
    Number holds exactly), [sortFilesNumerically] returns a permutation of
    the list in ascending order of the stems' values, in which the files of
    one value keep their listed order; the order is strictly ascending when
    the values are pairwise distinct. *)
Theorem sortFilesNumerically_ascending
    (localeCompare : jsstring -> jsstring -> Z) (files : list jsstring) :
  Forall numericStem files ->
  let sorted := sortFilesNumerically localeCompare files in
  Permutation files sorted
  /\ StronglySorted (fun a b => (stemValue a <= stemValue b)%Z) sorted
  /\ (forall n, withStemValue n sorted = withStemValue n files)
  /\ (NoDup (map stemValue files) ->
      StronglySorted (fun a b => (stemValue a < stemValue b)%Z) sorted).
Proof.
  intros Hnum sorted. unfold sorted, sortFilesNumerically, withStemValue.
  pose proof (compareFiles_numeric localeCompare) as Hcmp.
  repeat split.
  - apply Array_sort_perm.
  - exact (@Array_sort_sorted _ _ stemValue numericStem Hcmp _ Hnum).
  - intros n.
    exact (@Array_sort_stable _ _ stemValue numericStem Hcmp n _ Hnum).
  - intros Hn.
    exact (@Array_sort_strict _ _ stemValue numericStem Hcmp _ Hnum Hn).
Qed.

(** The list of the specification's example, under any collation. *)
Lemma sortFilesNumerically_example
    (localeCompare : jsstring -> jsstring -> Z) :
  sortFilesNumerically localeCompare
    (map lit ["10.jpg"; "2.png"; "1.gif"]%string)
  = map lit ["1.gif"; "2.png"; "10.jpg"]%string.
Proof. reflexivity. Qed.

Lemma numericStem_intro (file : jsstring) (n : Z) :
  stemNumber file = Some n -> (Z.abs n <=? 2 ^ 53)%Z = true ->
  numericStem file.
Proof.
  intros H Hn. exists n. split; [exact H|]. apply Z.leb_le. exact Hn.
Qed.

(** On the list of the specification's example. *)
Lemma sortFilesNumerically_ascending_witness :
  let files := map lit ["10.jpg"; "2.png"; "1.gif"]%string in
  let sorted := sortFilesNumerically codeUnitCompare files in
  Permutation files sorted
  /\ StronglySorted (fun a b => (stemValue a <= stemValue b)%Z) sorted
  /\ (forall n, withStemValue n sorted = withStemValue n files)
  /\ (NoDup (map stemValue files) ->
      StronglySorted (fun a b => (stemValue a < stemValue b)%Z) sorted).
Proof.
  apply (@sortFilesNumerically_ascending codeUnitCompare
           (map lit ["10.jpg"; "2.png"; "1.gif"]%string)).
  repeat constructor;
    (eapply numericStem_intro; [vm_compute; reflexivity | reflexivity]).
Defined.

(** C5, as stated, fails on two files with the same number: [1.jpg] and
    [1.png] both have the stem value 1, the comparator returns 0 on them,
    and the sorted list is not strictly ascending. *)
Lemma sortFilesNumerically_not_strictly_ascending :
  let files := map lit ["1.jpg"; "1.png"]%string in
  Forall numericStem files
  /\ ~ StronglySorted (fun a b => (stemValue a < stemValue b)%Z)
         (sortFilesNumerically codeUnitCompare files).
Proof.
  split.
  - repeat constructor;
      (eapply numericStem_intro; [vm_compute; reflexivity | reflexivity]).
  - intros H. inversion H as [|? ? _ Hall]; subst.
    inversion Hall as [|? ? Hlt _]; subst.
    vm_compute in Hlt. discriminate Hlt.
Qed.

(** C6, as the code has it. When the stem of either file name is not a
    number, the comparator returns what [a.localeCompare(b)] returns on the
    two whole file names: the order is the collation order of the host's
    locale. *)
Theorem compareFiles_falls_back_to_localeCompare
    (localeCompare : jsstring -> jsstring -> Z) (a b : jsstring) :
  stemNumber a = None \/ stemNumber b = None ->
  compareFiles localeCompare a b = localeCompare a b.
Proof.
  unfold compareFiles. intros [H | H]; rewrite H;
    [reflexivity | destruct (stemNumber a); reflexivity].
Qed.

(** On two names without number, under the alphabetic collation. *)
Lemma compareFiles_falls_back_to_localeCompare_witness :
  compareFiles alphabeticCompare (lit "a.jpg") (lit "B.jpg")
  = alphabeticCompare (lit "a.jpg") (lit "B.jpg").
Proof.
  apply (@compareFiles_falls_back_to_localeCompare alphabeticCompare
           (lit "a.jpg") (lit "B.jpg")).
  left. vm_compute. reflexivity.
Defined.

(** C6, as stated, fails under a collation that orders letters
    alphabetically before it looks at their case: [a.jpg] and [B.jpg] have
    no numeric stem, the comparator puts [a.jpg] first, and the order of
    code units puts [B.jpg] first. *)
Lemma compareFiles_is_not_code_unit_order :
  let a := lit "a.jpg" in
  let b := lit "B.jpg" in
  stemNumber a = None /\ stemNumber b = None
  /\ sign (compareFiles alphabeticCompare a b) = Lt
  /\ sign (codeUnitCompare a b) = Gt
  /\ sortFilesNumerically alphabeticCompare [b; a] = [a; b].
Proof. vm_compute. repeat split; reflexivity. Qed.

(** ** Numbers as text *)

Lemma lit_inj (s t : string) : lit s = lit t -> s = t.
Proof.
  unfold lit. intros H.
  rewrite <- (string_of_list_ascii_of_string s),
          <- (string_of_list_ascii_of_string t).
  f_equal.
  revert H. generalize (list_ascii_of_string s) (list_ascii_of_string t).
  induction l as [|a l IH]; intros [|b m] H; simpl in H;
    try discriminate; [reflexivity|].
  inversion H as [[Hab Hlm]].
  f_equal; [|apply IH; exact Hlm].
  rewrite <- (ascii_N_embedding a), <- (ascii_N_embedding b).
  f_equal. exact Hab.
Qed.

Lemma String_of_nat_inj (n m : nat) :
  String_of_nat n = String_of_nat m -> n = m.
Proof.
  unfold String_of_nat. intros H. apply lit_inj in H.
  assert (Hu : Nat.to_uint n = Nat.to_uint m).
  { pose proof (NilEmpty.usu (Nat.to_uint n)) as Hn.
    pose proof (NilEmpty.usu (Nat.to_uint m)) as Hm.
    rewrite H in Hn. congruence. }
  rewrite <- (DecimalNat.Unsigned.of_to n), <- (DecimalNat.Unsigned.of_to m).
  f_equal. exact Hu.
Qed.


(** ** Text inclusion *)

Lemma startsWith_app (p s : jsstring) : startsWith (p ++ s) p = true.
Proof.
  induction p as [|c p IH]; simpl; [destruct s; reflexivity|].
  rewrite N.eqb_refl. exact IH.
Qed.




(** ** The navigation header *)



(** ** The navigation map of the merged book *)

Section MergedNavigation.
Import MergeEpubConverter.

Lemma mapi_from_app (A B : Type) (f : A -> nat -> B) (a b : list A) (i : nat) :
  mapi_from f i (a ++ b) = mapi_from f i a ++ mapi_from f (i + length a) b.
Proof.
  revert i; induction a as [|x a IH]; intros i; simpl.
  - rewrite Nat.add_0_r. reflexivity.
  - rewrite IH. do 3 f_equal. lia.
Qed.

Lemma mapi_from_length (A B : Type) (f : A -> nat -> B) (l : list A) (i : nat) :
  length (mapi_from f i l) = length l.
Proof. revert i; induction l; intros; simpl; auto. Qed.

(** The images of the book made from the records [records], the first of
    them at index [off]. *)
Let images (off : nat) (records : list MergedImageRecord) : list EpubImage :=
  createHtmlPages (mapi_from (fun info i => epubImage i info) off records).

(** The records of one folder from the file at index [j0] on. *)
Let records (f : CollectedFolder) (total j0 : nat) (files : list jsstring)
    : list MergedImageRecord :=
  mapi_from
    (fun file index =>
       {| mi_path := NodePath.join (caminho (cf_entry f)) file;
          mi_filename := file;
          folderName := nome (cf_entry f);
          folderIndex := cf_index f + 1;
          imageIndex := index + 1;
          totalInFolder := total |})
    j0 files.

Let nameIs (name : jsstring) (img : EpubImage) : bool :=
  str_eqb (folderName (originalInfo img)) name.

Lemma images_app (off : nat) (a b : list MergedImageRecord) :
  images off (a ++ b) = images off a ++ images (off + length a) b.
Proof.
  unfold images, createHtmlPages. rewrite mapi_from_app, map_app. reflexivity.
Qed.

Lemma images_length (off : nat) (l : list MergedImageRecord) :
  length (images off l) = length l.
Proof.
  unfold images, createHtmlPages. rewrite length_map, mapi_from_length.
  reflexivity.
Qed.

Lemma records_length f total j0 files :
  length (records f total j0 files) = length files.
Proof. apply mapi_from_length. Qed.

Lemma images_names (off : nat) (l : list MergedImageRecord) (name : jsstring) :
  Forall (fun r => folderName r = name) l ->
  Forall (fun img => folderName (originalInfo img) = name) (images off l).
Proof.
  revert off. induction l as [|r l IH]; intros off H; [constructor|].
  inversion H; subst. constructor; [reflexivity|]. apply IH. assumption.
Qed.

Lemma records_names f total j0 files :
  Forall (fun r => folderName r = cf_name f) (records f total j0 files).
Proof.
  revert j0. induction files as [|x files IH]; intros j0; constructor;
    [reflexivity | apply IH].
Qed.

Lemma collected_names (folders : list CollectedFolder) :
  Forall (fun r => In (folderName r) (map cf_name folders)) (collected folders).
Proof.
  induction folders as [|f folders IH]; [constructor|].
  unfold collected in *. cbn [flat_map map]. apply Forall_app. split.
  - eapply Forall_impl; [|apply (records_names f (length (cf_files f)) 0)].
    intros r <-. left. reflexivity.
  - eapply Forall_impl; [|exact IH]. intros r Hr. right. exact Hr.
Qed.

Lemma images_names_in (off : nat) (l : list MergedImageRecord)
    (names : list jsstring) :
  Forall (fun r => In (folderName r) names) l ->
  Forall (fun img => In (folderName (originalInfo img)) names) (images off l).
Proof.
  revert off. induction l as [|r l IH]; intros off H; [constructor|].
  inversion H; subst. constructor; [assumption|]. apply IH. assumption.
Qed.

Lemma filter_all (name : jsstring) (l : list EpubImage) :
  Forall (fun img => folderName (originalInfo img) = name) l ->
  filter (nameIs name) l = l.
Proof.
  induction 1 as [|img l Himg _ IH]; [reflexivity|].
  cbn [filter]. unfold nameIs at 1. rewrite Himg, str_eqb_refl, IH.
  reflexivity.
Qed.

Lemma filter_none (name : jsstring) (l : list EpubImage) :
  Forall (fun img => folderName (originalInfo img) <> name) l ->
  filter (nameIs name) l = [].
Proof.
  induction 1 as [|img l Himg _ IH]; [reflexivity|].
  cbn [filter]. unfold nameIs at 1.
  apply str_eqb_neq in Himg. rewrite Himg. exact IH.
Qed.

(** The images that follow in the folder of [currentFolder] add
    nothing. *)
Lemma createTocNcx_loop_skip (all l rest : list EpubImage)
    (currentFolder : jsstring) (folderNavPoint pageOrder : nat) :
  Forall (fun img => folderName (originalInfo img) = currentFolder) l ->
  createTocNcx_loop all (l ++ rest) currentFolder folderNavPoint pageOrder
  = createTocNcx_loop all rest currentFolder folderNavPoint pageOrder.
Proof.
  induction 1 as [|img l Himg _ IH]; [reflexivity|].
  cbn [app createTocNcx_loop]. rewrite Himg, str_eqb_refl. exact IH.
Qed.

Lemma images_cons (off : nat) (r : MergedImageRecord)
    (l : list MergedImageRecord) :
  exists img,
    images off (r :: l) = img :: images (S off) l
    /\ pageNumber img = off + 1
    /\ originalInfo img = r
    /\ htmlFile img
       = Some (lit "page_" ++ padStart0 4 (String_of_nat (off + 1))
               ++ lit ".xhtml").
Proof. eexists. repeat split. Qed.

Lemma pagePoints_folder f total (files : list jsstring) :
  forall j0 off pageOrder,
    pagePoints (images off (records f total j0 files)) pageOrder
    = (specPages (length files) (off + 1) (pageOrder + 1) (j0 + 1),
       pageOrder + length files).
Proof.
  induction files as [|x files IH]; intros j0 off pageOrder.
  - cbn. rewrite Nat.add_0_r. reflexivity.
  - change (records f total j0 (x :: files))
      with ({| mi_path := NodePath.join (caminho (cf_entry f)) x;
               mi_filename := x;
               folderName := nome (cf_entry f);
               folderIndex := cf_index f + 1;
               imageIndex := j0 + 1;
               totalInFolder := total |} :: records f total (S j0) files).
    destruct (images_cons off
                {| mi_path := NodePath.join (caminho (cf_entry f)) x;
                   mi_filename := x;
                   folderName := nome (cf_entry f);
                   folderIndex := cf_index f + 1;
                   imageIndex := j0 + 1;
                   totalInFolder := total |}
                (records f total (S j0) files))
      as [img [-> [Hpage [Hinfo Hhtml]]]].
    cbn [pagePoints]. rewrite IH. cbn [length specPages].
    f_equal; [|lia].
    replace (S off + 1) with (S (off + 1)) by lia.
    replace (pageOrder + 1 + 1) with (S (pageOrder + 1)) by lia.
    replace (S j0 + 1) with (S (j0 + 1)) by lia.
    f_equal.
    unfold pagePoint, pageSrc. rewrite Hpage, Hinfo, Hhtml. reflexivity.
Qed.

(** The first image of a folder opens its navigation point. *)
Lemma createTocNcx_loop_enter (all rest : list EpubImage) (img : EpubImage)
    (currentFolder : jsstring) (folderNavPoint pageOrder : nat) :
  str_eqb (folderName (originalInfo img)) currentFolder = false ->
  createTocNcx_loop all (img :: rest) currentFolder folderNavPoint pageOrder
  = let name := folderName (originalInfo img) in
    let r := pagePoints (filter (nameIs name) all) pageOrder in
    {| Ncx.nf_point :=
         {| Ncx.np_id := lit "folder-" ++ String_of_nat folderNavPoint;
            Ncx.np_playOrder := pageOrder;
            Ncx.np_label := name;
            Ncx.np_src := lit "text/" ++ showProperty (htmlFile img) |};
       Ncx.nf_pages := fst r |}
    :: createTocNcx_loop all rest name (folderNavPoint + 1) (snd r + 1).
Proof.
  intros H. cbn [createTocNcx_loop]. rewrite H. cbn [negb].
  unfold nameIs.
  destruct (pagePoints _ pageOrder) as [pages pageOrder']. reflexivity.
Qed.

Lemma collected_cons (f : CollectedFolder) (rest : list CollectedFolder) :
  collected (f :: rest)
  = records f (length (cf_files f)) 0 (cf_files f) ++ collected rest.
Proof. reflexivity. Qed.

Lemma createTocNcx_loop_spec (folders : list CollectedFolder) :
  forall off processed currentFolder folderNavPoint pageOrder,
    NoDup (map cf_name folders) ->
    ~ In currentFolder (map cf_name folders) ->
    Forall (fun img =>
              ~ In (folderName (originalInfo img)) (map cf_name folders))
           processed ->
    Forall (fun f => cf_files f <> []) folders ->
    createTocNcx_loop (processed ++ images off (collected folders))
      (images off (collected folders))
      currentFolder folderNavPoint pageOrder
    = specNavMap folders folderNavPoint (off + 1) pageOrder.
Proof.
  induction folders as [|f rest IH];
    intros off processed currentFolder folderNavPoint pageOrder
           Hnodup Hcur Hproc Hfiles; [reflexivity|].
  cbn [map] in Hnodup, Hcur, Hproc.
  inversion Hnodup as [|? ? Hf Hnodup']; subst.
  inversion Hfiles as [|? ? Hne Hfiles']; subst.
  rewrite collected_cons, images_app, records_length.
  set (n := length (cf_files f)).
  set (G := images off (records f n 0 (cf_files f))).
  set (R := images (off + n) (collected rest)).
  assert (HG : Forall (fun img => folderName (originalInfo img) = cf_name f) G)
    by (apply images_names, records_names).
  assert (HR : Forall (fun img => folderName (originalInfo img) <> cf_name f) R).
  { eapply Forall_impl; [|apply images_names_in, collected_names].
    cbn beta. intros img Hin E. apply Hf. rewrite <- E. exact Hin. }
  assert (HP : Forall (fun img => folderName (originalInfo img) <> cf_name f)
                      processed).
  { eapply Forall_impl; [|exact Hproc]. cbn beta. intros img H E.
    apply H. left. symmetry. exact E. }
  assert (Hfilter : filter (nameIs (cf_name f)) (processed ++ G ++ R) = G).
  { rewrite !filter_app, (filter_none HP), (filter_none HR), (filter_all HG).
    rewrite app_nil_r. reflexivity. }
  assert (Hpages : pagePoints G pageOrder
                   = (specPages n (off + 1) (pageOrder + 1) 1, pageOrder + n))
    by (apply (pagePoints_folder f n (cf_files f) 0 off pageOrder)).
  destruct (cf_files f) as [|x files] eqn:Efiles; [congruence|].
  destruct (images_cons off
              {| mi_path := NodePath.join (caminho (cf_entry f)) x;
                 mi_filename := x;
                 folderName := nome (cf_entry f);
                 folderIndex := cf_index f + 1;
                 imageIndex := 0 + 1;
                 totalInFolder := n |}
              (records f n 1 files))
    as [img [HGcons [_ [Hinfo Hhtml]]]].
  change (images off (records f n 0 (x :: files)) = img :: images (S off) (records f n 1 files))
    in HGcons.
  fold G in HGcons.
  assert (Hname : folderName (originalInfo img) = cf_name f)
    by (rewrite Hinfo; reflexivity).
  rewrite HGcons in HG |- * at 2.
  cbn [app].
  rewrite createTocNcx_loop_enter.
  2:{ rewrite Hname. apply str_eqb_neq. intros E. apply Hcur. left.
      exact E. }
  cbv zeta. rewrite Hname.
  rewrite Hfilter, Hpages. cbn [fst snd].
  inversion HG as [|? ? _ HG']; subst.
  rewrite (createTocNcx_loop_skip _ _ _ _ HG').
  rewrite app_assoc. unfold R.
  rewrite (IH (off + n) (processed ++ G) (cf_name f)
              (folderNavPoint + 1) (pageOrder + n + 1)); try assumption.
  - cbn [specNavMap]. fold n. rewrite Efiles.
    replace (off + n + 1) with (off + 1 + n) by lia.
    rewrite Hhtml, !Nat.add_1_r. reflexivity.
  - apply Forall_app. split.
    + eapply Forall_impl; [|exact Hproc]. cbn beta. intros i H Hin.
      apply H. right. exact Hin.
    + rewrite HGcons. eapply Forall_impl; [|exact HG]. cbn beta.
      intros i -> . exact Hf.
Qed.
End MergedNavigation.

Lemma playOrders_specPages (n pageNo playOrder indexInFolder : nat) :
  map Ncx.np_playOrder (specPages n pageNo playOrder indexInFolder)
  = seq playOrder n.
Proof.
  revert pageNo playOrder indexInFolder.
  induction n as [|n IH]; intros; cbn; [reflexivity|].
  rewrite IH. reflexivity.
Qed.

Lemma specPages_length (n pageNo playOrder indexInFolder : nat) :
  length (specPages n pageNo playOrder indexInFolder) = n.
Proof.
  revert pageNo playOrder indexInFolder.
  induction n as [|n IH]; intros; cbn; [reflexivity|].
  rewrite IH. reflexivity.
Qed.

Lemma collected_length (folders : list CollectedFolder) :
  length (collected folders)
  = list_sum (map (fun f => length (cf_files f)) folders).
Proof.
  induction folders as [|f rest IH]; [reflexivity|].
  unfold collected in *. cbn [flat_map map].
  rewrite length_app, IH. unfold list_sum. cbn [fold_right].
  f_equal. apply mapi_from_length.
Qed.

Lemma playOrders_specNavMap (folders : list CollectedFolder) :
  forall folderNo pageNo playOrder,
    Ncx.playOrders (specNavMap folders folderNo pageNo playOrder)
    = seq playOrder (length folders + length (collected folders)).
Proof.
  induction folders as [|f rest IH]; intros; [reflexivity|].
  rewrite collected_length in *. cbn [specNavMap Ncx.playOrders flat_map].
  fold (Ncx.playOrders
          (specNavMap rest (S folderNo) (pageNo + length (cf_files f))
             (playOrder + length (cf_files f) + 1))).
  rewrite IH. cbn [Ncx.nf_point Ncx.nf_pages Ncx.np_playOrder map list_sum length].
  rewrite playOrders_specPages.
  unfold list_sum. cbn [fold_right]. fold (list_sum (map (fun f0 => length (cf_files f0)) rest)).
  set (m := length rest + list_sum (map (fun f0 => length (cf_files f0)) rest)).
  set (k := length (cf_files f)).
  replace (S (length rest) + (k + list_sum (map (fun f0 => length (cf_files f0)) rest)))
    with (S k + m) by (unfold m; lia).
  rewrite seq_app. cbn [seq app]. do 2 f_equal. f_equal. lia.
Qed.

Lemma labels_specNavMap (folders : list CollectedFolder) :
  forall folderNo pageNo playOrder,
    map (fun p => Ncx.np_label (Ncx.nf_point p))
        (specNavMap folders folderNo pageNo playOrder)
    = map cf_name folders.
Proof.
  induction folders as [|f rest IH]; intros; [reflexivity|].
  cbn [specNavMap map]. rewrite IH. reflexivity.
Qed.

Lemma sizes_specNavMap (folders : list CollectedFolder) :
  forall folderNo pageNo playOrder,
    map (fun p => length (Ncx.nf_pages p))
        (specNavMap folders folderNo pageNo playOrder)
    = map (fun f => length (cf_files f)) folders.
Proof.
  induction folders as [|f rest IH]; intros; [reflexivity|].
  cbn [specNavMap map]. rewrite IH. cbn [Ncx.nf_pages].
  rewrite specPages_length. reflexivity.
Qed.

(** The navigation map of the folders collected, when no two of them have
    the same name. *)
Lemma navMapOf_collected (folders : list CollectedFolder) :
  NoDup (map cf_name folders) ->
  Forall (fun f => cf_name f <> [] /\ cf_files f <> []) folders ->
  MergeEpubConverter.navMapOf (collected folders) = specNavMap folders 1 1 1.
Proof.
  intros Hnodup Hall.
  unfold MergeEpubConverter.navMapOf, MergeEpubConverter.tocDocument.
  cbn [Ncx.navMap].
  apply (@createTocNcx_loop_spec folders 0 [] [] 1 1 Hnodup).
  - intros Hin. apply in_map_iff in Hin. destruct Hin as [f [Hf Hin]].
    rewrite Forall_forall in Hall. destruct (Hall f Hin) as [Hname _].
    exact (Hname Hf).
  - constructor.
  - eapply Forall_impl; [|exact Hall]. intros f [_ H]. exact H.
Qed.

(** ** What [collectAllImages] returns *)

Lemma subseq_Forall (A : Type) (P : A -> Prop) (l1 l2 : list A) :
  subseq l1 l2 -> Forall P l2 -> Forall P l1.
Proof.
  induction 1 as [|x l1 l2 _ IH|x l1 l2 _ IH]; intros H;
    [constructor | inversion H; auto | inversion H; constructor; auto].
Qed.

Lemma subseq_In (A : Type) (l1 l2 : list A) (x : A) :
  subseq l1 l2 -> In x l1 -> In x l2.
Proof.
  induction 1 as [|y l1 l2 _ IH|y l1 l2 _ IH]; intros H;
    [exact H | right; auto | destruct H; [left | right]; auto].
Qed.

Lemma subseq_map (A B : Type) (f : A -> B) (l1 l2 : list A) :
  subseq l1 l2 -> subseq (map f l1) (map f l2).
Proof. induction 1; cbn; constructor; assumption. Qed.

Lemma subseq_NoDup (A : Type) (l1 l2 : list A) :
  subseq l1 l2 -> NoDup l2 -> NoDup l1.
Proof.
  induction 1 as [|x l1 l2 Hs IH|x l1 l2 Hs IH]; intros H;
    [constructor | inversion H; auto |].
  inversion H; subst. constructor; [|auto].
  intros Hin. eauto using subseq_In.
Qed.

Lemma subseq_nil_l (A : Type) (l : list A) : subseq [] l.
Proof. induction l; constructor; assumption. Qed.

Lemma sortFilesNumerically_not_nil
    (localeCompare : jsstring -> jsstring -> Z) (files : list jsstring) :
  files <> [] -> sortFilesNumerically localeCompare files <> [].
Proof.
  intros Hne Hs.
  pose proof (Permutation_length
                (Array_sort_perm (compareFiles localeCompare) files)) as Hl.
  unfold sortFilesNumerically in Hs. rewrite Hs in Hl.
  destruct files; [congruence | discriminate].
Qed.

Lemma validateFolder_world (folderPath : jsstring) (w : world) :
  fst (validateFolder folderPath w) = w.
Proof.
  unfold validateFolder, try_catch, bind, stat.
  destruct (fs w (resolve w folderPath)) as [[c | es]|]; try reflexivity.
  destruct (notFound w folderPath); reflexivity.
Qed.

Lemma checkFiles_world (imagePaths : list jsstring) (w : world) :
  fst (checkFiles imagePaths w) = w.
Proof.
  induction imagePaths as [|p rest IH]; [reflexivity|].
  cbn [checkFiles]. unfold bind, try_catch, access.
  destruct (fs w (resolve w p)); [exact IH | reflexivity].
Qed.

Lemma isFolder_sameFiles (w w' : world) (p : jsstring) (es : list jsstring) :
  sameFiles w w' -> isFolder w' p es -> isFolder w p es.
Proof.
  unfold sameFiles, isFolder, resolve. intros [-> ->] H. exact H.
Qed.

Section CollectFacts.
Variable localeCompare : jsstring -> jsstring -> Z.

(** One entry leaves [allImages] as it is or adds the records of the
    images listed in its folder, sorted, of which there is at least one;
    the files of the world stay as they are. *)
Lemma collectEntry_step (i : nat) (entry : CsvEntry)
    (allImages result : list MergedImageRecord) (w w' : world) :
  try_catch (collectEntry localeCompare i entry allImages)
    (fun error => say (ErrorEntry (nome entry) error) ;; ret allImages) w
  = (w', inr result) ->
  sameFiles w w'
  /\ (result = allImages
      \/ exists files,
           files <> []
           /\ sortedListing localeCompare w
                {| cf_index := i; cf_entry := entry; cf_files := files |}
           /\ result = allImages ++ imagesInfo i entry files).
Proof.
  unfold try_catch, collectEntry. unfold bind at 1.
  pose proof (validateFolder_world (caminho entry) w) as H1.
  destruct (validateFolder (caminho entry) w) as [w1 [e | u]];
    cbn [fst] in H1; subst w1.
  { unfold bind, say, ret. intros H. inversion H; subst.
    split; [split; reflexivity | left; reflexivity]. }
  unfold bind at 1. unfold readImageFiles_lenient, try_catch, bind, readdir.
  destruct (fs w (resolve w (caminho entry))) as [[c | es]|] eqn:Hfs;
    try (unfold say, ret; intros H; inversion H; subst;
         split; [split; reflexivity | left; reflexivity]).
  unfold ret at 1.
  destruct (Nat.eqb (length (filter isImageFile es)) 0) eqn:Hlen.
  { unfold say, ret. intros H. inversion H; subst.
    split; [split; reflexivity | left; reflexivity]. }
  set (files := sortFilesNumerically localeCompare (filter isImageFile es)).
  pose proof (checkFiles_world (map mi_path (imagesInfo i entry files)) w) as H3.
  destruct (checkFiles (map mi_path (imagesInfo i entry files)) w)
    as [w3 [e | u']]; cbn [fst] in H3; subst w3.
  { unfold say, ret. intros H. inversion H; subst.
    split; [split; reflexivity | left; reflexivity]. }
  unfold ret. intros H. inversion H; subst.
  split; [split; reflexivity|]. right. exists files. repeat split.
  - apply sortFilesNumerically_not_nil. intros E. rewrite E in Hlen.
    discriminate.
  - exists es. split; [exact Hfs | reflexivity].
Qed.

Lemma collectAllImages_loop_collected (entries : list CsvEntry) :
  forall i allImages w w' result,
    collectAllImages_loop localeCompare i entries allImages w
    = (w', inr result) ->
    exists folders,
      result = allImages ++ collected folders
      /\ subseq (map cf_entry folders) entries
      /\ Forall (fun f => cf_files f <> []) folders
      /\ Forall (sortedListing localeCompare w) folders.
Proof.
  induction entries as [|entry rest IH]; intros i allImages w w' result.
  - unfold collectAllImages_loop, ret. intros H. inversion H.
    exists []. rewrite app_nil_r. repeat split; constructor.
  - cbn [collectAllImages_loop]. unfold bind at 1.
    destruct (try_catch _ _ w) as [w1 [e | allImages']] eqn:Htry;
      [discriminate|].
    intros Hrest.
    destruct (IH _ _ _ _ _ Hrest) as [folders [-> [Hsub [Hall Hlist]]]].
    destruct (collectEntry_step _ _ _ _ Htry) as [Hsame Hstep].
    assert (Hlist' : Forall (sortedListing localeCompare w) folders).
    { eapply Forall_impl; [|exact Hlist]. intros f [es [Hdir Hfiles]].
      exists es. split; [|exact Hfiles].
      eapply isFolder_sameFiles; [exact Hsame | exact Hdir]. }
    destruct Hstep as [-> | [files [Hne [Hsorted ->]]]].
    + exists folders. repeat split; [apply subseq_skip| |]; assumption.
    + exists ({| cf_index := i; cf_entry := entry; cf_files := files |}
              :: folders).
      split; [|split; [|split]].
      * rewrite <- app_assoc. reflexivity.
      * cbn [map cf_entry]. apply subseq_keep. exact Hsub.
      * constructor; [exact Hne | exact Hall].
      * constructor; [exact Hsorted | exact Hlist'].
Qed.

Lemma collectAllImages_collected (entries : list CsvEntry)
    (w w' : world) (allImages : list MergedImageRecord) :
  collectAllImages localeCompare entries w = (w', inr allImages) ->
  exists folders,
    allImages = collected folders
    /\ subseq (map cf_entry folders) entries
    /\ Forall (fun f => cf_files f <> []) folders
    /\ Forall (sortedListing localeCompare w) folders.
Proof.
  unfold collectAllImages, bind.
  destruct (collectAllImages_loop localeCompare 0 entries [] w)
    as [w1 [e | all]] eqn:Hloop; [discriminate|].
  destruct (Nat.eqb (length all) 0); [discriminate|].
  unfold ret. intros H. inversion H; subst.
  apply collectAllImages_loop_collected in Hloop. exact Hloop.
Qed.
End CollectFacts.

(** ** The navigation map of a merged book, whatever the names *)

Lemma pagePoints_ids (folderImages : list MergeEpubConverter.EpubImage) :
  forall pageOrder,
    map Ncx.np_id (fst (MergeEpubConverter.pagePoints folderImages pageOrder))
    = map (fun img => pageId (MergeEpubConverter.pageNumber img)) folderImages.
Proof.
  induction folderImages as [|img rest IH]; intros pageOrder; [reflexivity|].
  cbn [MergeEpubConverter.pagePoints].
  specialize (IH (pageOrder + 1)).
  destruct (MergeEpubConverter.pagePoints rest (pageOrder + 1)) as [points po].
  cbn [fst map] in *. rewrite IH. reflexivity.
Qed.

Lemma createTocNcx_loop_labels (all rest : list MergeEpubConverter.EpubImage) :
  forall currentFolder folderNavPoint pageOrder,
    map (fun p => Ncx.np_label (Ncx.nf_point p))
        (MergeEpubConverter.createTocNcx_loop all rest currentFolder
           folderNavPoint pageOrder)
    = nameChanges currentFolder
        (map (fun img => folderName (MergeEpubConverter.originalInfo img))
             rest).
Proof.
  induction rest as [|image rest IH]; intros cur fnp po; [reflexivity|].
  cbn [MergeEpubConverter.createTocNcx_loop map nameChanges].
  destruct (str_eqb (folderName (MergeEpubConverter.originalInfo image)) cur);
    cbn [negb]; [apply IH|].
  destruct (MergeEpubConverter.pagePoints _ po) as [pages po'].
  cbn [map Ncx.nf_point Ncx.np_label]. rewrite IH. reflexivity.
Qed.

Lemma createTocNcx_loop_pages (all rest : list MergeEpubConverter.EpubImage) :
  forall currentFolder folderNavPoint pageOrder,
    Forall (fun p =>
              map Ncx.np_id (Ncx.nf_pages p)
              = map (fun img => pageId (MergeEpubConverter.pageNumber img))
                    (filter (fun img =>
                               str_eqb
                                 (folderName
                                    (MergeEpubConverter.originalInfo img))
                                 (Ncx.np_label (Ncx.nf_point p)))
                            all))
           (MergeEpubConverter.createTocNcx_loop all rest currentFolder
              folderNavPoint pageOrder).
Proof.
  induction rest as [|image rest IH]; intros cur fnp po; [constructor|].
  cbn [MergeEpubConverter.createTocNcx_loop].
  destruct (str_eqb (folderName (MergeEpubConverter.originalInfo image)) cur);
    cbn [negb]; [apply IH|].
  pose proof (pagePoints_ids
                (filter (fun img =>
                           str_eqb
                             (folderName (MergeEpubConverter.originalInfo img))
                             (folderName
                                (MergeEpubConverter.originalInfo image)))
                        all) po) as Hids.
  destruct (MergeEpubConverter.pagePoints _ po) as [pages po'].
  constructor; [exact Hids | apply IH].
Qed.

Lemma pagesNamed_imageList (name : jsstring)
    (allImages : list MergedImageRecord) :
  forall i,
    map MergeEpubConverter.pageNumber
        (filter (fun img =>
                   str_eqb (folderName (MergeEpubConverter.originalInfo img))
                           name)
                (MergeEpubConverter.createHtmlPages
                   (mapi_from (fun imageInfo i =>
                                 MergeEpubConverter.epubImage i imageInfo)
                              i allImages)))
    = pagesNamed name (i + 1) allImages.
Proof.
  induction allImages as [|image rest IH]; intros i; [reflexivity|].
  cbn [mapi_from MergeEpubConverter.createHtmlPages map filter pagesNamed
       MergeEpubConverter.epubImage MergeEpubConverter.originalInfo
       MergeEpubConverter.pageNumber].
  specialize (IH (S i)).
  unfold MergeEpubConverter.createHtmlPages in IH.
  replace (S i + 1) with (S (i + 1)) in IH by lia.
  destruct (str_eqb (folderName image) name); cbn [map];
    rewrite IH; reflexivity.
Qed.

Lemma pagesNamed_app (name : jsstring) (l1 l2 : list MergedImageRecord) :
  forall first,
    pagesNamed name first (l1 ++ l2)
    = pagesNamed name first l1 ++ pagesNamed name (first + length l1) l2.
Proof.
  induction l1 as [|image l1 IH]; intros first; cbn [app pagesNamed length].
  - now rewrite Nat.add_0_r.
  - rewrite IH. replace (S first + length l1) with (first + S (length l1))
      by lia.
    destruct (str_eqb (folderName image) name); reflexivity.
Qed.

Lemma pagesNamed_mapi (name n : jsstring)
    (g : jsstring -> nat -> MergedImageRecord) :
  (forall file k, folderName (g file k) = n) ->
  forall files k first,
    length (pagesNamed name first (mapi_from g k files))
    = if str_eqb n name then length files else 0.
Proof.
  intros Hg. induction files as [|file rest IH]; intros k first;
    cbn [mapi_from pagesNamed length].
  - destruct (str_eqb n name); reflexivity.
  - rewrite Hg. specialize (IH (S k) (S first)).
    destruct (str_eqb n name); cbn [length]; rewrite IH; reflexivity.
Qed.

Lemma pagesNamed_folder (name : jsstring) (i : nat) (entry : CsvEntry)
    (files : list jsstring) (first : nat) :
  length (pagesNamed name first (imagesInfo i entry files))
  = if str_eqb (nome entry) name then length files else 0.
Proof.
  unfold imagesInfo. apply pagesNamed_mapi. reflexivity.
Qed.

Lemma pagesNamed_collected (name : jsstring)
    (folders : list CollectedFolder) :
  forall first,
    length (pagesNamed name first (collected folders))
    = list_sum (map (fun f => length (cf_files f))
                    (filter (fun f => str_eqb (cf_name f) name) folders)).
Proof.
  induction folders as [|f folders IH]; intros first; [reflexivity|].
  unfold collected in *. cbn [flat_map filter].
  rewrite pagesNamed_app, length_app, pagesNamed_folder, IH.
  unfold cf_name.
  destruct (str_eqb (nome (cf_entry f)) name); cbn [map list_sum];
    reflexivity.
Qed.

Lemma nameChanges_mapi (n : jsstring)
    (g : jsstring -> nat -> MergedImageRecord) (rest : list jsstring) :
  (forall file k, folderName (g file k) = n) ->
  forall files k,
    nameChanges n (map folderName (mapi_from g k files) ++ rest)
    = nameChanges n rest.
Proof.
  intros Hg. induction files as [|file files IH]; intros k; [reflexivity|].
  cbn [mapi_from map app nameChanges]. rewrite Hg, str_eqb_refl. apply IH.
Qed.

Lemma nameChanges_collected (folders : list CollectedFolder) :
  Forall (fun f => cf_files f <> []) folders ->
  forall currentFolder,
    nameChanges currentFolder (map folderName (collected folders))
    = nameChanges currentFolder (map cf_name folders).
Proof.
  induction 1 as [|f folders Hf _ IH]; intros cur; [reflexivity|].
  unfold collected in *. cbn [flat_map map]. rewrite map_app.
  unfold imagesInfo at 1.
  destruct (cf_files f) as [|file files] eqn:E; [congruence|].
  cbn [mapi_from map app nameChanges folderName]. unfold cf_name at 1 3.
  destruct (str_eqb (nome (cf_entry f)) cur) eqn:Hcur.
  - apply str_eqb_eq in Hcur. subst cur.
    rewrite nameChanges_mapi by reflexivity. apply IH.
  - f_equal. rewrite nameChanges_mapi by reflexivity. apply IH.
Qed.

Lemma imageList_names (allImages : list MergedImageRecord) :
  forall i,
    map (fun img => folderName (MergeEpubConverter.originalInfo img))
        (MergeEpubConverter.createHtmlPages
           (mapi_from (fun imageInfo i =>
                         MergeEpubConverter.epubImage i imageInfo)
                      i allImages))
    = map folderName allImages.
Proof.
  induction allImages as [|image rest IH]; intros i; [reflexivity|].
  cbn [mapi_from MergeEpubConverter.createHtmlPages map
       MergeEpubConverter.epubImage MergeEpubConverter.originalInfo].
  f_equal. apply IH.
Qed.

(** C2, what the code does. [createTocNcx] tells the folders apart by
    their names, not by their place in the CSV: a folder point is opened
    where the folder name of an image is not that of the image before it,
    and the point gets a page point for every image of the book whose
    folder has that name. So, for the folders that gave the images that
    [collectAllImages] returns: folders of the same name that follow each
    other share one point; every point holds the pages of all the folders
    of its name, as many as these folders have images together, with the
    page numbers they have in the book; and the map is the one of the
    specification, one point per folder with the pages of that folder,
    when no two of the folders have the same name. *)
Theorem merged_navMap_groups_by_name
    (localeCompare : jsstring -> jsstring -> Z) (entries : list CsvEntry)
    (w w' : world) (allImages : list MergedImageRecord) :
  collectAllImages localeCompare entries w = (w', inr allImages) ->
  exists folders,
    subseq (map cf_entry folders) entries
    /\ Forall (fun f => cf_files f <> []) folders
    /\ Forall (sortedListing localeCompare w) folders
    /\ allImages = collected folders
    /\ let navMap := MergeEpubConverter.navMapOf allImages in
       let label := fun p => Ncx.np_label (Ncx.nf_point p) in
       map label navMap = nameChanges [] (map cf_name folders)
       /\ Forall (fun p =>
                    map Ncx.np_id (Ncx.nf_pages p)
                    = map pageId (pagesNamed (label p) 1 allImages)) navMap
       /\ Forall (fun p =>
                    length (Ncx.nf_pages p)
                    = list_sum
                        (map (fun f => length (cf_files f))
                             (filter (fun f => str_eqb (cf_name f) (label p))
                                     folders))) navMap
       /\ (NoDup (map cf_name folders) ->
           ~ In [] (map cf_name folders) ->
           navMap = specNavMap folders 1 1 1).
Proof.
  intros Hrun.
  destruct (@collectAllImages_collected localeCompare entries w w' allImages
              Hrun)
    as [folders [-> [Hsub [Hfiles Hsorted]]]].
  exists folders.
  split; [assumption|]. split; [assumption|]. split; [assumption|].
  split; [reflexivity|]. cbv zeta.
  assert (Hids :
    Forall (fun p =>
              map Ncx.np_id (Ncx.nf_pages p)
              = map pageId
                    (pagesNamed (Ncx.np_label (Ncx.nf_point p)) 1
                       (collected folders)))
           (MergeEpubConverter.navMapOf (collected folders))).
  { unfold MergeEpubConverter.navMapOf, MergeEpubConverter.tocDocument.
    cbn [Ncx.navMap].
    eapply Forall_impl;
      [|apply createTocNcx_loop_pages].
    intros p Hp. rewrite Hp.
    rewrite <- (map_map MergeEpubConverter.pageNumber pageId).
    unfold MergeEpubConverter.imageListOf.
    rewrite (pagesNamed_imageList _ (collected folders) 0). reflexivity. }
  split; [|split; [exact Hids | split]].
  - unfold MergeEpubConverter.navMapOf, MergeEpubConverter.tocDocument.
    cbn [Ncx.navMap]. rewrite createTocNcx_loop_labels.
    unfold MergeEpubConverter.imageListOf. rewrite imageList_names.
    apply nameChanges_collected. exact Hfiles.
  - eapply Forall_impl; [|exact Hids]. intros p Hp.
    apply (f_equal (@length _)) in Hp. rewrite !length_map in Hp.
    rewrite Hp. apply pagesNamed_collected.
  - intros Hnodup Hnames. apply navMapOf_collected; [exact Hnodup|].
    rewrite Forall_forall in *. intros f Hf. split; [|auto].
    intros E. apply Hnames. rewrite <- E. apply in_map. exact Hf.
Qed.

(** On the CSV of [sameNameWorld], which lists the folders A, B and a
    second folder named A. *)
Lemma merged_navMap_groups_by_name_witness :
  let allImages :=
    returned (collectAllImages codeUnitCompare sameNameEntries sameNameWorld)
  in
  exists folders,
    subseq (map cf_entry folders) sameNameEntries
    /\ Forall (fun f => cf_files f <> []) folders
    /\ Forall (sortedListing codeUnitCompare sameNameWorld) folders
    /\ allImages = collected folders
    /\ let navMap := MergeEpubConverter.navMapOf allImages in
       let label := fun p => Ncx.np_label (Ncx.nf_point p) in
       map label navMap = nameChanges [] (map cf_name folders)
       /\ Forall (fun p =>
                    map Ncx.np_id (Ncx.nf_pages p)
                    = map pageId (pagesNamed (label p) 1 allImages)) navMap
       /\ Forall (fun p =>
                    length (Ncx.nf_pages p)
                    = list_sum
                        (map (fun f => length (cf_files f))
                             (filter (fun f => str_eqb (cf_name f) (label p))
                                     folders))) navMap
       /\ (NoDup (map cf_name folders) ->
           ~ In [] (map cf_name folders) ->
           navMap = specNavMap folders 1 1 1).
Proof.
  intros allImages.
  apply (@merged_navMap_groups_by_name codeUnitCompare sameNameEntries
           sameNameWorld
           (fst (collectAllImages codeUnitCompare sameNameEntries
                   sameNameWorld))
           allImages).
  vm_compute. reflexivity.
Defined.

(** The run on the CSV of [sameNameWorld]: the folders A (two images), B
    (one image) and the second A (one image) are collected, each with its
    own [folderIndex]; the map has three points, and both points named A
    hold the same three pages, those of the two folders named A, under
    the same ids. When the two folders named A follow each other, they
    share a single point. *)
Lemma merged_navMap_same_name :
  (let allImages :=
     returned (collectAllImages codeUnitCompare sameNameEntries sameNameWorld)
   in
   let navMap := MergeEpubConverter.navMapOf allImages in
   allImages = collected [folderA; folderB; folderA']
   /\ map folderIndex allImages = [1; 1; 2; 3]
   /\ map (fun p => Ncx.np_label (Ncx.nf_point p)) navMap
      = [lit "A"; lit "B"; lit "A"]
   /\ map (fun p => map Ncx.np_id (Ncx.nf_pages p)) navMap
      = [map lit ["page-1"; "page-2"; "page-4"];
         map lit ["page-3"];
         map lit ["page-1"; "page-2"; "page-4"]]
   /\ Ncx.playOrders navMap = seq 1 10)
  /\ (let folders := [folderA; folderA'] in
      let navMap := MergeEpubConverter.navMapOf (collected folders) in
      length folders = 2
      /\ map (fun p => length (Ncx.nf_pages p)) navMap = [3]).
Proof. vm_compute. repeat split; reflexivity. Qed.

(** The example of the specification: A with two images, then B with
    one. *)
Lemma merged_navMap_example :
  let navMap := MergeEpubConverter.navMapOf (collected [folderA; folderB]) in
  map (fun p => Ncx.np_label (Ncx.nf_point p)) navMap = [lit "A"; lit "B"]
  /\ map (fun p => length (Ncx.nf_pages p)) navMap = [2; 1]
  /\ map (fun p => Ncx.np_playOrder (Ncx.nf_point p)) navMap = [1; 4]
  /\ map (fun p => map Ncx.np_playOrder (Ncx.nf_pages p)) navMap
     = [[2; 3]; [5]].
Proof. vm_compute. repeat split; reflexivity. Qed.

(** ** Reading the file system *)

Lemma validateFolder_folder (w : world) (folderPath : jsstring)
    (entries : list jsstring) :
  isFolder w folderPath entries ->
  validateFolder folderPath w = (w, inr tt).
Proof.
  unfold isFolder, validateFolder, try_catch, bind, stat. intros ->.
  reflexivity.
Qed.

Lemma readImageFiles_orThrow_images (w : world) (folderPath : jsstring)
    (entries : list jsstring) :
  isFolder w folderPath entries ->
  filter isImageFile entries <> [] ->
  readImageFiles_orThrow folderPath w = (w, inr (filter isImageFile entries)).
Proof.
  unfold isFolder, readImageFiles_orThrow, try_catch, bind, readdir.
  intros -> Hne. destruct (filter isImageFile entries); [congruence|].
  reflexivity.
Qed.

Lemma readImageFiles_orThrow_no_image (w : world) (folderPath : jsstring)
    (entries : list jsstring) :
  isFolder w folderPath entries ->
  filter isImageFile entries = [] ->
  readImageFiles_orThrow folderPath w
  = (w, inl (ReadFolderError NoImagesInFolder)).
Proof.
  unfold isFolder, readImageFiles_orThrow, try_catch, bind, readdir.
  intros -> ->. reflexivity.
Qed.

(** What [readImageFiles] of the merge scripts gives: the image files of
    a folder, none included, and the error of the system, wrapped, where
    the folder cannot be read. *)
Lemma readImageFiles_lenient_outcomes (w : world) (folderPath : jsstring) :
  readImageFiles_lenient folderPath w
  = (w, match fs w (resolve w folderPath) with
        | Some (Dir entries) => inr (filter isImageFile entries)
        | Some (File _) => inl (ReadFolderError (ENOTDIR folderPath))
        | None => inl (ReadFolderError (notFound w folderPath))
        end).
Proof.
  unfold readImageFiles_lenient, try_catch, bind, readdir.
  destruct (fs w (resolve w folderPath)) as [[c|entries]|]; reflexivity.
Qed.

Lemma readImageFiles_lenient_folder (w : world) (folderPath : jsstring)
    (entries : list jsstring) :
  isFolder w folderPath entries ->
  readImageFiles_lenient folderPath w = (w, inr (filter isImageFile entries)).
Proof.
  unfold isFolder. intros H.
  rewrite readImageFiles_lenient_outcomes, H. reflexivity.
Qed.

(** ** Single-folder EPUB mode *)

(** C1, what the code does. In single-folder mode [run] calls
    [this.sortFilesNumericamente], a property the class does not have (its
    method is [sortFilesNumerically], which the CSV mode calls): for every
    existing folder with at least one supported image the call throws a
    TypeError, nothing is written, the error is printed and the process
    exits with status 1. *)
Theorem single_folder_epub_run_throws
    (localeCompare : jsstring -> jsstring -> Z) (w : world)
    (node script folderPath outputName : jsstring)
    (entries : list jsstring) :
  outputName <> [] ->
  isFolder w folderPath entries ->
  filter isImageFile entries <> [] ->
  ImageToEpubConverter.run localeCompare
    [node; script; folderPath; outputName] w
  = (printed w (ErrorFatal (NotAFunction "sortFilesNumericamente")), 1%Z).
Proof.
  intros Hout Hdir Himgs.
  unfold ImageToEpubConverter.run, exitStatus, ImageToEpubConverter.runBody.
  unfold bind at 1. unfold validateArguments. cbn [length Nat.ltb Nat.leb Nat.eqb nth].
  destruct outputName as [|c outputName]; [congruence|]. cbn [isEmpty].
  unfold ret at 1. unfold bind at 1.
  rewrite (validateFolder_folder Hdir).
  unfold bind at 1. unfold ImageToEpubConverter.readImageFiles.
  rewrite (readImageFiles_orThrow_images Hdir Himgs).
  reflexivity.
Qed.

(** On the folder [/data/A] of [exampleWorld]. *)
Lemma single_folder_epub_run_throws_witness :
  ImageToEpubConverter.run codeUnitCompare
    (argv ["node"; "epub-converter.js"; "/data/A"; "book"]) exampleWorld
  = (printed exampleWorld
       (ErrorFatal (NotAFunction "sortFilesNumericamente")), 1%Z).
Proof.
  apply (@single_folder_epub_run_throws codeUnitCompare exampleWorld
           (lit "node") (lit "epub-converter.js") (lit "/data/A") (lit "book")
           (map lit ["2.jpg"; "notes.txt"; "1.jpg"])).
  - discriminate.
  - reflexivity.
  - vm_compute. discriminate.
Defined.

(** The same folder through the CSV mode of the same class, which calls
    [this.sortFilesNumerically]: the book is written. *)
Lemma csv_mode_epub_run_example :
  let r := ImageToEpubConverter.run codeUnitCompare
             (argv ["node"; "epub-converter.js"; "list.csv"]) exampleWorld in
  snd r = 0%Z
  /\ (exists package,
        fs (fst r) (lit "/work/epub/A.epub") = Some (File (Epub package))
        /\ epub_images package = map lit ["image_001.jpg"; "image_002.jpg"]).
Proof.
  split; [vm_compute; reflexivity|].
  eexists. split; vm_compute; reflexivity.
Qed.

(** ** The loop of a batch *)

Lemma say_printed (d : diagnostic) (w : world) :
  say d w = (printed w d, inr tt).
Proof. reflexivity. Qed.

(** The loop of the CSV batch mode never throws: whatever happens to an
    entry, the run goes on and ends with status 0. *)
Lemma processCsvEntries_pdf_returns
    (localeCompare : jsstring -> jsstring -> Z) (entries : list CsvEntry) :
  forall w, snd (ImageToPdfConverter.processCsvEntries localeCompare entries w)
            = inr tt.
Proof.
  induction entries as [|entry rest IH]; intros w; [reflexivity|].
  cbn [ImageToPdfConverter.processCsvEntries]. unfold bind at 1, try_catch.
  destruct (ImageToPdfConverter.processEntry localeCompare entry w)
    as [w1 [e | []]]; [rewrite say_printed|]; apply IH.
Qed.

Lemma processCsvEntries_epub_returns
    (localeCompare : jsstring -> jsstring -> Z) (entries : list CsvEntry) :
  forall w, snd (ImageToEpubConverter.processCsvEntries localeCompare entries w)
            = inr tt.
Proof.
  induction entries as [|entry rest IH]; intros w; [reflexivity|].
  cbn [ImageToEpubConverter.processCsvEntries]. unfold bind at 1, try_catch.
  destruct (ImageToEpubConverter.processEntry localeCompare entry w)
    as [w1 [e | []]]; [rewrite say_printed|]; apply IH.
Qed.

Lemma batch_exit_status (localeCompare : jsstring -> jsstring -> Z)
    (entries : list CsvEntry) (w : world) :
  snd (exitStatus (ImageToPdfConverter.processCsvEntries localeCompare entries) w)
  = 0%Z
  /\ snd (exitStatus
            (ImageToEpubConverter.processCsvEntries localeCompare entries) w)
     = 0%Z.
Proof.
  unfold exitStatus.
  pose proof (processCsvEntries_pdf_returns localeCompare entries w) as Hp.
  pose proof (processCsvEntries_epub_returns localeCompare entries w) as He.
  destruct (ImageToPdfConverter.processCsvEntries localeCompare entries w)
    as [w1 [e1 | u1]]; [discriminate Hp|].
  destruct (ImageToEpubConverter.processCsvEntries localeCompare entries w)
    as [w2 [e2 | u2]]; [discriminate He|].
  split; reflexivity.
Qed.

(** ** The output directory of the CSV batch PDF mode *)

Lemma dropWhile_prefix (p : char -> bool) (a b : jsstring) (x : char) :
  Forall (fun c => p c = true) a -> p x = false ->
  NodePath.dropWhile p (a ++ x :: b) = x :: b.
Proof.
  induction 1 as [|c a Hc _ IH]; intros Hx; simpl.
  - rewrite Hx. reflexivity.
  - rewrite Hc. apply IH. exact Hx.
Qed.

(** The directory of a file placed in [dir]. *)
Lemma dirname_in_directory (dir name : jsstring) :
  dir <> [] -> ~ In slash name ->
  NodePath.dirname (dir ++ [slash] ++ name) = dir.
Proof.
  intros Hdir Hname. unfold NodePath.dirname.
  rewrite !rev_app_distr. cbn [rev app]. rewrite <- app_assoc. cbn [app].
  rewrite dropWhile_prefix.
  - cbn [rev]. rewrite rev_involutive.
    destruct dir as [|c dir]; [congruence|]. cbn [app].
    destruct (dir ++ [slash]) eqn:E; [destruct dir; discriminate|].
    rewrite <- E. change (c :: dir ++ [slash]) with ((c :: dir) ++ [slash]).
    apply removelast_last.
  - rewrite Forall_forall. intros c Hc. apply in_rev in Hc.
    unfold NodePath.isSlash. destruct (N.eqb c slash) eqn:E; [|reflexivity].
    apply N.eqb_eq in E. subst. contradiction.
  - reflexivity.
Qed.

Lemma pdfDirectory_not_nil (w : world) : pdfDirectory w <> [].
Proof.
  unfold pdfDirectory, resolve, NodePath.join. cbn.
  destruct (cwd w); discriminate.
Qed.

Lemma resolve_in_pdfDirectory (w : world) (name : jsstring) :
  resolve w (lit "pdf/" ++ name) = pdfDirectory w ++ [slash] ++ name.
Proof.
  unfold pdfDirectory, resolve, NodePath.join. cbn.
  rewrite <- app_assoc. reflexivity.
Qed.

Lemma printedAll_app (ds ds' : list diagnostic) (w : world) :
  printedAll w (ds ++ ds') = printedAll (printedAll w ds) ds'.
Proof. unfold printedAll. apply fold_left_app. Qed.

Lemma printedAll_frame (ds : list diagnostic) :
  forall w,
    cwd (printedAll w ds) = cwd w
    /\ fs (printedAll w ds) = fs w
    /\ zipExit (printedAll w ds) = zipExit w
    /\ uuids (printedAll w ds) = uuids w
    /\ console (printedAll w ds) = console w ++ ds.
Proof.
  induction ds as [|d ds IH]; intros w.
  - cbn. rewrite app_nil_r. repeat split; reflexivity.
  - destruct (IH (printed w d)) as [H1 [H2 [H3 [H4 H5]]]].
    unfold printedAll in *. cbn [fold_left].
    rewrite H1, H2, H3, H4, H5. cbn [printed say fst cwd fs zipExit uuids console].
    rewrite <- app_assoc. repeat split; reflexivity.
Qed.

Lemma printedAll_sameFiles (w : world) (ds : list diagnostic) :
  sameFiles w (printedAll w ds).
Proof.
  destruct (printedAll_frame ds w) as [H1 [H2 _]]. split; assumption.
Qed.

Lemma placeError_sameFiles (w w' : world) (imagePath : jsstring) :
  sameFiles w w' -> placeError w' imagePath = placeError w imagePath.
Proof.
  intros [Hfs Hcwd].
  unfold placeError, placeImage, notFound, throughFile, resolve.
  rewrite Hfs, Hcwd.
  destruct (fs w _) as [[[]|]|]; reflexivity.
Qed.

Lemma imageWarnings_sameFiles (w w' : world) (imagePaths : list jsstring) :
  sameFiles w w' -> imageWarnings w' imagePaths = imageWarnings w imagePaths.
Proof.
  intros H. unfold imageWarnings.
  induction imagePaths as [|p rest IH]; [reflexivity|].
  cbn [flat_map]. rewrite IH, (placeError_sameFiles p H). reflexivity.
Qed.

(** The pages are added whatever the images: every image that cannot be
    placed is reported on the console, and nothing else changes. *)
Lemma addPages_spec (imagePaths : list jsstring) :
  forall w,
    addPages imagePaths w
    = (printedAll w (imageWarnings w imagePaths), inr tt).
Proof.
  induction imagePaths as [|p rest IH]; intros w; [reflexivity|].
  cbn [addPages]. unfold bind at 1, try_catch.
  unfold imageWarnings. cbn [flat_map]. fold (imageWarnings w rest).
  unfold placeError.
  assert (Hw : fst (placeImage p w) = w).
  { unfold placeImage.
    destruct (fs w (resolve w p)) as [[[]|]|]; reflexivity. }
  destruct (placeImage p w) as [w0 [e | []]]; cbn [fst snd] in *; subst w0.
  - rewrite say_printed, IH, printedAll_app.
    rewrite (@imageWarnings_sameFiles w (printed w (WarnImage p e)) rest);
      [reflexivity | split; reflexivity].
  - rewrite IH. reflexivity.
Qed.

Lemma createPdf_spec (imagePaths : list jsstring) (outputPath : jsstring)
    (w : world) :
  createPdf imagePaths outputPath w
  = writeOutput outputPath (Pdf imagePaths)
      (printedAll w (imageWarnings w imagePaths)).
Proof. unfold createPdf, bind. rewrite addPages_spec. reflexivity. Qed.

Lemma createPdf_without_directory (w : world)
    (imagePaths : list jsstring) (outputPath : jsstring) :
  fs w (NodePath.dirname outputPath) = None ->
  exists e w',
    createPdf imagePaths outputPath w = (w', inl e) /\ sameFiles w w'.
Proof.
  intros H. rewrite createPdf_spec.
  pose proof (printedAll_sameFiles w (imageWarnings w imagePaths)) as Hsame.
  destruct Hsame as [Hfs Hcwd].
  unfold writeOutput. rewrite Hfs, H.
  destruct (fs w outputPath) as [[c | es]|]; eexists; eexists;
    (split; [reflexivity | split; assumption]).
Qed.

Lemma readImageFiles_orThrow_world (folderPath : jsstring) (w : world) :
  fst (readImageFiles_orThrow folderPath w) = w.
Proof.
  unfold readImageFiles_orThrow, try_catch, bind, readdir.
  destruct (fs w (resolve w folderPath)) as [[c | es]|]; try reflexivity.
  destruct (Nat.eqb (length (filter isImageFile es)) 0); reflexivity.
Qed.

(** Without the directory [pdf] an entry of the batch fails and leaves the
    files as they are. *)
Lemma processEntry_pdf_without_directory
    (localeCompare : jsstring -> jsstring -> Z) (w : world) (entry : CsvEntry) :
  fs w (pdfDirectory w) = None ->
  ~ In slash (nome entry) ->
  exists e w',
    ImageToPdfConverter.processEntry localeCompare entry w = (w', inl e)
    /\ sameFiles w w'.
Proof.
  intros Hpdf Hname. unfold ImageToPdfConverter.processEntry.
  unfold bind at 1.
  pose proof (validateFolder_world (caminho entry) w) as H1.
  destruct (validateFolder (caminho entry) w) as [w1 [e | u]];
    cbn [fst] in H1; subst w1;
    [eexists; eexists; split; [reflexivity | split; reflexivity]|].
  unfold bind at 1. unfold ImageToPdfConverter.readImageFiles.
  pose proof (readImageFiles_orThrow_world (caminho entry) w) as H2.
  destruct (readImageFiles_orThrow (caminho entry) w) as [w2 [e | imageFiles]];
    cbn [fst] in H2; subst w2;
    [eexists; eexists; split; [reflexivity | split; reflexivity]|].
  unfold bind at 1.
  set (imagePaths := map (NodePath.join (caminho entry))
                         (sortFilesNumerically localeCompare imageFiles)).
  pose proof (checkFiles_world imagePaths w) as H3.
  destruct (checkFiles imagePaths w) as [w3 [e | u']];
    cbn [fst] in H3; subst w3;
    [eexists; eexists; split; [reflexivity | split; reflexivity]|].
  unfold bind, resolveM.
  apply createPdf_without_directory.
  assert (Hout : exists name, ~ In slash name
            /\ (if endsWith (nome entry) (lit ".pdf")
                then lit "pdf/" ++ nome entry
                else lit "pdf/" ++ nome entry ++ lit ".pdf")
               = lit "pdf/" ++ name).
  { destruct (endsWith (nome entry) (lit ".pdf")).
    - exists (nome entry). split; [exact Hname | reflexivity].
    - exists (nome entry ++ lit ".pdf"). split; [|reflexivity].
      rewrite in_app_iff. intros [H | H]; [exact (Hname H)|].
      cbn in H. repeat (destruct H as [H | H]; [discriminate H|]). exact H. }
  destruct Hout as [name [Hslash ->]].
  rewrite resolve_in_pdfDirectory.
  rewrite (@dirname_in_directory _ _ (pdfDirectory_not_nil w) Hslash).
  exact Hpdf.
Qed.

(** What the sibling paths call before they write: after
    [mkdir(p, { recursive: true })] has returned, [p] is a directory. *)
Lemma mkdir_makes_directory (p : jsstring) (w w' : world) :
  mkdir p w = (w', inr tt) ->
  exists entries, fs w' (resolve w' p) = Some (Dir entries).
Proof.
  unfold mkdir.
  destruct (fs w (resolve w p)) as [[c | es]|] eqn:Hfs; intros H;
    inversion H; subst.
  - exists es. exact Hfs.
  - exists []. unfold resolve, withFs, update. cbn [cwd fs].
    rewrite str_eqb_refl. reflexivity.
Qed.

(** C8, what the code does in CSV batch PDF mode. [processCsvEntries] of
    gen-pdf never creates the directory [pdf]: when it is absent, every
    entry fails at the opening of its output file, the failures are
    caught, and the run ends with status 0 with a file system in which
    nothing was created. *)
Theorem batch_pdf_never_creates_pdf_directory
    (localeCompare : jsstring -> jsstring -> Z) (entries : list CsvEntry) :
  forall w,
    fs w (pdfDirectory w) = None ->
    Forall (fun entry => ~ In slash (nome entry)) entries ->
    let r := exitStatus
               (ImageToPdfConverter.processCsvEntries localeCompare entries)
               w in
    snd r = 0%Z
    /\ fs (fst r) = fs w
    /\ fs (fst r) (pdfDirectory (fst r)) = None.
Proof.
  intros w Hpdf Hnames.
  assert (H : fs (fst (ImageToPdfConverter.processCsvEntries
                         localeCompare entries w)) = fs w
              /\ cwd (fst (ImageToPdfConverter.processCsvEntries
                             localeCompare entries w)) = cwd w).
  { revert w Hpdf. induction Hnames as [|entry rest Hname _ IH]; intros w Hpdf;
      [split; reflexivity|].
    assert (Hstep : exists e w1,
              ImageToPdfConverter.processCsvEntries localeCompare
                (entry :: rest) w
              = ImageToPdfConverter.processCsvEntries localeCompare rest
                  (printed w1 (ErrorEntry (nome entry) e))
              /\ sameFiles w w1).
    { destruct (processEntry_pdf_without_directory localeCompare w entry
                  Hpdf Hname) as [e [w1 [He Hsame]]].
      exists e, w1. cbn [ImageToPdfConverter.processCsvEntries].
      unfold bind at 1, try_catch. rewrite He, say_printed.
      split; [reflexivity | exact Hsame]. }
    destruct Hstep as [e [w1 [-> [Hfs1 Hcwd1]]]].
    assert (Hpdf1 : fs (printed w1 (ErrorEntry (nome entry) e))
                      (pdfDirectory (printed w1 (ErrorEntry (nome entry) e)))
                    = None).
    { unfold pdfDirectory, resolve in *. cbn [printed say fst cwd fs].
      rewrite Hfs1, Hcwd1. exact Hpdf. }
    destruct (IH (printed w1 (ErrorEntry (nome entry) e)) Hpdf1)
      as [Hfs Hcwd].
    split; [rewrite Hfs; exact Hfs1 | rewrite Hcwd; exact Hcwd1]. }
  destruct H as [Hfs Hcwd].
  pose proof (processCsvEntries_pdf_returns localeCompare entries w) as Hret.
  cbv zeta. unfold exitStatus.
  destruct (ImageToPdfConverter.processCsvEntries localeCompare entries w)
    as [w1 [e | u]]; [discriminate Hret|].
  cbn [fst snd] in *. repeat split; [exact Hfs|].
  unfold pdfDirectory, resolve in *. rewrite Hfs, Hcwd. exact Hpdf.
Qed.

(** On the entries of the CSV of [exampleWorld], which has no directory
    [pdf]. *)
Lemma batch_pdf_never_creates_pdf_directory_witness :
  let r := exitStatus
             (ImageToPdfConverter.processCsvEntries codeUnitCompare
                exampleEntries)
             exampleWorld in
  snd r = 0%Z
  /\ fs (fst r) = fs exampleWorld
  /\ fs (fst r) (pdfDirectory (fst r)) = None.
Proof.
  apply (@batch_pdf_never_creates_pdf_directory codeUnitCompare
           exampleEntries exampleWorld).
  - reflexivity.
  - repeat constructor; cbn;
      intros H; repeat (destruct H as [H | H]; [discriminate H|]); exact H.
Defined.

(** The same CSV through the three runs, from a working directory without
    [pdf] and [epub]: the batch PDF run writes nothing and reports one
    failure per entry, the batch EPUB run and the merge PDF run create
    their directory and write their outputs. *)
Lemma output_directories_example :
  let batchPdf := ImageToPdfConverter.run codeUnitCompare
                    (argv ["node"; "gen-pdf.js"; "list.csv"]) exampleWorld in
  let batchEpub := ImageToEpubConverter.run codeUnitCompare
                     (argv ["node"; "epub-converter.js"; "list.csv"])
                     exampleWorld in
  let mergePdf := MergePdfConverter.run codeUnitCompare
                    (argv ["node"; "gen-lote-pdf.js"; "list.csv"; "all"])
                    exampleWorld in
  (snd batchPdf = 0%Z
   /\ fs (fst batchPdf) (lit "/work/pdf") = None
   /\ fs (fst batchPdf) (lit "/work/pdf/A.pdf") = None
   /\ console (fst batchPdf)
      = [ErrorEntry (lit "vazio") (ReadFolderError NoImagesInFolder);
         ErrorEntry (lit "A") (ENOENT (lit "/work/pdf/A.pdf"));
         ErrorEntry (lit "B") (ENOENT (lit "/work/pdf/B.pdf"))])
  /\ (snd batchEpub = 0%Z
      /\ fs (fst batchEpub) (lit "/work/epub")
         = Some (Dir [lit "A.epub"; lit "B.epub"])
      /\ fs (fst batchEpub) (lit "/work/epub/A.epub") <> None)
  /\ (snd mergePdf = 0%Z
      /\ fs (fst mergePdf) (lit "/work/pdf") = Some (Dir [lit "all.pdf"])
      /\ fs (fst mergePdf) (lit "/work/pdf/all.pdf")
         = Some (File (Pdf (map lit ["/data/A/1.jpg"; "/data/A/2.jpg";
                                     "/data/B/1.jpg"])))).
Proof. vm_compute. repeat split; discriminate. Qed.

(** ** Writing a CSV and reading it back *)

Lemma trimStart_head (s : jsstring) :
  isWhiteSpace (hd 0%N s) = false -> trimStart s = s.
Proof. destruct s as [|c s]; cbn; [reflexivity | intros ->; reflexivity]. Qed.

Lemma rev_head_last (s : jsstring) : s <> [] -> hd 0%N (rev s) = last s 0%N.
Proof.
  intros Hs. rewrite (app_removelast_last 0%N Hs) at 1.
  rewrite rev_app_distr. reflexivity.
Qed.

Lemma trimEnd_last (s : jsstring) :
  isWhiteSpace (last s 0%N) = false -> trimEnd s = s.
Proof.
  intros H. unfold trimEnd. destruct s as [|c s]; [reflexivity|].
  rewrite trimStart_head, rev_involutive; [reflexivity|].
  rewrite rev_head_last by discriminate. exact H.
Qed.

Lemma trim_fixed (s : jsstring) :
  isWhiteSpace (hd 0%N s) = false -> isWhiteSpace (last s 0%N) = false ->
  trim s = s.
Proof.
  intros Hh Hl. unfold trim. rewrite (trimStart_head _ Hh).
  apply trimEnd_last. exact Hl.
Qed.

Lemma trim_final_line_feed (s : jsstring) :
  s <> [] ->
  isWhiteSpace (hd 0%N s) = false -> isWhiteSpace (last s 0%N) = false ->
  trim (s ++ [LF]) = s.
Proof.
  intros Hs Hh Hl. unfold trim. rewrite trimStart_head.
  - unfold trimEnd. rewrite rev_app_distr. cbn [rev app trimStart].
    change (isWhiteSpace LF) with true. cbn iota.
    rewrite trimStart_head, rev_involutive; [reflexivity|].
    rewrite rev_head_last by assumption. exact Hl.
  - destruct s; [congruence | exact Hh].
Qed.

Lemma last_app_r (a b : jsstring) : b <> [] -> last (a ++ b) 0%N = last b 0%N.
Proof.
  intros Hb. induction a as [|c a IH]; [reflexivity|].
  cbn [app]. destruct (a ++ b) eqn:E.
  - destruct a; [cbn in E; congruence | discriminate].
  - cbn [last]. exact IH.
Qed.

Lemma last_after (a b : jsstring) (x : char) :
  b <> [] -> last (a ++ x :: b) 0%N = last b 0%N.
Proof.
  intros Hb. rewrite last_app_r by discriminate.
  destruct b; [congruence | reflexivity].
Qed.

Lemma split_line (l rest : jsstring) :
  ~ In LF l -> split LF (l ++ LF :: rest) = l :: split LF rest.
Proof.
  induction l as [|c l IH]; intros Hl; cbn [app split].
  - rewrite N.eqb_refl. reflexivity.
  - destruct (N.eqb c LF) eqn:E.
    + apply N.eqb_eq in E. exfalso. apply Hl. left. exact E.
    + rewrite IH; [reflexivity|]. intros H. apply Hl. right. exact H.
Qed.

Lemma split_last_line (l : jsstring) : ~ In LF l -> split LF l = [l].
Proof.
  induction l as [|c l IH]; intros Hl; cbn [split]; [reflexivity|].
  destruct (N.eqb c LF) eqn:E.
  - apply N.eqb_eq in E. exfalso. apply Hl. left. exact E.
  - rewrite IH; [reflexivity|]. intros H. apply Hl. right. exact H.
Qed.

(** [split] undoes [join] on lines without line feed. *)
Lemma split_joinLines (lines : list jsstring) :
  lines <> [] -> Forall (fun l => ~ In LF l) lines ->
  split LF (joinLines lines) = lines.
Proof.
  induction lines as [|l rest IH]; intros Hne Hall; [congruence|].
  inversion Hall as [|? ? Hl Hrest]; subst.
  destruct rest as [|l' rest'].
  - cbn [joinLines]. apply split_last_line. exact Hl.
  - change (joinLines (l :: l' :: rest'))
      with (l ++ LF :: joinLines (l' :: rest')).
    rewrite split_line by exact Hl. rewrite IH; [reflexivity | discriminate | exact Hrest].
Qed.

Lemma parseCsvLine_loop_plain (s : jsstring) :
  forall rest result current,
    ~ In dquote s -> ~ In semicolon s ->
    parseCsvLine_loop (s ++ rest) result current false
    = parseCsvLine_loop rest result (current ++ s) false.
Proof.
  induction s as [|c s IH]; intros rest result current Hq Hs; cbn [app].
  - rewrite app_nil_r. reflexivity.
  - cbn [parseCsvLine_loop].
    destruct (N.eqb c dquote) eqn:Eq.
    { apply N.eqb_eq in Eq. exfalso. apply Hq. left. exact Eq. }
    destruct (N.eqb c semicolon) eqn:Es.
    { apply N.eqb_eq in Es. exfalso. apply Hs. left. exact Es. }
    cbn [andb]. rewrite IH.
    + rewrite <- app_assoc. reflexivity.
    + intros H. apply Hq. right. exact H.
    + intros H. apply Hs. right. exact H.
Qed.

(** Two fields without quote and semicolon, and a semicolon between
    them. *)
Lemma parseCsvLine_two_fields (a b : jsstring) :
  ~ In dquote a -> ~ In semicolon a -> ~ In dquote b -> ~ In semicolon b ->
  parseCsvLine (a ++ semicolon :: b) = [a; b].
Proof.
  intros Hqa Hsa Hqb Hsb. unfold parseCsvLine.
  rewrite parseCsvLine_loop_plain by assumption.
  cbn [parseCsvLine_loop]. change (N.eqb semicolon dquote) with false.
  cbn iota. rewrite N.eqb_refl. cbn [andb negb app].
  rewrite <- (app_nil_r b) at 1.
  rewrite parseCsvLine_loop_plain by assumption. reflexivity.
Qed.

(** A semicolon between double quotes stays in its field. *)
Lemma parseCsvLine_quoted_field (a b : jsstring) :
  ~ In dquote a -> ~ In dquote b -> ~ In semicolon b ->
  parseCsvLine (dquote :: a ++ dquote :: semicolon :: b) = [a; b].
Proof.
  intros Hqa Hqb Hsb. unfold parseCsvLine. cbn [parseCsvLine_loop].
  rewrite N.eqb_refl. cbn [negb].
  rewrite parseCsvLine_loop_inQuotes by assumption.
  cbn [parseCsvLine_loop]. change (N.eqb semicolon dquote) with false.
  cbn iota. rewrite N.eqb_refl. cbn [andb negb app].
  rewrite <- (app_nil_r b) at 1.
  rewrite parseCsvLine_loop_plain by assumption. reflexivity.
Qed.

Lemma joinLines_cons2 (l l' : jsstring) (rest : list jsstring) :
  joinLines (l :: l' :: rest) = l ++ LF :: joinLines (l' :: rest).
Proof. reflexivity. Qed.

Lemma joinLines_last (lines : list jsstring) :
  lines <> [] ->
  Forall (fun l => l <> [] /\ isWhiteSpace (last l 0%N) = false) lines ->
  joinLines lines <> []
  /\ isWhiteSpace (last (joinLines lines) 0%N) = false.
Proof.
  induction lines as [|l rest IH]; intros Hne Hall; [congruence|].
  inversion Hall as [|? ? [Hl Hlast] Hrest]; subst.
  destruct rest as [|l' rest'].
  - cbn [joinLines]. split; assumption.
  - rewrite joinLines_cons2.
    destruct (IH ltac:(discriminate) Hrest) as [HJ HJlast].
    split; [destruct l; discriminate|].
    rewrite last_app_r by discriminate.
    destruct (joinLines (l' :: rest')) eqn:E; [congruence|].
    cbn [last]. exact HJlast.
Qed.

Lemma joinLines_head (l : jsstring) (rest : list jsstring) :
  l <> [] -> hd 0%N (joinLines (l :: rest)) = hd 0%N l.
Proof.
  intros Hl. destruct rest; [reflexivity|].
  rewrite joinLines_cons2. destruct l; [congruence | reflexivity].
Qed.

Lemma flat_map_cons_eq (A B : Type) (f : A -> list B) (x : A) (l : list A) :
  flat_map f (x :: l) = f x ++ flat_map f l.
Proof. reflexivity. Qed.

(** The text [generateCSV] writes is its lines joined, and a final line
    feed. *)
Lemma csvContent_lines (header : jsstring) (rows : list CsvEntry) :
  rows <> [] ->
  header ++ [LF]
  ++ flat_map (fun r => nome r ++ [semicolon] ++ caminho r ++ [LF]) rows
  = joinLines (header :: map csvLine rows) ++ [LF].
Proof.
  revert header. induction rows as [|r rest IH]; intros header Hne;
    [congruence|].
  rewrite flat_map_cons_eq.
  replace (nome r ++ [semicolon] ++ caminho r ++ [LF])
    with (csvLine r ++ [LF])
    by (unfold csvLine; rewrite <- app_assoc; reflexivity).
  destruct rest as [|r' rest'].
  - cbn [flat_map map joinLines]. rewrite app_nil_r, <- !app_assoc.
    reflexivity.
  - rewrite <- (app_assoc (csvLine r) [LF]).
    rewrite (IH (csvLine r)) by discriminate.
    change (map csvLine (r :: r' :: rest'))
      with (csvLine r :: map csvLine (r' :: rest')).
    change (map csvLine (r' :: rest'))
      with (csvLine r' :: map csvLine rest').
    rewrite (joinLines_cons2 header).
    rewrite <- !app_assoc. reflexivity.
Qed.

Lemma readCsvFile_loop_header (rest : list jsstring) :
  readCsvFile_loop 0 (lit "nome;caminho" :: rest) = readCsvFile_loop 1 rest.
Proof.
  cbn [readCsvFile_loop].
  destruct (readCsvFile_loop 1 rest) as [entries warns]. reflexivity.
Qed.

Lemma csvLine_trim (r : CsvEntry) : plainEntry r -> trim (csvLine r) = csvLine r.
Proof.
  intros [[[Hn [Hnh _]] _] [[Hc [_ [Hcl _]]] _]].
  apply trim_fixed; unfold csvLine.
  - destruct (nome r); [congruence | exact Hnh].
  - rewrite last_after by exact Hc. exact Hcl.
Qed.

(** Every line of plain fields gives its record back, without warning. *)
Lemma readCsvFile_loop_rows (rows : list CsvEntry) :
  forall i,
    Forall plainEntry rows ->
    readCsvFile_loop (S i) (map csvLine rows) = (rows, []).
Proof.
  induction rows as [|r rest IH]; intros i Hall; [reflexivity|].
  inversion Hall as [|? ? Hr Hrest]; subst.
  cbn [map readCsvFile_loop]. rewrite (IH (S i) Hrest).
  rewrite (csvLine_trim Hr).
  destruct Hr as [[[Hn [Hnh [Hnl [Hnq Hnf]]]] Hns]
                  [[Hc [Hch [Hcl [Hcq Hcf]]]] Hcs]].
  assert (Hline : isEmpty (csvLine r) = false)
    by (unfold csvLine; destruct (nome r); [congruence | reflexivity]).
  rewrite Hline. cbn [Nat.eqb andb].
  unfold csvLine. rewrite parseCsvLine_two_fields by assumption.
  cbn [length Nat.ltb Nat.leb nth].
  rewrite (trim_fixed _ Hnh Hnl), (trim_fixed _ Hch Hcl).
  destruct r as [n c]; cbn [nome caminho] in *.
  destruct n; [congruence|]. destruct c; [congruence|]. reflexivity.
Qed.

Lemma readCsvContent_lines (rows : list CsvEntry) :
  rows <> [] -> Forall plainEntry rows ->
  readCsvContent (joinLines (lit "nome;caminho" :: map csvLine rows) ++ [LF])
  = (inr rows, []).
Proof.
  intros Hne Hall.
  assert (Hlines : Forall (fun l => l <> []
                                    /\ isWhiteSpace (last l 0%N) = false)
                          (lit "nome;caminho" :: map csvLine rows)).
  { constructor; [split; [discriminate | reflexivity]|].
    rewrite Forall_forall in *. intros l Hl.
    apply in_map_iff in Hl. destruct Hl as [r [<- Hr]].
    destruct (Hall r Hr) as [[[Hn _] _] [[Hc [_ [Hcl _]]] _]].
    unfold csvLine. split; [destruct (nome r); discriminate|].
    rewrite last_after by exact Hc. exact Hcl. }
  assert (Hcons : lit "nome;caminho" :: map csvLine rows <> [])
    by discriminate.
  destruct (joinLines_last Hcons Hlines) as [HJ HJlast].
  unfold readCsvContent, readCsvFile_try.
  rewrite trim_final_line_feed;
    [| exact HJ
     | rewrite joinLines_head by discriminate; reflexivity
     | exact HJlast].
  rewrite split_joinLines; [|discriminate|].
  - cbn [length Nat.eqb]. rewrite readCsvFile_loop_header.
    rewrite (readCsvFile_loop_rows 0 Hall).
    destruct rows; [congruence | reflexivity].
  - constructor; [vm_compute; intros H;
                  repeat (destruct H as [H | H]; [discriminate H|]); exact H|].
    rewrite Forall_forall in *. intros l Hl.
    apply in_map_iff in Hl. destruct Hl as [r [<- Hr]].
    destruct (Hall r Hr) as [[[_ [_ [_ [_ Hnf]]]] _] [[_ [_ [_ [_ Hcf]]]] _]].
    unfold csvLine. rewrite in_app_iff. intros [H | [H | H]];
      [exact (Hnf H) | discriminate H | exact (Hcf H)].
Qed.

Lemma replaceSemicolons_plain (s : jsstring) :
  ~ In semicolon s -> replaceSemicolons s = s.
Proof.
  induction s as [|c s IH]; intros H; [reflexivity|].
  cbn [replaceSemicolons map]. fold (replaceSemicolons s).
  destruct (N.eqb c semicolon) eqn:E.
  - apply N.eqb_eq in E. exfalso. apply H. left. exact E.
  - rewrite IH; [reflexivity|]. intros Hin. apply H. right. exact Hin.
Qed.

Lemma replaceSemicolons_hd (s : jsstring) :
  isWhiteSpace (hd 0%N s) = false ->
  isWhiteSpace (hd 0%N (replaceSemicolons s)) = false.
Proof.
  destruct s as [|c s]; [intros H; exact H|]. cbn [replaceSemicolons map hd].
  destruct (N.eqb c semicolon); [reflexivity | intros H; exact H].
Qed.

Lemma replaceSemicolons_last (s : jsstring) :
  isWhiteSpace (last s 0%N) = false ->
  isWhiteSpace (last (replaceSemicolons s) 0%N) = false.
Proof.
  induction s as [|c s IH]; [intros H; exact H|].
  destruct s as [|c' s'].
  - cbn. destruct (N.eqb c semicolon); [reflexivity | intros H; exact H].
  - intros H. exact (IH H).
Qed.

Lemma replaceSemicolons_In (s : jsstring) (x : char) :
  x <> comma -> In x (replaceSemicolons s) -> In x s.
Proof.
  intros Hx. induction s as [|c s IH]; [intros []|].
  cbn [replaceSemicolons map In]. fold (replaceSemicolons s).
  destruct (N.eqb c semicolon);
    (intros [H | H]; [try congruence; left; exact H | right; exact (IH H)]).
Qed.

Lemma replaceSemicolons_free (s : jsstring) :
  ~ In semicolon (replaceSemicolons s).
Proof.
  induction s as [|c s IH]; [intros []|].
  cbn [replaceSemicolons map In]. fold (replaceSemicolons s).
  destruct (N.eqb c semicolon) eqn:E; intros [H | H];
    try discriminate H; try exact (IH H).
  apply N.eqb_neq in E. exact (E H).
Qed.

Lemma written_plain (f : CsvEntry) : writableEntry f -> plainEntry (written f).
Proof.
  assert (H : forall s, writableField s -> plainField (replaceSemicolons s)).
  { intros s [Hs [Hh [Hl [Hq Hf]]]]. split; [|apply replaceSemicolons_free].
    repeat split.
    - destruct s; [congruence | discriminate].
    - apply replaceSemicolons_hd. exact Hh.
    - apply replaceSemicolons_last. exact Hl.
    - intros Hin. apply Hq. eapply replaceSemicolons_In; [discriminate | exact Hin].
    - intros Hin. apply Hf. eapply replaceSemicolons_In; [discriminate | exact Hin]. }
  intros [Hn Hc]. split; apply H; assumption.
Qed.

Lemma csvContent_written (folders : list CsvEntry) :
  folders <> [] ->
  Analyzer.csvContent folders
  = joinLines (lit "nome;caminho" :: map csvLine (map written folders))
    ++ [LF].
Proof.
  intros Hne. rewrite <- csvContent_lines by (destruct folders; [congruence | discriminate]).
  unfold Analyzer.csvContent. do 2 f_equal.
  induction folders as [|f rest IH]; [congruence|].
  destruct rest as [|f' rest']; [reflexivity|].
  rewrite flat_map_cons_eq, IH by discriminate. reflexivity.
Qed.

(** C4, as the code has it. For a non-empty list of records whose names
    and paths are not empty, begin and end with a character that is not
    white space and hold no double quote and no line feed, the CSV that
    the analyzer writes is parsed, without warning, into the records with
    every semicolon of a field replaced by a comma; the entries equal the
    originals when no field holds a semicolon (commas stay as they are).
    In a line, a semicolon between double quotes does not end the
    field. *)
Theorem csv_round_trip (folders : list CsvEntry) :
  folders <> [] ->
  Forall writableEntry folders ->
  readCsvContent (Analyzer.csvContent folders)
  = (inr (map written folders), [])
  /\ (Forall semicolonFree folders ->
      parseCsv (Analyzer.csvContent folders) = inr folders)
  /\ (forall a b,
        ~ In dquote a -> ~ In dquote b -> ~ In semicolon b ->
        parseCsvLine (dquote :: a ++ dquote :: semicolon :: b) = [a; b]).
Proof.
  intros Hne Hall.
  assert (Hread : readCsvContent (Analyzer.csvContent folders)
                  = (inr (map written folders), [])).
  { rewrite csvContent_written by exact Hne.
    apply readCsvContent_lines.
    - destruct folders; [congruence | discriminate].
    - rewrite Forall_forall in *. intros r Hr.
      apply in_map_iff in Hr. destruct Hr as [f [<- Hf]].
      apply written_plain. apply Hall. exact Hf. }
  split; [exact Hread|]. split; [|exact parseCsvLine_quoted_field].
  intros Hfree. unfold parseCsv. rewrite Hread. cbn [fst]. f_equal.
  clear Hread Hne Hall. induction Hfree as [|f rest [Hn Hc] _ IH]; [reflexivity|].
  cbn [map]. rewrite IH. f_equal. unfold written.
  rewrite (replaceSemicolons_plain _ Hn), (replaceSemicolons_plain _ Hc).
  destruct f; reflexivity.
Qed.

Ltac writable_field :=
  repeat split;
    try discriminate; try reflexivity;
    try (cbn; intros H;
         repeat (destruct H as [H | H]; [discriminate H|]); exact H).

(** On a record with commas and a record with semicolons. *)
Lemma csv_round_trip_witness :
  let folders :=
    [ {| nome := lit "Report, Q1"; caminho := lit "/data/Report, Q1" |};
      {| nome := lit "a;b"; caminho := lit "/data/a;b" |} ] in
  readCsvContent (Analyzer.csvContent folders)
  = (inr [ {| nome := lit "Report, Q1"; caminho := lit "/data/Report, Q1" |};
           {| nome := lit "a,b"; caminho := lit "/data/a,b" |} ], []).
Proof.
  intros folders.
  assert (Hne : folders <> []) by discriminate.
  assert (Hall : Forall writableEntry folders).
  { repeat constructor; writable_field. }
  exact (proj1 (@csv_round_trip folders Hne Hall)).
Defined.

(** C4, as stated, fails on a record with a semicolon in a field, which
    the generator writes as a comma; on a record with a pair of double
    quotes, which the parser drops (with a single one the line has one
    column and is skipped); and on the empty list, whose file has no
    entry. *)
Lemma csv_round_trip_not_identity :
  (let folders := [ {| nome := lit "a;b"; caminho := lit "/data/a;b" |} ] in
   parseCsv (Analyzer.csvContent folders)
   = inr [ {| nome := lit "a,b"; caminho := lit "/data/a,b" |} ]
   /\ parseCsv (Analyzer.csvContent folders) <> inr folders)
  /\ (let folders :=
        [ {| nome := lit "the " ++ [dquote] ++ lit "big" ++ [dquote]
                     ++ lit " one";
             caminho := lit "/data/big" |} ] in
      parseCsv (Analyzer.csvContent folders)
      = inr [ {| nome := lit "the big one"; caminho := lit "/data/big" |} ]
      /\ parseCsv (Analyzer.csvContent folders) <> inr folders)
  /\ (let folders :=
        [ {| nome := lit "6" ++ [dquote] ++ lit " prints";
             caminho := lit "/data/6in" |} ] in
      parseCsv (Analyzer.csvContent folders)
      = inl (CsvReadError CsvNoValidEntries))
  /\ parseCsv (Analyzer.csvContent [])
     = inl (CsvReadError CsvNoValidEntries).
Proof.
  repeat split; try (vm_compute; reflexivity); vm_compute; discriminate.
Qed.
(* ===================================================================== *)
(** * Further properties of the scripts *)
(* ===================================================================== *)

(** ** Decimal numerals *)

Lemma to_uint_not_Nil (n : nat) : Nat.to_uint n <> Decimal.Nil.
Proof.
  pose proof (Unsigned.to_of (Nat.to_uint n)) as H.
  rewrite Unsigned.of_to in H. rewrite H.
  unfold Decimal.unorm. destruct (Decimal.nzhead (Nat.to_uint n)); discriminate.
Qed.

Lemma decimalStep_digit (acc k : nat) :
  decimalStep (N.of_nat acc) (N.of_nat k) = N.of_nat (k + Nat.tail_mul 10 acc).
Proof. unfold decimalStep. rewrite Nat.tail_mul_spec. lia. Qed.

(** Reading the digits of a numeral and folding them gives the number. *)
Lemma fold_radixDigits_uint (d : Decimal.uint) :
  forall (rest : jsstring) (acc : nat),
    fold_left decimalStep
      (radixDigits 10 (lit (NilEmpty.string_of_uint d) ++ rest)) (N.of_nat acc)
    = fold_left decimalStep (radixDigits 10 rest)
        (N.of_nat (Nat.of_uint_acc d acc)).
Proof.
  induction d; intros rest acc;
    [ reflexivity
    | change (NilEmpty.string_of_uint (Decimal.D0 d))
        with (String "0" (NilEmpty.string_of_uint d))
    | change (NilEmpty.string_of_uint (Decimal.D1 d))
        with (String "1" (NilEmpty.string_of_uint d))
    | change (NilEmpty.string_of_uint (Decimal.D2 d))
        with (String "2" (NilEmpty.string_of_uint d))
    | change (NilEmpty.string_of_uint (Decimal.D3 d))
        with (String "3" (NilEmpty.string_of_uint d))
    | change (NilEmpty.string_of_uint (Decimal.D4 d))
        with (String "4" (NilEmpty.string_of_uint d))
    | change (NilEmpty.string_of_uint (Decimal.D5 d))
        with (String "5" (NilEmpty.string_of_uint d))
    | change (NilEmpty.string_of_uint (Decimal.D6 d))
        with (String "6" (NilEmpty.string_of_uint d))
    | change (NilEmpty.string_of_uint (Decimal.D7 d))
        with (String "7" (NilEmpty.string_of_uint d))
    | change (NilEmpty.string_of_uint (Decimal.D8 d))
        with (String "8" (NilEmpty.string_of_uint d))
    | change (NilEmpty.string_of_uint (Decimal.D9 d))
        with (String "9" (NilEmpty.string_of_uint d)) ];
    match goal with
    | |- context [lit (String ?c ?s)] =>
        change (lit (String c s)) with (N_of_ascii c :: lit s)
    end;
    cbn [app radixDigits]; 
    match goal with
    | |- context [digitValue ?c] =>
        let v := eval vm_compute in (digitValue c) in
        change (digitValue c) with v
    end;
    cbv beta iota;
    match goal with
    | |- context [N.ltb ?a 10] =>
        change (N.ltb a 10) with true
    end;
    cbv beta iota; cbn [fold_left];
    match goal with
    | |- context [decimalStep (N.of_nat acc) ?k] =>
        change k with (N.of_nat (N.to_nat k));
        rewrite decimalStep_digit
    end;
    rewrite IHd; reflexivity.
Qed.

Lemma digitsValue_fold (ds : list N) :
  digitsValue 10 ds = fold_left decimalStep ds 0%N.
Proof. reflexivity. Qed.

(** The number that the decimal digits at the start of a string denote. *)
Lemma leadingNumber_String_of_nat (n : nat) (rest : jsstring) :
  radixDigits 10 rest = [] ->
  digitsValue 10 (radixDigits 10 (String_of_nat n ++ rest)) = N.of_nat n.
Proof.
  intros Hrest. rewrite digitsValue_fold. unfold String_of_nat.
  change 0%N with (N.of_nat 0).
  rewrite fold_radixDigits_uint, Hrest. cbn [fold_left].
  change (Nat.of_uint_acc (Nat.to_uint n) 0) with (Nat.of_uint (Nat.to_uint n)).
  now rewrite Unsigned.of_to.
Qed.

Lemma String_of_nat_decimal (n : nat) : Forall isDecimalDigit (String_of_nat n).
Proof.
  unfold String_of_nat. induction (Nat.to_uint n); cbn;
    constructor; try assumption; unfold isDecimalDigit; cbn; lia.
Qed.

Lemma String_of_nat_not_nil (n : nat) : String_of_nat n <> [].
Proof.
  unfold String_of_nat. pose proof (to_uint_not_Nil n) as H.
  destruct (Nat.to_uint n); try discriminate. now elim H.
Qed.

Lemma radixDigits_decimal (c : char) (s : jsstring) :
  isDecimalDigit c ->
  radixDigits 10 (c :: s) = (c - 48)%N :: radixDigits 10 s.
Proof.
  unfold isDecimalDigit. intros H. cbn [radixDigits]. unfold digitValue.
  replace (N.leb 48 c) with true by (symmetry; apply N.leb_le; lia).
  replace (N.leb c 57) with true by (symmetry; apply N.leb_le; lia).
  cbn [andb].
  replace (N.ltb (c - 48) 10) with true by (symmetry; apply N.ltb_lt; lia).
  reflexivity.
Qed.

Lemma isWhiteSpace_decimal (c : char) : isDecimalDigit c -> isWhiteSpace c = false.
Proof.
  unfold isDecimalDigit, isWhiteSpace. intros H. cbn [existsb].
  repeat match goal with
         | |- context [N.eqb c ?k] =>
             replace (N.eqb c k) with false by (symmetry; apply N.eqb_neq; lia)
         end.
  replace (N.leb 8192 c) with false by (symmetry; apply N.leb_gt; lia).
  reflexivity.
Qed.

(** [parseInt(String(n))] is [n]. *)
Lemma parseInt_String_of_nat (n : nat) :
  parseInt (String_of_nat n) = Some (Z.of_nat n).
Proof.
  pose proof (String_of_nat_decimal n) as Hd.
  pose proof (String_of_nat_not_nil n) as Hne.
  pose proof (leadingNumber_String_of_nat n [] eq_refl) as Hv.
  rewrite app_nil_r in Hv.
  destruct (String_of_nat n) as [|c0 s] eqn:E; [now elim Hne|].
  inversion Hd as [|? ? H0 Hs]; subst.
  unfold parseInt. cbn [trimStart]. rewrite (isWhiteSpace_decimal H0).
  replace (N.eqb c0 45) with false
    by (symmetry; apply N.eqb_neq; unfold isDecimalDigit in H0; lia).
  replace (N.eqb c0 43) with false
    by (symmetry; apply N.eqb_neq; unfold isDecimalDigit in H0; lia).
  assert (Hten :
    match radixDigits 10 (c0 :: s) with
    | [] => None
    | ds => Some (1 * Z.of_N (digitsValue 10 ds))%Z
    end = Some (Z.of_nat n)).
  { rewrite (radixDigits_decimal s H0) in *. rewrite Hv. f_equal. lia. }
  destruct s as [|c1 r]; [exact Hten|].
  inversion Hs as [|? ? H1 ?]; subst.
  replace (N.eqb c1 120) with false
    by (symmetry; apply N.eqb_neq; unfold isDecimalDigit in H1; lia).
  replace (N.eqb c1 88) with false
    by (symmetry; apply N.eqb_neq; unfold isDecimalDigit in H1; lia).
  rewrite andb_false_r. exact Hten.
Qed.

(** ** Paths and extensions *)

Lemma takeWhile_all (p : char -> bool) (s : jsstring) :
  Forall (fun c => p c = true) s -> NodePath.takeWhile p s = s.
Proof.
  induction 1 as [|c s Hc _ IH]; [reflexivity|].
  cbn. now rewrite Hc, IH.
Qed.

Lemma takeWhile_prefix (p : char -> bool) (a b : jsstring) (x : char) :
  Forall (fun c => p c = true) a -> p x = false ->
  NodePath.takeWhile p (a ++ x :: b) = a.
Proof.
  intros Ha Hx. induction Ha as [|c a Hc _ IH]; cbn.
  - now rewrite Hx.
  - now rewrite Hc, IH.
Qed.

Lemma takeWhile_dropWhile (p : char -> bool) (s : jsstring) :
  NodePath.takeWhile p s ++ NodePath.dropWhile p s = s.
Proof.
  induction s as [|c s IH]; [reflexivity|].
  cbn. destruct (p c); [cbn; now rewrite IH | reflexivity].
Qed.

Lemma takeWhile_Forall (p : char -> bool) (s : jsstring) :
  Forall (fun c => p c = true) (NodePath.takeWhile p s).
Proof.
  induction s as [|c s IH]; cbn; [constructor|].
  destruct (p c) eqn:E; constructor; assumption.
Qed.

Lemma dropWhile_head (p : char -> bool) (s : jsstring) (x : char)
    (r : jsstring) :
  NodePath.dropWhile p s = x :: r -> p x = false.
Proof.
  induction s as [|c s IH]; cbn; [discriminate|].
  destruct (p c) eqn:E; [exact IH|].
  intros H. injection H as -> _. exact E.
Qed.

Lemma dropWhile_nil (p : char -> bool) (s : jsstring) :
  NodePath.dropWhile p s = [] -> Forall (fun c => p c = true) s.
Proof.
  induction s as [|c s IH]; cbn; [constructor|].
  destruct (p c) eqn:E; [|discriminate].
  intros H. constructor; auto.
Qed.

Lemma not_In_Forall_negb (x : char) (s : jsstring) :
  ~ In x s -> Forall (fun c => negb (N.eqb c x) = true) s.
Proof.
  intros H. apply Forall_forall. intros c Hc.
  apply negb_true_iff, N.eqb_neq. intros ->. now apply H.
Qed.

(** A name without separator is its own last portion. *)
Lemma lastPortion_name (name : jsstring) :
  ~ In slash name -> NodePath.lastPortion name = name.
Proof.
  intros H. unfold NodePath.lastPortion.
  assert (Hrev : Forall (fun c => negb (NodePath.isSlash c) = true) (rev name)).
  { apply not_In_Forall_negb. now rewrite <- in_rev. }
  assert (Hdrop : NodePath.dropWhile NodePath.isSlash (rev name) = rev name).
  { destruct (rev name) as [|c r]; [reflexivity|].
    inversion Hrev as [|? ? Hc _]; subst. cbn.
    apply negb_true_iff in Hc. now rewrite Hc. }
  rewrite Hdrop, (takeWhile_all _ Hrev). apply rev_involutive.
Qed.

Lemma existsb_isDot (s : jsstring) :
  existsb NodePath.isDot s = true <-> In dot s.
Proof.
  rewrite existsb_exists. split.
  - intros [c [Hc E]]. apply N.eqb_eq in E. now subst.
  - intros H. exists dot. split; [exact H|]. apply N.eqb_refl.
Qed.

(** The extension of [stem.ext]. *)
Lemma extname_stem_ext (stem ext : jsstring) :
  stem <> [] -> ~ In slash stem -> plainExtension ext ->
  stem ++ dot :: ext <> [dot; dot] ->
  NodePath.extname (stem ++ dot :: ext) = dot :: ext.
Proof.
  intros Hstem Hslash [Hdot Hslash'] Hdots. unfold NodePath.extname.
  rewrite lastPortion_name.
  2:{ intros Hin. apply in_app_or in Hin. destruct Hin as [Hin|[E|Hin]]; auto.
      discriminate E. }
  assert (Hex : existsb NodePath.isDot (stem ++ dot :: ext) = true).
  { apply existsb_isDot, in_or_app. right. now left. }
  rewrite Hex. cbn [negb].
  assert (Hafter :
    NodePath.takeWhile (fun c => negb (NodePath.isDot c))
      (rev (stem ++ dot :: ext)) = rev ext).
  { rewrite rev_app_distr. cbn [rev]. rewrite <- app_assoc. cbn [app].
    apply takeWhile_prefix.
    - apply not_In_Forall_negb. now rewrite <- in_rev.
    - unfold NodePath.isDot. now rewrite N.eqb_refl. }
  rewrite Hafter, rev_involutive.
  rewrite length_app, length_rev. cbn [length].
  replace (length stem + S (length ext) - length ext - 1) with (length stem)
    by lia.
  destruct stem as [|c stem']; [now elim Hstem|]. cbn [length Nat.eqb].
  destruct (str_eqb ((c :: stem') ++ dot :: ext) [dot; dot]) eqn:E;
    [|reflexivity].
  apply str_eqb_eq in E. now elim Hdots.
Qed.

Lemma endsWith_app (s p : jsstring) : endsWith (s ++ p) p = true.
Proof. unfold endsWith. rewrite rev_app_distr. apply startsWith_app. Qed.

(** The stem of [stem.ext]. *)
Lemma basename_stem_ext (stem ext : jsstring) :
  stem <> [] -> ~ In slash stem -> plainExtension ext ->
  NodePath.basename (stem ++ dot :: ext) (dot :: ext) = stem.
Proof.
  intros Hstem Hslash [Hdot Hslash']. unfold NodePath.basename.
  rewrite lastPortion_name.
  2:{ intros Hin. apply in_app_or in Hin. destruct Hin as [Hin|[E|Hin]]; auto.
      discriminate E. }
  cbn [isEmpty negb andb].
  replace (Nat.leb (length (dot :: ext)) (length (stem ++ dot :: ext)))
    with true by (symmetry; apply Nat.leb_le; rewrite length_app; lia).
  destruct (str_eqb (dot :: ext) (stem ++ dot :: ext)) eqn:E.
  { apply str_eqb_eq in E. apply (f_equal (@length _)) in E.
    rewrite length_app in E. destruct stem; [now elim Hstem|cbn in E; lia]. }
  rewrite (endsWith_app stem (dot :: ext)).
  replace (Nat.ltb (length (dot :: ext)) (length (stem ++ dot :: ext)))
    with true.
  2:{ symmetry. apply Nat.ltb_lt. rewrite length_app.
      destruct stem; [now elim Hstem|cbn; lia]. }
  cbn [andb]. rewrite length_app.
  replace (length stem + length (dot :: ext) - length (dot :: ext))
    with (length stem) by lia.
  rewrite firstn_app, firstn_all, Nat.sub_diag. cbn [firstn].
  apply app_nil_r.
Qed.

Lemma decimal_not_In (x : char) (s : jsstring) :
  Forall isDecimalDigit s -> ~ isDecimalDigit x -> ~ In x s.
Proof.
  intros Hs Hx Hin. rewrite Forall_forall in Hs. exact (Hx (Hs _ Hin)).
Qed.

(** The number in the name of a numbered file. *)
Lemma stemNumber_numberedName (n : nat) (ext : jsstring) :
  plainExtension ext ->
  stemNumber (numberedName (n, ext)) = Some (Z.of_nat n).
Proof.
  intros Hext. unfold stemNumber, numberedName. cbn [fst snd].
  pose proof (String_of_nat_decimal n) as Hd.
  pose proof (String_of_nat_not_nil n) as Hne.
  assert (Hslash : ~ In slash (String_of_nat n)).
  { apply (decimal_not_In Hd). unfold isDecimalDigit, slash. lia. }
  assert (Hdots : String_of_nat n ++ dot :: ext <> [dot; dot]).
  { destruct (String_of_nat n) as [|c s]; [now elim Hne|].
    inversion Hd as [|? ? Hc _]; subst. intros E. injection E as -> _.
    unfold isDecimalDigit, dot in Hc. lia. }
  rewrite (extname_stem_ext Hne Hslash Hext Hdots).
  rewrite (basename_stem_ext Hne Hslash Hext).
  apply parseInt_String_of_nat.
Qed.

(** ** Files named after their page number *)

Lemma numberedName_numericStem (page : nat * jsstring) :
  plainExtension (snd page) -> (Z.of_nat (fst page) <= 2 ^ 53)%Z ->
  numericStem (numberedName page)
  /\ stemValue (numberedName page) = Z.of_nat (fst page).
Proof.
  destruct page as [n ext]. cbn [fst snd]. intros Hext Hn.
  pose proof (stemNumber_numberedName n Hext) as H. split.
  - exists (Z.of_nat n). split; [exact H|]. unfold safeInteger. lia.
  - unfold stemValue. now rewrite H.
Qed.

Lemma StronglySorted_numberedName (pages : list (nat * jsstring)) :
  Forall (fun page => plainExtension (snd page)
                      /\ (Z.of_nat (fst page) <= 2 ^ 53)%Z) pages ->
  StronglySorted (fun a b => (stemValue a <= stemValue b)%Z)
    (map numberedName pages) ->
  StronglySorted (fun p q => fst p <= fst q) pages.
Proof.
  induction 1 as [|page pages [Hext Hn] Hall IH]; cbn [map]; intros Hs.
  - constructor.
  - inversion Hs as [|? ? Hrest Hhd]; subst. constructor; [now apply IH|].
    rewrite Forall_map in Hhd. rewrite Forall_forall in *.
    intros q Hq. specialize (Hhd q Hq). destruct (Hall q Hq) as [Hext' Hn'].
    rewrite (proj2 (numberedName_numericStem page Hext Hn)) in Hhd.
    rewrite (proj2 (numberedName_numericStem q Hext' Hn')) in Hhd. lia.
Qed.

(** X1. Files named after their page number ([1.jpg], [2.png], [10.jpg],
    ...) are sorted by that number, whatever their extensions and the
    locale's collation: the sorted list names the same pages, in ascending
    order of the numbers (numbers up to 2^53, which a Number holds
    exactly). *)
Theorem numbered_pages_sorted_by_number
    (localeCompare : jsstring -> jsstring -> Z)
    (pages : list (nat * jsstring)) :
  Forall (fun page => plainExtension (snd page)
                      /\ (Z.of_nat (fst page) <= 2 ^ 53)%Z) pages ->
  exists sortedPages,
    sortFilesNumerically localeCompare (map numberedName pages)
    = map numberedName sortedPages
    /\ Permutation pages sortedPages
    /\ StronglySorted (fun p q => fst p <= fst q) sortedPages.
Proof.
  intros Hpages.
  pose proof (compareFiles_numeric localeCompare) as Hcmp.
  assert (Hnum : Forall numericStem (map numberedName pages)).
  { rewrite Forall_map. apply (Forall_impl _ (P := fun page =>
      plainExtension (snd page) /\ (Z.of_nat (fst page) <= 2 ^ 53)%Z));
      [|exact Hpages].
    intros page [Hext Hn]. exact (proj1 (numberedName_numericStem page Hext Hn)). }
  pose proof (Array_sort_perm (compareFiles localeCompare)
                (map numberedName pages)) as Hperm.
  apply Permutation_sym, Permutation_map_inv in Hperm.
  destruct Hperm as [sortedPages [Hsorted Hperm]].
  exists sortedPages. split; [exact Hsorted|]. split; [exact Hperm|].
  apply StronglySorted_numberedName.
  - rewrite Forall_forall in *. intros page Hin. apply Hpages.
    apply Permutation_in with (l := sortedPages);
      [apply Permutation_sym; exact Hperm | exact Hin].
  - unfold sortFilesNumerically in Hsorted. rewrite <- Hsorted.
    exact (@Array_sort_sorted _ _ stemValue numericStem Hcmp _ Hnum).
Qed.

Lemma numbered_pages_sorted_by_number_witness :
  exists sortedPages,
    sortFilesNumerically codeUnitCompare
      (map numberedName [(10, lit "jpg"); (2, lit "png"); (1, lit "jpg")])
    = map numberedName sortedPages
    /\ Permutation [(10, lit "jpg"); (2, lit "png"); (1, lit "jpg")] sortedPages
    /\ StronglySorted (fun p q => fst p <= fst q) sortedPages.
Proof.
  apply (@numbered_pages_sorted_by_number codeUnitCompare
           [(10, lit "jpg"); (2, lit "png"); (1, lit "jpg")]).
  repeat constructor; cbn; try lia;
    intros H; repeat (destruct H as [H|H]; [discriminate H|]); exact H.
Defined.

(** ** The extension filter *)

Lemma lowerChar_idem (c : char) : lowerChar (lowerChar c) = lowerChar c.
Proof.
  unfold lowerChar.
  destruct (N.leb 65 c && N.leb c 90) eqn:E; [|now rewrite E].
  apply andb_true_iff in E. destruct E as [E1 E2].
  apply N.leb_le in E1, E2.
  replace (N.leb (c + 32) 90) with false by (symmetry; apply N.leb_gt; lia).
  now rewrite andb_false_r.
Qed.

Lemma lowerChar_eqb (c k : char) :
  (k < 65 \/ 122 < k)%N -> N.eqb (lowerChar c) k = N.eqb c k.
Proof.
  intros Hk. unfold lowerChar.
  destruct (N.leb 65 c && N.leb c 90) eqn:E; [|reflexivity].
  apply andb_true_iff in E. destruct E as [E1 E2].
  apply N.leb_le in E1, E2.
  transitivity false; [apply N.eqb_neq | symmetry; apply N.eqb_neq]; lia.
Qed.

Lemma toLowerCase_idem (s : jsstring) :
  toLowerCase (toLowerCase s) = toLowerCase s.
Proof.
  unfold toLowerCase. rewrite map_map. apply map_ext. exact lowerChar_idem.
Qed.

Lemma takeWhile_map (p : char -> bool) (f : char -> char) (s : jsstring) :
  (forall c, p (f c) = p c) ->
  NodePath.takeWhile p (map f s) = map f (NodePath.takeWhile p s).
Proof.
  intros Hp. induction s as [|c s IH]; [reflexivity|].
  cbn. rewrite Hp. destruct (p c); cbn; [now rewrite IH | reflexivity].
Qed.

Lemma dropWhile_map (p : char -> bool) (f : char -> char) (s : jsstring) :
  (forall c, p (f c) = p c) ->
  NodePath.dropWhile p (map f s) = map f (NodePath.dropWhile p s).
Proof.
  intros Hp. induction s as [|c s IH]; [reflexivity|].
  cbn. rewrite Hp. destruct (p c); [exact IH | reflexivity].
Qed.

Lemma isSlash_lowerChar (c : char) :
  NodePath.isSlash (lowerChar c) = NodePath.isSlash c.
Proof. apply lowerChar_eqb. unfold slash. lia. Qed.

Lemma isDot_lowerChar (c : char) :
  NodePath.isDot (lowerChar c) = NodePath.isDot c.
Proof. apply lowerChar_eqb. unfold dot. lia. Qed.

Lemma lastPortion_toLowerCase (p : jsstring) :
  NodePath.lastPortion (toLowerCase p) = toLowerCase (NodePath.lastPortion p).
Proof.
  unfold NodePath.lastPortion, toLowerCase.
  rewrite <- map_rev, dropWhile_map by exact isSlash_lowerChar.
  rewrite takeWhile_map by (intros c; now rewrite isSlash_lowerChar).
  now rewrite map_rev.
Qed.

Lemma str_eqb_dots_toLowerCase (s : jsstring) :
  str_eqb (toLowerCase s) [dot; dot] = str_eqb s [dot; dot].
Proof.
  destruct s as [|a [|b [|c s]]]; try reflexivity; cbn [toLowerCase map str_eqb].
  - now rewrite (isDot_lowerChar a : N.eqb (lowerChar a) dot = _).
  - now rewrite (isDot_lowerChar a : N.eqb (lowerChar a) dot = _),
                (isDot_lowerChar b : N.eqb (lowerChar b) dot = _).
  - now rewrite (isDot_lowerChar a : N.eqb (lowerChar a) dot = _),
                (isDot_lowerChar b : N.eqb (lowerChar b) dot = _).
Qed.

(** [path.extname] and [toLowerCase] commute. *)
Lemma extname_toLowerCase (p : jsstring) :
  NodePath.extname (toLowerCase p) = toLowerCase (NodePath.extname p).
Proof.
  unfold NodePath.extname. rewrite lastPortion_toLowerCase.
  set (part := NodePath.lastPortion p).
  assert (Hex : existsb NodePath.isDot (toLowerCase part)
                = existsb NodePath.isDot part).
  { unfold toLowerCase. induction part as [|c s IH]; [reflexivity|].
    cbn. now rewrite isDot_lowerChar, IH. }
  rewrite Hex. destruct (existsb NodePath.isDot part); [|reflexivity].
  cbn [negb].
  assert (Hafter :
    NodePath.takeWhile (fun c => negb (NodePath.isDot c))
      (rev (toLowerCase part))
    = toLowerCase (NodePath.takeWhile (fun c => negb (NodePath.isDot c))
                     (rev part))).
  { unfold toLowerCase. rewrite <- map_rev.
    apply takeWhile_map. intros c. now rewrite isDot_lowerChar. }
  rewrite !Hafter. unfold toLowerCase at 1 2. rewrite !length_map.
  destruct (Nat.eqb _ 0); [reflexivity|].
  rewrite str_eqb_dots_toLowerCase.
  destruct (str_eqb part [dot; dot]); [reflexivity|].
  unfold toLowerCase. cbn [map]. now rewrite map_rev.
Qed.

(** X2. The extension filter of [readImageFiles] ignores the case of
    letters: a file name and its lower-case form are both taken as images
    or both left out. *)
Theorem isImageFile_ignores_case (file : jsstring) :
  isImageFile (toLowerCase file) = isImageFile file.
Proof.
  unfold isImageFile.
  now rewrite extname_toLowerCase, toLowerCase_idem.
Qed.

Lemma array_includes_In (arr : list jsstring) (x : jsstring) :
  array_includes arr x = true <-> In x arr.
Proof.
  unfold array_includes. rewrite existsb_exists. split.
  - intros [y [Hy E]]. apply str_eqb_eq in E. now subst.
  - intros H. exists x. split; [exact H | apply str_eqb_refl].
Qed.

(** A name without separator that has an extension is a non-empty stem
    followed by the extension. *)
Lemma extname_split (name : jsstring) :
  ~ In slash name -> NodePath.extname name <> [] ->
  exists stem, stem <> [] /\ name = stem ++ NodePath.extname name.
Proof.
  intros Hslash. unfold NodePath.extname. rewrite (@lastPortion_name name Hslash).
  destruct (existsb NodePath.isDot name) eqn:Hex; cbn [negb];
    [|intros H; now elim H].
  pose proof (takeWhile_dropWhile (fun c => negb (NodePath.isDot c))
                (rev name)) as Hsplit.
  destruct (NodePath.dropWhile (fun c => negb (NodePath.isDot c)) (rev name))
    as [|x r] eqn:Hdrop.
  { apply dropWhile_nil in Hdrop. apply existsb_isDot, in_rev in Hex.
    rewrite Forall_forall in Hdrop. specialize (Hdrop _ Hex).
    unfold NodePath.isDot in Hdrop. now rewrite N.eqb_refl in Hdrop. }
  pose proof (@dropWhile_head _ _ _ _ Hdrop) as Hx.
  apply negb_false_iff, N.eqb_eq in Hx. subst x.
  set (after := NodePath.takeWhile (fun c => negb (NodePath.isDot c))
                  (rev name)) in *.
  assert (Hname : name = rev r ++ dot :: rev after).
  { rewrite <- (rev_involutive name), <- Hsplit, rev_app_distr. cbn [rev].
    now rewrite <- app_assoc. }
  assert (Hlen : length name - length after - 1 = length r).
  { rewrite Hname at 1. rewrite length_app. cbn [length].
    rewrite !length_rev. lia. }
  rewrite Hlen. destruct r as [|y r]; cbn [length Nat.eqb];
    [intros H; now elim H|].
  destruct (str_eqb name [dot; dot]); [intros H; now elim H|].
  intros _. exists (rev (y :: r)). split; [|exact Hname].
  cbn [rev]. intros E. now apply app_eq_nil in E.
Qed.

(** Each supported extension is a full stop followed by letters. *)
Lemma supportedExtensions_shape :
  Forall (fun s => exists t, s = dot :: t /\ plainExtension t /\ t <> [])
         supportedExtensions.
Proof.
  unfold supportedExtensions, plainExtension.
  repeat constructor;
    (eexists; split; [reflexivity|]; split; [split|discriminate];
     cbn; intros H;
     repeat (destruct H as [H|H]; [discriminate H|]); exact H).
Qed.

Lemma toLowerCase_In (x : char) (s : jsstring) :
  lowerChar x = x -> In x s -> In x (toLowerCase s).
Proof. intros Hx H. rewrite <- Hx. now apply in_map. Qed.

Lemma supported_extension_shape (ext : jsstring) :
  In (toLowerCase ext) supportedExtensions ->
  exists e, ext = dot :: e /\ plainExtension e /\ e <> [].
Proof.
  intros Hin. pose proof supportedExtensions_shape as Hall.
  rewrite Forall_forall in Hall.
  destruct (Hall _ Hin) as [t [E [[Hdot Hslash] Hne]]].
  destruct ext as [|c e]; [discriminate E|].
  cbn [toLowerCase map] in E. injection E as Hc He.
  assert (c = dot) as ->.
  { apply N.eqb_eq. rewrite <- (isDot_lowerChar c : N.eqb _ dot = N.eqb c dot).
    now apply N.eqb_eq. }
  exists e. split; [reflexivity|]. split; [split|].
  - intros H. apply Hdot. rewrite <- He. now apply toLowerCase_In.
  - intros H. apply Hslash. rewrite <- He. now apply toLowerCase_In.
  - intros ->. now apply Hne.
Qed.

(** X3. In a listing (names without separator), the files that
    [readImageFiles] keeps are exactly the names made of a non-empty stem
    followed by an extension that is, up to the case of letters, one of the
    supported ones; a file named just [.jpg] is not an image. *)
Theorem isImageFile_name_shape (file : jsstring) :
  ~ In slash file ->
  (isImageFile file = true
   <-> exists stem ext,
         file = stem ++ ext /\ stem <> []
         /\ In (toLowerCase ext) supportedExtensions).
Proof.
  intros Hslash. unfold isImageFile. rewrite array_includes_In. split.
  - intros Hin.
    assert (Hext : NodePath.extname file <> []).
    { intros E. rewrite E in Hin. cbn in Hin.
      repeat (destruct Hin as [Hin|Hin]; [discriminate Hin|]). exact Hin. }
    destruct (@extname_split file Hslash Hext) as [stem [Hstem Hfile]].
    exists stem, (NodePath.extname file). auto.
  - intros [stem [ext [Hfile [Hstem Hin]]]].
    destruct (@supported_extension_shape ext Hin) as [e [-> [Hplain He]]].
    subst file.
    rewrite extname_stem_ext; auto.
    + intros H. apply Hslash, in_or_app. now left.
    + intros E. apply (f_equal (@length _)) in E. rewrite length_app in E.
      destruct stem; [now elim Hstem|]. destruct e; [now elim He|].
      cbn in E. lia.
Qed.

Lemma isImageFile_name_shape_witness :
  isImageFile (lit "2.PNG") = true
  <-> exists stem ext,
        lit "2.PNG" = stem ++ ext /\ stem <> []
        /\ In (toLowerCase ext) supportedExtensions.
Proof.
  apply (@isImageFile_name_shape (lit "2.PNG")).
  cbn. intros H. repeat (destruct H as [H|H]; [discriminate H|]). exact H.
Defined.

(** ** Output names *)

(** X4. The name of the output file always ends with the extension of the
    format, and the extension is never appended twice: normalising a
    normalised name changes nothing. *)
Theorem withExtension_normalises (name ext : jsstring) :
  endsWith (withExtension name ext) ext = true
  /\ withExtension (withExtension name ext) ext = withExtension name ext.
Proof.
  assert (H : endsWith (withExtension name ext) ext = true).
  { unfold withExtension. destruct (endsWith name ext) eqn:E;
      [exact E | apply endsWith_app]. }
  split; [exact H|].
  unfold withExtension at 1. now rewrite H.
Qed.

(** ** Folders and files *)

(** X5. [validateFolder] accepts a directory and reports a path that
    holds a file as not being a folder. Where nothing is found it reports
    a folder that was not found, unless the path goes through a file: the
    error of the system is then ENOTDIR, not ENOENT, and is thrown again
    as it is. The world is left as it is. *)
Theorem validateFolder_outcomes (folderPath : jsstring) (w : world) :
  validateFolder folderPath w
  = (w, match fs w (resolve w folderPath) with
        | Some (Dir _) => inr tt
        | Some (File _) => inl (NotAFolder folderPath)
        | None =>
            if throughFile w (resolve w folderPath)
            then inl (ENOTDIR folderPath)
            else inl (FolderNotFound folderPath)
        end).
Proof.
  unfold validateFolder, try_catch, bind, stat, notFound.
  destruct (fs w (resolve w folderPath)) as [[c|entries]|]; try reflexivity.
  destruct (throughFile w (resolve w folderPath)); reflexivity.
Qed.

(** The four outcomes in [exampleWorld]: a folder, an image, a name that
    is not there, and a path through an image. *)
Lemma validateFolder_outcomes_example :
  validateFolder (lit "/data/A") exampleWorld = (exampleWorld, inr tt)
  /\ validateFolder (lit "/data/A/1.jpg") exampleWorld
     = (exampleWorld, inl (NotAFolder (lit "/data/A/1.jpg")))
  /\ validateFolder (lit "/data/C") exampleWorld
     = (exampleWorld, inl (FolderNotFound (lit "/data/C")))
  /\ validateFolder (lit "/data/A/1.jpg/x") exampleWorld
     = (exampleWorld, inl (ENOTDIR (lit "/data/A/1.jpg/x"))).
Proof. repeat split; reflexivity. Qed.

(** X6. The check that every image is still there stops at the first
    path, in the order of the list, at which nothing is found, and
    reports that path; when every file is there it succeeds. It leaves the
    world as it is. *)
Theorem checkFiles_reports_first_missing (imagePaths : list jsstring)
    (w : world) :
  checkFiles imagePaths w
  = (w, match find (missing w) imagePaths with
        | Some imagePath => inl (FileNotFound imagePath)
        | None => inr tt
        end).
Proof.
  induction imagePaths as [|imagePath rest IH]; [reflexivity|].
  cbn [checkFiles find]. unfold bind, try_catch, access, missing at 1.
  destruct (fs w (resolve w imagePath)) as [n|]; [exact IH | reflexivity].
Qed.


(** ** The images and pages of a package *)

Lemma leadingNumber_zeros (k : nat) (s : jsstring) :
  leadingNumber (repeat 48%N k ++ s) = leadingNumber s.
Proof.
  unfold leadingNumber. f_equal. rewrite !digitsValue_fold.
  induction k as [|k IH]; [reflexivity|].
  cbn [repeat app].
  rewrite radixDigits_decimal by (unfold isDecimalDigit; lia).
  cbn [fold_left]. exact IH.
Qed.

Lemma leadingNumber_padStart0 (width n : nat) (rest : jsstring) :
  radixDigits 10 rest = [] ->
  leadingNumber (padStart0 width (String_of_nat n) ++ rest) = n.
Proof.
  intros Hrest. unfold padStart0. rewrite <- app_assoc, leadingNumber_zeros.
  unfold leadingNumber. transitivity (N.to_nat (N.of_nat n));
    [f_equal; exact (leadingNumber_String_of_nat n rest Hrest)
    | apply Nat2N.id].
Qed.

Lemma leadingNumber_decimal (n : nat) :
  leadingNumber (String_of_nat n) = n.
Proof.
  unfold leadingNumber.
  pose proof (leadingNumber_String_of_nat n [] eq_refl) as H.
  rewrite app_nil_r in H. rewrite H. apply Nat2N.id.
Qed.

(** An extension is empty or begins with a full stop. *)
Lemma extname_head (p : jsstring) :
  NodePath.extname p = [] \/ exists e, NodePath.extname p = dot :: e.
Proof.
  unfold NodePath.extname.
  destruct (negb _); [now left|].
  destruct (Nat.eqb _ 0); [now left|].
  destruct (str_eqb _ _); [now left|].
  right. eexists. reflexivity.
Qed.

Lemma radixDigits_extension (p : jsstring) :
  radixDigits 10 (toLowerCase (NodePath.extname p)) = [].
Proof.
  destruct (extname_head p) as [E|[e E]]; rewrite E; reflexivity.
Qed.

Lemma mapi_from_key (A B : Type) (f : A -> nat -> B) (key : B -> nat) :
  (forall x k, key (f x k) = k + 1) ->
  forall l i, map key (mapi_from f i l) = seq (i + 1) (length l).
Proof.
  intros Hkey. induction l as [|x l IH]; intros i; [reflexivity|].
  cbn [mapi_from map length seq]. rewrite Hkey. f_equal.
  rewrite IH. reflexivity.
Qed.

Lemma NoDup_by_key (A : Type) (key : A -> nat) (l : list A) (i : nat) :
  map key l = seq i (length l) -> NoDup l.
Proof.
  intros H. apply (NoDup_map_inv key). rewrite H. apply seq_NoDup.
Qed.

Lemma String_of_nat_map_NoDup (prefix : jsstring) (i n : nat) :
  NoDup (map (fun k => prefix ++ String_of_nat k) (seq i n)).
Proof.
  apply Finite.Injective_map_NoDup; [|apply seq_NoDup].
  intros a b E. apply app_inv_head in E. now apply String_of_nat_inj.
Qed.

(** X7. The images of a book made from one folder are numbered 1, 2, ...
    in the order of the sorted paths, and neither two images nor two pages
    get the same file name in the package: no copy and no page overwrites
    another. *)
Theorem copyImagesToEpub_page_sequence (imagePaths : list jsstring) :
  let imageList :=
    ImageToEpubConverter.createHtmlPages
      (ImageToEpubConverter.imageListOf imagePaths) in
  map ImageToEpubConverter.pageNumber imageList = seq 1 (length imagePaths)
  /\ NoDup (map ImageToEpubConverter.filename imageList)
  /\ NoDup (map ImageToEpubConverter.htmlFile imageList)
  /\ NoDup (map ImageToEpubConverter.id imageList).
Proof.
  cbv zeta. unfold ImageToEpubConverter.createHtmlPages.
  rewrite !map_map. cbn [ImageToEpubConverter.pageNumber
    ImageToEpubConverter.filename ImageToEpubConverter.htmlFile
    ImageToEpubConverter.id].
  unfold ImageToEpubConverter.imageListOf.
  assert (Hpages :
    map ImageToEpubConverter.pageNumber
      (mapi_from (fun imagePath i => ImageToEpubConverter.epubImage i imagePath)
         0 imagePaths)
    = seq 1 (length imagePaths)).
  { apply (mapi_from_key
             (fun imagePath i => ImageToEpubConverter.epubImage i imagePath)
             ImageToEpubConverter.pageNumber).
    reflexivity. }
  split; [exact Hpages|]. split; [|split].
  - apply NoDup_map_inv
      with (f := fun name => leadingNumber (skipn 6 name)).
    rewrite map_map.
    rewrite (mapi_from_key
               (fun imagePath i => ImageToEpubConverter.epubImage i imagePath)
               (fun image =>
                  leadingNumber (skipn 6 (ImageToEpubConverter.filename image)))).
    + apply seq_NoDup.
    + intros imagePath k. cbn [ImageToEpubConverter.epubImage
        ImageToEpubConverter.filename].
      change (skipn 6 (lit "image_" ++ ?s)) with s.
      apply leadingNumber_padStart0, radixDigits_extension.
  - apply NoDup_map_inv
      with (f := fun file =>
                   leadingNumber (skipn 5 (showProperty file))).
    rewrite map_map.
    rewrite (map_ext _ ImageToEpubConverter.pageNumber); [|].
    + rewrite Hpages. apply seq_NoDup.
    + intros image. cbn [showProperty].
      change (skipn 5 (lit "page_" ++ ?s)) with s.
      now apply leadingNumber_padStart0.
  - apply NoDup_map_inv
      with (f := fun id => leadingNumber (skipn 3 id)).
    rewrite map_map.
    rewrite (mapi_from_key
               (fun imagePath i => ImageToEpubConverter.epubImage i imagePath)
               (fun image =>
                  leadingNumber (skipn 3 (ImageToEpubConverter.id image)))).
    + apply seq_NoDup.
    + intros imagePath k. cbn [ImageToEpubConverter.epubImage
        ImageToEpubConverter.id].
      change (skipn 3 (lit "img" ++ ?s)) with s.
      apply leadingNumber_decimal.
Qed.

Lemma mapi_from_project (A B C : Type) (f : A -> nat -> B) (g : B -> C)
    (h : A -> C) :
  (forall x k, g (f x k) = h x) ->
  forall l i, map g (mapi_from f i l) = map h l.
Proof.
  intros H. induction l as [|x l IH]; intros i; [reflexivity|].
  cbn [mapi_from map]. now rewrite H, IH.
Qed.

(** X8. The images of a merged book are numbered 1, 2, ... through the
    whole book in the order in which they were collected, each keeps the
    record it was made from, and neither two images nor two pages get the
    same file name in the package. *)
Theorem merged_copyImagesToEpub_page_sequence
    (allImages : list MergedImageRecord) :
  let imageList :=
    MergeEpubConverter.createHtmlPages
      (MergeEpubConverter.imageListOf allImages) in
  map MergeEpubConverter.pageNumber imageList = seq 1 (length allImages)
  /\ map MergeEpubConverter.originalInfo imageList = allImages
  /\ NoDup (map MergeEpubConverter.filename imageList)
  /\ NoDup (map MergeEpubConverter.htmlFile imageList)
  /\ NoDup (map MergeEpubConverter.id imageList).
Proof.
  cbv zeta. unfold MergeEpubConverter.createHtmlPages.
  rewrite !map_map. cbn [MergeEpubConverter.pageNumber
    MergeEpubConverter.filename MergeEpubConverter.htmlFile
    MergeEpubConverter.id MergeEpubConverter.originalInfo].
  unfold MergeEpubConverter.imageListOf.
  assert (Hpages :
    map MergeEpubConverter.pageNumber
      (mapi_from (fun imageInfo i => MergeEpubConverter.epubImage i imageInfo)
         0 allImages)
    = seq 1 (length allImages)).
  { apply (mapi_from_key
             (fun imageInfo i => MergeEpubConverter.epubImage i imageInfo)
             MergeEpubConverter.pageNumber).
    reflexivity. }
  split; [exact Hpages|]. split; [|split; [|split]].
  - rewrite (mapi_from_project
               (fun imageInfo i => MergeEpubConverter.epubImage i imageInfo)
               MergeEpubConverter.originalInfo (fun r => r));
      [apply map_id | reflexivity].
  - apply NoDup_map_inv
      with (f := fun name => leadingNumber (skipn 6 name)).
    rewrite map_map.
    rewrite (mapi_from_key
               (fun imageInfo i => MergeEpubConverter.epubImage i imageInfo)
               (fun image =>
                  leadingNumber (skipn 6 (MergeEpubConverter.filename image)))).
    + apply seq_NoDup.
    + intros imageInfo k. cbn [MergeEpubConverter.epubImage
        MergeEpubConverter.filename].
      change (skipn 6 (lit "image_" ++ ?s)) with s.
      apply leadingNumber_padStart0, radixDigits_extension.
  - apply NoDup_map_inv
      with (f := fun file =>
                   leadingNumber (skipn 5 (showProperty file))).
    rewrite map_map.
    rewrite (map_ext _ MergeEpubConverter.pageNumber); [|].
    + rewrite Hpages. apply seq_NoDup.
    + intros image. cbn [showProperty].
      change (skipn 5 (lit "page_" ++ ?s)) with s.
      now apply leadingNumber_padStart0.
  - apply NoDup_map_inv
      with (f := fun id => leadingNumber (skipn 3 id)).
    rewrite map_map.
    rewrite (mapi_from_key
               (fun imageInfo i => MergeEpubConverter.epubImage i imageInfo)
               (fun image =>
                  leadingNumber (skipn 3 (MergeEpubConverter.id image)))).
    + apply seq_NoDup.
    + intros imageInfo k. cbn [MergeEpubConverter.epubImage
        MergeEpubConverter.id].
      change (skipn 3 (lit "img" ++ ?s)) with s.
      apply leadingNumber_decimal.
Qed.

(** ** The navigation document of a book made from one folder *)

Lemma single_pages (imagePaths : list jsstring) (i : nat) :
  map (fun image =>
         (ImageToEpubConverter.pageNumber image,
          ImageToEpubConverter.htmlFile image))
      (ImageToEpubConverter.createHtmlPages
         (mapi_from (fun imagePath k => ImageToEpubConverter.epubImage k imagePath)
            i imagePaths))
  = map (fun k => (k, Some (lit "page_" ++ padStart0 3 (String_of_nat k)
                            ++ lit ".xhtml")))
        (seq (i + 1) (length imagePaths)).
Proof.
  revert i. induction imagePaths as [|p l IH]; intros i; [reflexivity|].
  cbn [mapi_from ImageToEpubConverter.createHtmlPages map length seq].
  f_equal. exact (IH (S i)).
Qed.

(** X9. The navigation map of a book made from one folder is flat: one
    point per page, in page order, whose play order is the page number and
    whose target is the file of that page. *)
Theorem flat_navMap_by_page (imagePaths : list jsstring)
    (title uuid : jsstring) :
  Ncx.navMap
    (ImageToEpubConverter.tocDocument
       (ImageToEpubConverter.createHtmlPages
          (ImageToEpubConverter.imageListOf imagePaths)) title uuid)
  = map flatPoint (seq 1 (length imagePaths)).
Proof.
  cbn [ImageToEpubConverter.tocDocument Ncx.navMap].
  pose proof (single_pages imagePaths 0) as H.
  unfold ImageToEpubConverter.imageListOf.
  set (l := ImageToEpubConverter.createHtmlPages _) in *.
  transitivity
    (map (fun ph : nat * option jsstring =>
            {| Ncx.np_id := lit "navpoint-" ++ String_of_nat (fst ph);
               Ncx.np_playOrder := fst ph;
               Ncx.np_label :=
                 Ncx.Pagina ++ lit " " ++ String_of_nat (fst ph);
               Ncx.np_src := lit "text/" ++ showProperty (snd ph) |})
         (map (fun image =>
                 (ImageToEpubConverter.pageNumber image,
                  ImageToEpubConverter.htmlFile image)) l)).
  - rewrite map_map. reflexivity.
  - rewrite H, map_map. reflexivity.
Qed.

(** ** The package document *)

Lemma idKey_img (k : nat) : idKey (lit "img" ++ String_of_nat k) = 2 * k.
Proof.
  unfold idKey. rewrite startsWith_app.
  change (skipn 3 (lit "img" ++ ?s)) with s.
  now rewrite leadingNumber_decimal.
Qed.

Lemma idKey_page (k : nat) : idKey (Opf.pageRef k) = 2 * k + 1.
Proof.
  unfold idKey, Opf.pageRef.
  change (startsWith (lit "page" ++ String_of_nat k) (lit "img")) with false.
  cbv iota. rewrite startsWith_app.
  change (skipn 4 (lit "page" ++ ?s)) with s.
  now rewrite leadingNumber_decimal.
Qed.

Lemma flat_map_pairs_seq (a n : nat) :
  flat_map (fun k => [2 * k; 2 * k + 1]) (seq a n) = seq (2 * a) (2 * n).
Proof.
  revert a. induction n as [|n IH]; intros a; [reflexivity|].
  replace (2 * S n) with (S (S (2 * n))) by lia.
  cbn [seq flat_map app]. rewrite IH.
  replace (2 * a + 1) with (S (2 * a)) by lia.
  replace (2 * S a) with (S (S (2 * a))) by lia.
  reflexivity.
Qed.

(** The [id] attributes of the items of pages [a], [a+1], ... are distinct
    from each other and from [ncx]. *)
Lemma manifest_ids_NoDup (a n : nat) :
  0 < a ->
  NoDup (lit "ncx"
         :: flat_map (fun k => [lit "img" ++ String_of_nat k; Opf.pageRef k])
                     (seq a n)).
Proof.
  intros Ha. apply (NoDup_map_inv idKey).
  cbn [map]. change (idKey (lit "ncx")) with 0.
  assert (Hkeys :
    map idKey
      (flat_map (fun k => [lit "img" ++ String_of_nat k; Opf.pageRef k])
                (seq a n))
    = seq (2 * a) (2 * n)).
  { rewrite <- flat_map_pairs_seq. generalize (seq a n). intros l.
    induction l as [|k l IH]; [reflexivity|].
    cbn [flat_map app map]. now rewrite idKey_img, idKey_page, IH. }
  rewrite Hkeys. constructor; [|apply seq_NoDup].
  rewrite in_seq. lia.
Qed.

Lemma single_manifest_ids (imagePaths : list jsstring) (i : nat) :
  map Opf.item_id
    (flat_map (fun image =>
                 Opf.imageItems (ImageToEpubConverter.id image)
                   (ImageToEpubConverter.filename image)
                   (ImageToEpubConverter.mediaType image)
                   (ImageToEpubConverter.pageNumber image)
                   (ImageToEpubConverter.htmlFile image))
       (ImageToEpubConverter.createHtmlPages
          (mapi_from (fun imagePath k => ImageToEpubConverter.epubImage k imagePath)
             i imagePaths)))
  = flat_map (fun k => [lit "img" ++ String_of_nat k; Opf.pageRef k])
             (seq (i + 1) (length imagePaths)).
Proof.
  revert i. induction imagePaths as [|p l IH]; intros i; [reflexivity|].
  cbn [mapi_from ImageToEpubConverter.createHtmlPages map length seq
       flat_map app].
  cbn [Opf.imageItems app map Opf.item_id]. f_equal. f_equal.
  exact (IH (S i)).
Qed.

Lemma merged_manifest_ids (allImages : list MergedImageRecord) (i : nat) :
  map Opf.item_id
    (flat_map (fun image =>
                 Opf.imageItems (MergeEpubConverter.id image)
                   (MergeEpubConverter.filename image)
                   (MergeEpubConverter.mediaType image)
                   (MergeEpubConverter.pageNumber image)
                   (MergeEpubConverter.htmlFile image))
       (MergeEpubConverter.createHtmlPages
          (mapi_from (fun imageInfo k => MergeEpubConverter.epubImage k imageInfo)
             i allImages)))
  = flat_map (fun k => [lit "img" ++ String_of_nat k; Opf.pageRef k])
             (seq (i + 1) (length allImages)).
Proof.
  revert i. induction allImages as [|p l IH]; intros i; [reflexivity|].
  cbn [mapi_from MergeEpubConverter.createHtmlPages map length seq
       flat_map app].
  cbn [Opf.imageItems app map Opf.item_id]. f_equal. f_equal.
  exact (IH (S i)).
Qed.

Lemma pageRef_in_ids (a n k : nat) :
  In k (seq a n) ->
  In (Opf.pageRef k)
     (flat_map (fun k => [lit "img" ++ String_of_nat k; Opf.pageRef k])
               (seq a n)).
Proof.
  intros H. apply in_flat_map. exists k. split; [exact H|].
  right. now left.
Qed.

Lemma ids_length (a n : nat) :
  length (flat_map (fun k => [lit "img" ++ String_of_nat k; Opf.pageRef k])
                   (seq a n))
  = 2 * n.
Proof.
  revert a. induction n as [|n IH]; intros a; [reflexivity|].
  cbn [seq flat_map app length]. rewrite IH. lia.
Qed.

(** X10. In the package document of a book made from one folder, the
    spine lists the pages in page order, every page of the spine is
    declared in the manifest, the manifest declares the navigation
    document, an image and a page per picture and nothing else, no two of
    its items share an id, and the cover, [img1], is declared as soon as
    there is a picture. *)
Theorem contentOpf_spine_and_manifest (imagePaths : list jsstring)
    (title uuid now : jsstring) :
  let package :=
    ImageToEpubConverter.contentOpf
      (ImageToEpubConverter.createHtmlPages
         (ImageToEpubConverter.imageListOf imagePaths)) title uuid now in
  let ids := map Opf.item_id (Opf.manifest package) in
  Opf.spine package = map Opf.pageRef (seq 1 (length imagePaths))
  /\ incl (Opf.spine package) ids
  /\ length ids = 2 * length imagePaths + 1
  /\ NoDup ids
  /\ (imagePaths <> [] -> In (lit "img1") ids).
Proof.
  cbv zeta. cbn [ImageToEpubConverter.contentOpf Opf.spine Opf.manifest map].
  unfold ImageToEpubConverter.imageListOf.
  rewrite (single_manifest_ids imagePaths 0).
  cbn [Opf.ncxItem Opf.item_id Nat.add].
  assert (Hspine :
    map (fun image => Opf.pageRef (ImageToEpubConverter.pageNumber image))
      (ImageToEpubConverter.createHtmlPages
         (mapi_from (fun imagePath i => ImageToEpubConverter.epubImage i imagePath)
            0 imagePaths))
    = map Opf.pageRef (seq 1 (length imagePaths))).
  { pose proof (single_pages imagePaths 0) as H.
    apply (f_equal (map (fun ph : nat * option jsstring =>
                           Opf.pageRef (fst ph)))) in H.
    rewrite !map_map in H. exact H. }
  rewrite Hspine. split; [reflexivity|]. split; [|split; [|split]].
  - intros r Hr. apply in_map_iff in Hr. destruct Hr as [k [<- Hk]].
    right. now apply pageRef_in_ids.
  - cbn [length]. rewrite ids_length. lia.
  - apply manifest_ids_NoDup. lia.
  - intros Hne. right. destruct imagePaths as [|p l]; [now elim Hne|].
    left. reflexivity.
Qed.

(** X11. The package document of a merged book has the same shape: the
    spine lists the pages in page order through the whole book, every page
    of the spine is declared in the manifest, the manifest holds the
    navigation document and an image and a page per picture, and no two of
    its items share an id. *)
Theorem merged_contentOpf_spine_and_manifest
    (allImages : list MergedImageRecord) (title uuid now : jsstring) :
  let package :=
    MergeEpubConverter.contentOpf
      (MergeEpubConverter.createHtmlPages
         (MergeEpubConverter.imageListOf allImages)) title uuid now in
  let ids := map Opf.item_id (Opf.manifest package) in
  Opf.spine package = map Opf.pageRef (seq 1 (length allImages))
  /\ incl (Opf.spine package) ids
  /\ length ids = 2 * length allImages + 1
  /\ NoDup ids
  /\ (allImages <> [] -> In (lit "img1") ids).
Proof.
  cbv zeta. cbn [MergeEpubConverter.contentOpf Opf.spine Opf.manifest map].
  unfold MergeEpubConverter.imageListOf.
  rewrite (merged_manifest_ids allImages 0).
  cbn [Opf.ncxItem Opf.item_id Nat.add].
  assert (Hspine :
    map (fun image => Opf.pageRef (MergeEpubConverter.pageNumber image))
      (MergeEpubConverter.createHtmlPages
         (mapi_from (fun imageInfo i => MergeEpubConverter.epubImage i imageInfo)
            0 allImages))
    = map Opf.pageRef (seq 1 (length allImages))).
  { unfold MergeEpubConverter.createHtmlPages. rewrite map_map.
    cbn [MergeEpubConverter.pageNumber].
    rewrite <- (map_map MergeEpubConverter.pageNumber Opf.pageRef).
    now rewrite (mapi_from_key
                   (fun imageInfo i => MergeEpubConverter.epubImage i imageInfo)
                   MergeEpubConverter.pageNumber (fun _ _ => eq_refl)
                   allImages 0). }
  rewrite Hspine. split; [reflexivity|]. split; [|split; [|split]].
  - intros r Hr. apply in_map_iff in Hr. destruct Hr as [k [<- Hk]].
    right. now apply pageRef_in_ids.
  - cbn [length]. rewrite ids_length. lia.
  - apply manifest_ids_NoDup. lia.
  - intros Hne. right. destruct allImages as [|p l]; [now elim Hne|].
    left. reflexivity.
Qed.

(** ** Writing output files *)

Lemma update_same (f : jsstring -> option node) (p : jsstring) (n : node) :
  update f p n p = Some n.
Proof. unfold update. now rewrite str_eqb_refl. Qed.

Lemma update_other (f : jsstring -> option node) (p q : jsstring) (n : node) :
  q <> p -> update f p n q = f q.
Proof.
  intros H. unfold update. apply str_eqb_neq in H. now rewrite H.
Qed.

Lemma addEntry_other (f : jsstring -> option node) (parent name q : jsstring) :
  q <> parent -> addEntry f parent name q = f q.
Proof.
  intros H. unfold addEntry.
  destruct (f parent) as [[c|entries]|]; try reflexivity.
  destruct (array_includes entries name); [reflexivity|].
  now apply update_other.
Qed.

Lemma addEntry_parent (f : jsstring -> option node) (parent name : jsstring)
    (entries : list jsstring) :
  f parent = Some (Dir entries) ->
  exists entries', addEntry f parent name parent = Some (Dir entries').
Proof.
  intros H. unfold addEntry. rewrite H.
  destruct (array_includes entries name).
  - exists entries. exact H.
  - exists (entries ++ [name]). apply update_same.
Qed.

(** Writing a file into a directory that exists: the file is there
    afterwards, the directory is still a directory and no other path is
    touched. *)
Lemma writeOutput_written (q : jsstring) (c : content) (w : world)
    (entries : list jsstring) :
  fs w (NodePath.dirname q) = Some (Dir entries) ->
  (forall es, fs w q <> Some (Dir es)) ->
  exists w',
    writeOutput q c w = (w', inr tt)
    /\ fs w' q = Some (File c)
    /\ (exists entries', fs w' (NodePath.dirname q) = Some (Dir entries'))
    /\ (forall p, p <> q -> p <> NodePath.dirname q -> fs w' p = fs w p)
    /\ cwd w' = cwd w /\ console w' = console w
    /\ zipExit w' = zipExit w /\ uuids w' = uuids w.
Proof.
  intros Hdir Hfile.
  assert (Hneq : NodePath.dirname q <> q).
  { intros E. rewrite E in Hdir. exact (Hfile _ Hdir). }
  unfold writeOutput. rewrite Hdir.
  exists (withFs w (update (addEntry (fs w) (NodePath.dirname q)
                              (NodePath.lastPortion q)) q (File c))).
  split.
  { destruct (fs w q) as [[c'|es]|] eqn:E; try reflexivity.
    now elim (Hfile es). }
  cbn [withFs fs cwd console zipExit uuids].
  split; [apply update_same|]. split.
  { rewrite update_other by exact Hneq. eapply addEntry_parent. exact Hdir. }
  split; [|repeat split].
  intros p Hp Hp'. rewrite update_other by exact Hp.
  now apply addEntry_other.
Qed.

(** X12. The archive is made in two passes over what is at the output
    path, which is nothing or an archive. A pass that cannot be started
    rejects with the error of the system, a pass that ends with another
    code than 0 with an error that names the code. A failure of the first
    pass leaves the world as it is; a failure of the second leaves at the
    output path what the first pass made: the mimetype only when nothing
    was there, the older archive otherwise. When both passes succeed, the
    output path holds the package when nothing was there; an older archive
    is updated: it gets the title and the table of contents of the package
    and keeps all its images, those that the package does not name too. *)
Theorem createEpubFile_outcomes (outputPath : jsstring)
    (package : EpubPackage) (w : world) (entries : list jsstring) :
  fs w (NodePath.dirname outputPath) = Some (Dir entries) ->
  archiveOrNothing (fs w outputPath) ->
  let pass1 := fst (zipExit w outputPath) in
  let pass2 := snd (zipExit w outputPath) in
  let first := zipMimetype (fs w outputPath) in
  (forall e, pass1 = ZipNotSpawned e ->
     createEpubFile outputPath package w = (w, inl e))
  /\ (forall code1, pass1 = ZipClosed code1 -> code1 <> 0%Z ->
        createEpubFile outputPath package w
        = (w, inl (ZipMimetypeFailed code1)))
  /\ (pass1 = ZipClosed 0 ->
      (forall e, pass2 = ZipNotSpawned e ->
         exists w',
           createEpubFile outputPath package w = (w', inl e)
           /\ fs w' outputPath = Some (File first))
      /\ (forall code2, pass2 = ZipClosed code2 -> code2 <> 0%Z ->
            exists w',
              createEpubFile outputPath package w
              = (w', inl (ZipContentFailed code2))
              /\ fs w' outputPath = Some (File first))
      /\ (pass2 = ZipClosed 0 ->
          exists w',
            createEpubFile outputPath package w = (w', inr tt)
            /\ fs w' outputPath
               = Some (File (zipContent (fs w outputPath) package))))
  /\ (fs w outputPath = None ->
      first = EpubMimetypeOnly
      /\ zipContent (fs w outputPath) package = Epub package)
  /\ (forall old, fs w outputPath = Some (File (Epub old)) ->
        first = Epub old
        /\ exists updated,
             zipContent (fs w outputPath) package = Epub updated
             /\ epub_title updated = epub_title package
             /\ epub_toc updated = epub_toc package
             /\ incl (epub_images old) (epub_images updated)
             /\ incl (epub_images package) (epub_images updated)).
Proof.
  intros Hdir Harchive pass1 pass2 first.
  assert (Hfile : forall es, fs w outputPath <> Some (Dir es)).
  { intros es E. rewrite E in Harchive. exact Harchive. }
  destruct (@writeOutput_written outputPath first w entries Hdir Hfile)
    as [w1 [Hrun [Hout [[entries1 Hdir1] _]]]].
  assert (Hfile1 : forall es, fs w1 outputPath <> Some (Dir es)).
  { intros es. rewrite Hout. discriminate. }
  assert (Hsecond : zipContent (fs w1 outputPath) package
                    = zipContent (fs w outputPath) package).
  { rewrite Hout. subst first.
    destruct (fs w outputPath) as [[[]|]|]; try reflexivity;
      now elim Harchive. }
  destruct (@writeOutput_written outputPath
              (zipContent (fs w1 outputPath) package) w1 entries1
              Hdir1 Hfile1)
    as [w2 [Hrun2 [Hout2 _]]].
  unfold createEpubFile. subst pass1 pass2.
  destruct (zipExit w outputPath) as [pass1 pass2]. cbn [fst snd].
  split; [|split; [|split; [|split]]].
  - intros e ->. reflexivity.
  - intros code1 -> H. apply Z.eqb_neq in H. now rewrite H.
  - intros ->. cbn [Z.eqb negb]. fold first. rewrite Hrun.
    split; [|split].
    + intros e ->. exists w1. split; [reflexivity | exact Hout].
    + intros code2 -> H. apply Z.eqb_neq in H. rewrite H. cbn [negb].
      exists w1. split; [reflexivity | exact Hout].
    + intros ->. cbn [Z.eqb negb]. exists w2.
      split; [exact Hrun2 | now rewrite Hout2, Hsecond].
  - intros E. subst first. rewrite E. split; reflexivity.
  - intros old E. subst first. rewrite E. split; [reflexivity|].
    exists (updateArchive old package). cbn [zipContent updateArchive
      epub_title epub_toc epub_images].
    repeat split.
    + intros name Hin. apply in_or_app. now left.
    + intros name Hin. apply in_or_app.
      destruct (array_includes (epub_images old) name) eqn:Hold.
      * left. apply array_includes_In. exact Hold.
      * right. apply filter_In. split; [exact Hin | now rewrite Hold].
Qed.

Lemma createEpubFile_outcomes_witness :
  let outputPath := lit "/work/book.epub" in
  let package := {| epub_title := lit "book"; epub_images := [];
                    epub_toc := [] |} in
  let pass1 := fst (zipExit exampleWorld outputPath) in
  let pass2 := snd (zipExit exampleWorld outputPath) in
  let first := zipMimetype (fs exampleWorld outputPath) in
  (forall e, pass1 = ZipNotSpawned e ->
     createEpubFile outputPath package exampleWorld = (exampleWorld, inl e))
  /\ (forall code1, pass1 = ZipClosed code1 -> code1 <> 0%Z ->
        createEpubFile outputPath package exampleWorld
        = (exampleWorld, inl (ZipMimetypeFailed code1)))
  /\ (pass1 = ZipClosed 0 ->
      (forall e, pass2 = ZipNotSpawned e ->
         exists w',
           createEpubFile outputPath package exampleWorld = (w', inl e)
           /\ fs w' outputPath = Some (File first))
      /\ (forall code2, pass2 = ZipClosed code2 -> code2 <> 0%Z ->
            exists w',
              createEpubFile outputPath package exampleWorld
              = (w', inl (ZipContentFailed code2))
              /\ fs w' outputPath = Some (File first))
      /\ (pass2 = ZipClosed 0 ->
          exists w',
            createEpubFile outputPath package exampleWorld = (w', inr tt)
            /\ fs w' outputPath
               = Some (File (zipContent (fs exampleWorld outputPath)
                               package))))
  /\ (fs exampleWorld outputPath = None ->
      first = EpubMimetypeOnly
      /\ zipContent (fs exampleWorld outputPath) package = Epub package)
  /\ (forall old, fs exampleWorld outputPath = Some (File (Epub old)) ->
        first = Epub old
        /\ exists updated,
             zipContent (fs exampleWorld outputPath) package = Epub updated
             /\ epub_title updated = epub_title package
             /\ epub_toc updated = epub_toc package
             /\ incl (epub_images old) (epub_images updated)
             /\ incl (epub_images package) (epub_images updated)).
Proof.
  intros outputPath package.
  apply (@createEpubFile_outcomes outputPath package exampleWorld
           [lit "list.csv"]).
  - reflexivity.
  - vm_compute. exact I.
Defined.

(** The archiver run twice on the same output path, and the archiver
    that cannot be started or ends with a code of its own. The second run
    updates the archive of the first: the image that only the older
    package names stays in it. *)
Lemma createEpubFile_example :
  let outputPath := lit "/work/book.epub" in
  let older := {| epub_title := lit "older";
                  epub_images := map lit ["image_001.jpg"; "image_002.jpg"];
                  epub_toc := [] |} in
  let newer := {| epub_title := lit "newer";
                  epub_images := map lit ["image_001.jpg"];
                  epub_toc := [] |} in
  let zipMissing :=
    {| cwd := cwd exampleWorld; fs := fs exampleWorld;
       zipExit := fun _ => (ZipNotSpawned (ENOENT (lit "zip")), ZipClosed 0);
       uuids := uuids exampleWorld; console := [] |} in
  let zipFailing :=
    {| cwd := cwd exampleWorld; fs := fs exampleWorld;
       zipExit := fun _ => (ZipClosed 0, ZipClosed 12);
       uuids := uuids exampleWorld; console := [] |} in
  let w1 := fst (createEpubFile outputPath older exampleWorld) in
  let w2 := fst (createEpubFile outputPath newer w1) in
  fs w1 outputPath = Some (File (Epub older))
  /\ fs w2 outputPath
     = Some (File (Epub {| epub_title := lit "newer";
                           epub_images :=
                             map lit ["image_001.jpg"; "image_002.jpg"];
                           epub_toc := [] |}))
  /\ createEpubFile outputPath newer zipMissing
     = (zipMissing, inl (ENOENT (lit "zip")))
  /\ snd (createEpubFile outputPath newer zipFailing)
     = inl (ZipContentFailed 12)
  /\ fs (fst (createEpubFile outputPath newer zipFailing)) outputPath
     = Some (File EpubMimetypeOnly).
Proof. vm_compute. repeat split. Qed.

(** ** Batches *)

Lemma try_catch_say (m : M unit) (d : error -> diagnostic) (w : world) :
  snd (try_catch m (fun error => say (d error)) w) = inr tt.
Proof.
  unfold try_catch. destruct (m w) as [w' [e|[]]]; reflexivity.
Qed.

(** X13. A batch is processed entry by entry: processing a list of
    entries is processing its first part and then, in the world that this
    leaves, the rest. No entry, whether it succeeds or fails, stops the
    ones after it. *)
Theorem processCsvEntries_app (localeCompare : jsstring -> jsstring -> Z)
    (entries rest : list CsvEntry) (w : world) :
  ImageToPdfConverter.processCsvEntries localeCompare (entries ++ rest) w
  = ImageToPdfConverter.processCsvEntries localeCompare rest
      (fst (ImageToPdfConverter.processCsvEntries localeCompare entries w))
  /\ ImageToEpubConverter.processCsvEntries localeCompare (entries ++ rest) w
     = ImageToEpubConverter.processCsvEntries localeCompare rest
         (fst (ImageToEpubConverter.processCsvEntries localeCompare entries w)).
Proof.
  split; revert w; induction entries as [|entry entries IH]; intros w;
    try reflexivity.
  - cbn [app ImageToPdfConverter.processCsvEntries]. unfold bind.
    pose proof (try_catch_say
                  (ImageToPdfConverter.processEntry localeCompare entry)
                  (ErrorEntry (nome entry)) w) as H.
    destruct (try_catch _ _ w) as [w' [e|[]]]; [discriminate H | apply IH].
  - cbn [app ImageToEpubConverter.processCsvEntries]. unfold bind.
    pose proof (try_catch_say
                  (ImageToEpubConverter.processEntry localeCompare entry)
                  (ErrorEntry (nome entry)) w) as H.
    destruct (try_catch _ _ w) as [w' [e|[]]]; [discriminate H | apply IH].
Qed.

(** ** A single folder made into a PDF *)

(** What [createPdf] leaves when the place of the output file is a
    directory: the document, and a warning for each image that could not
    be placed. *)
Lemma createPdf_written (imagePaths : list jsstring) (q : jsstring)
    (w : world) (entries : list jsstring) :
  fs w (NodePath.dirname q) = Some (Dir entries) ->
  (forall es, fs w q <> Some (Dir es)) ->
  exists w',
    createPdf imagePaths q w = (w', inr tt)
    /\ fs w' q = Some (File (Pdf imagePaths))
    /\ (exists entries', fs w' (NodePath.dirname q) = Some (Dir entries'))
    /\ (forall p, p <> q -> p <> NodePath.dirname q -> fs w' p = fs w p)
    /\ cwd w' = cwd w
    /\ console w' = console w ++ imageWarnings w imagePaths.
Proof.
  intros Hdir Hfile. rewrite createPdf_spec.
  destruct (printedAll_frame (imageWarnings w imagePaths) w)
    as [Hcwd [Hfs [_ [_ Hconsole]]]].
  rewrite <- Hfs in Hdir, Hfile.
  destruct (@writeOutput_written q (Pdf imagePaths) _ entries Hdir Hfile)
    as [w' [Hrun [Hout [Hdir' [Hother [Hcwd' [Hconsole' _]]]]]]].
  exists w'. rewrite Hfs in Hother.
  repeat split; try assumption; congruence.
Qed.





(** The folder [/data/A] of [exampleWorld], of JPEG images: nothing is
    printed. *)
Lemma single_folder_pdf_run_example :
  let r := ImageToPdfConverter.run codeUnitCompare
             (argv ["node"; "gen-pdf.js"; "/data/A"; "book"]) exampleWorld in
  snd r = 0%Z
  /\ fs (fst r) (lit "/work/book.pdf")
     = Some (File (Pdf (map lit ["/data/A/1.jpg"; "/data/A/2.jpg"])))
  /\ console (fst r) = [].
Proof. vm_compute. repeat split. Qed.

(** ** Merging: what is collected *)


Lemma mapi_from_In (A B : Type) (f : A -> nat -> B) (l : list A) :
  forall (i : nat) (y : B),
    In y (mapi_from f i l) ->
    exists k x, nth_error l k = Some x /\ y = f x (i + k).
Proof.
  induction l as [|x l IH]; intros i y; cbn [mapi_from]; [intros []|].
  intros [<- | Hin].
  - exists 0, x. split; [reflexivity|]. now rewrite Nat.add_0_r.
  - destruct (IH _ _ Hin) as [k [x' [Hk ->]]].
    exists (S k), x'. split; [exact Hk|]. f_equal. lia.
Qed.




Section CollectIndexed.
Variable localeCompare : jsstring -> jsstring -> Z.

(** The folders that the loop adds are entries of the CSV, each at the
    index it records. *)
Lemma collectAllImages_loop_indexed (entries : list CsvEntry) :
  forall i allImages w w' result,
    collectAllImages_loop localeCompare i entries allImages w
    = (w', inr result) ->
    exists folders,
      result = allImages ++ collected folders
      /\ Forall (fun f => i <= cf_index f
                          /\ nth_error entries (cf_index f - i)
                             = Some (cf_entry f)) folders
      /\ Forall (fun f => cf_files f <> []) folders
      /\ Forall (sortedListing localeCompare w) folders.
Proof.
  induction entries as [|entry rest IH]; intros i allImages w w' result.
  - unfold collectAllImages_loop, ret. intros H. inversion H.
    exists []. rewrite app_nil_r. repeat split; constructor.
  - cbn [collectAllImages_loop]. unfold bind at 1.
    destruct (try_catch _ _ w) as [w1 [e | allImages']] eqn:Htry;
      [discriminate|].
    intros Hrest.
    destruct (IH _ _ _ _ _ Hrest) as [folders [-> [Hidx [Hall Hlist]]]].
    destruct (@collectEntry_step localeCompare _ _ _ _ _ _ Htry)
      as [Hsame Hstep].
    assert (Hlist' : Forall (sortedListing localeCompare w) folders).
    { eapply Forall_impl; [|exact Hlist]. intros f [es [Hdir Hfiles]].
      exists es. split; [|exact Hfiles].
      eapply isFolder_sameFiles; [exact Hsame | exact Hdir]. }
    assert (Hidx' :
      Forall (fun f => i <= cf_index f
                       /\ nth_error (entry :: rest) (cf_index f - i)
                          = Some (cf_entry f)) folders).
    { eapply Forall_impl; [|exact Hidx]. intros f [Hle Hnth].
      split; [lia|].
      replace (cf_index f - i) with (S (cf_index f - S i)) by lia.
      exact Hnth. }
    destruct Hstep as [-> | [files [Hne [Hsorted ->]]]].
    + exists folders. repeat split; assumption.
    + exists ({| cf_index := i; cf_entry := entry; cf_files := files |}
              :: folders).
      split; [|split; [|split]].
      * rewrite <- app_assoc. reflexivity.
      * constructor; [|exact Hidx']. cbn [cf_index cf_entry].
        split; [lia|]. now rewrite Nat.sub_diag.
      * constructor; [exact Hne | exact Hall].
      * constructor; [exact Hsorted | exact Hlist'].
Qed.

Lemma sortedListing_images (w : world) (f : CollectedFolder)
    (file : jsstring) :
  sortedListing localeCompare w f -> In file (cf_files f) ->
  isImageFile file = true.
Proof.
  intros [es [_ Hfiles]] Hin. rewrite Hfiles in Hin.
  unfold sortFilesNumerically in Hin.
  apply (Permutation_in _
           (Permutation_sym (Array_sort_perm (compareFiles localeCompare) _)))
    in Hin.
  apply filter_In in Hin. exact (proj2 Hin).
Qed.

(** X16. Every record that [collectAllImages] returns carries, as its
    folder index, the position of its entry in the CSV counted from 1
    (entries that gave no image are counted too), the name of that entry
    and the path of an image file of its folder, and an image index
    between 1 and the number of images of the folder. At least one record
    is returned. *)
Theorem collected_records_invariant (entries : list CsvEntry)
    (w w' : world) (allImages : list MergedImageRecord) :
  collectAllImages localeCompare entries w = (w', inr allImages) ->
  allImages <> [] /\ Forall (recordOf entries) allImages.
Proof.
  unfold collectAllImages, bind.
  destruct (collectAllImages_loop localeCompare 0 entries [] w)
    as [w1 [e | all]] eqn:Hloop; [discriminate|].
  destruct (Nat.eqb (length all) 0) eqn:Hlen; [discriminate|].
  unfold ret. intros H. inversion H; subst. split.
  { intros ->. discriminate Hlen. }
  apply collectAllImages_loop_indexed in Hloop.
  destruct Hloop as [folders [-> [Hidx [_ Hsorted]]]]. cbn [app].
  apply Forall_forall. intros r Hr. unfold collected in Hr.
  apply in_flat_map in Hr. destruct Hr as [f [Hf Hr]].
  rewrite Forall_forall in Hidx, Hsorted.
  destruct (Hidx _ Hf) as [_ Hnth]. rewrite Nat.sub_0_r in Hnth.
  unfold imagesInfo in Hr. apply mapi_from_In in Hr.
  destruct Hr as [k [file [Hk ->]]].
  unfold recordOf. cbn [folderIndex folderName mi_path mi_filename
    imageIndex totalInFolder].
  split; [|split; [lia|split]].
  - exists (cf_entry f). rewrite Nat.add_sub. auto.
  - assert (k < length (cf_files f)).
    { apply nth_error_Some. rewrite Hk. discriminate. }
    lia.
  - apply (@sortedListing_images w f file (Hsorted _ Hf)).
    eapply nth_error_In. exact Hk.
Qed.

(** X17. When no entry of the CSV gives an image, because nothing is at
    the path of its folder, a file is there or the folder lists no image,
    the merge prints one diagnostic per entry, in the order of the CSV,
    and fails: nothing was found in the folders. The diagnostic of a path
    at which nothing is found carries the converter's own error, and the
    system's ENOTDIR when the path goes through a file. *)
Theorem collectAllImages_nothing_collected (entries : list CsvEntry)
    (w : world) (diagnostics : list diagnostic) :
  map (folderOutcome w) entries = map inl diagnostics ->
  collectAllImages localeCompare entries w
  = (fold_left printed diagnostics w, inl NoImagesCollected).
Proof.
  intros H. unfold collectAllImages, bind.
  assert (Hloop : forall i,
    collectAllImages_loop localeCompare i entries [] w
    = (fold_left printed diagnostics w, inr [])).
  { revert w diagnostics H.
    induction entries as [|entry rest IH]; intros w diagnostics H i.
    - destruct diagnostics; [reflexivity | discriminate H].
    - destruct diagnostics as [|d ds]; [discriminate H|].
      cbn [map] in H. injection H as Hd Hrest.
      cbn [collectAllImages_loop fold_left]. unfold bind at 1.
      assert (Hstep :
        try_catch (collectEntry localeCompare i entry [])
          (fun error => say (ErrorEntry (nome entry) error) ;; ret []) w
        = (printed w d, inr [])).
      { unfold folderOutcome in Hd.
        unfold try_catch, collectEntry, bind, validateFolder, try_catch,
          bind, stat, readImageFiles_lenient, try_catch, bind, readdir.
        destruct (fs w (resolve w (caminho entry))) as [[c|files]|] eqn:Hfs.
        - injection Hd as <-. reflexivity.
        - unfold ret at 1 2. rewrite Hfs. unfold ret at 1.
          destruct (Nat.eqb (length (filter isImageFile files)) 0);
            [|discriminate Hd].
          injection Hd as <-. reflexivity.
        - injection Hd as <-. unfold notFound.
          destruct (throughFile w (resolve w (caminho entry)));
            reflexivity. }
      rewrite Hstep. apply IH. exact Hrest. }
  now rewrite Hloop.
Qed.

End CollectIndexed.

Lemma collected_records_invariant_witness :
  let allImages :=
    imagesInfo 1 (cf_entry folderA) (cf_files folderA)
    ++ imagesInfo 2 (cf_entry folderB) (cf_files folderB) in
  allImages <> [] /\ Forall (recordOf exampleEntries) allImages.
Proof.
  intros allImages.
  apply (@collected_records_invariant codeUnitCompare exampleEntries
           exampleWorld
           (printed exampleWorld (WarnNoImages (lit "/data/empty")))
           allImages).
  vm_compute. reflexivity.
Defined.

Lemma collectAllImages_nothing_collected_witness :
  let entries :=
    [ {| nome := lit "vazio"; caminho := lit "/data/empty" |};
      {| nome := lit "X"; caminho := lit "/nowhere" |};
      {| nome := lit "csv"; caminho := lit "/work/list.csv" |};
      {| nome := lit "Y"; caminho := lit "/data/A/1.jpg/x" |} ] in
  let diagnostics :=
    [ WarnNoImages (lit "/data/empty");
      ErrorEntry (lit "X") (FolderNotFound (lit "/nowhere"));
      ErrorEntry (lit "csv") (NotAFolder (lit "/work/list.csv"));
      ErrorEntry (lit "Y") (ENOTDIR (lit "/data/A/1.jpg/x")) ] in
  collectAllImages codeUnitCompare entries exampleWorld
  = (fold_left printed diagnostics exampleWorld, inl NoImagesCollected).
Proof.
  intros entries diagnostics.
  apply (@collectAllImages_nothing_collected codeUnitCompare entries
           exampleWorld diagnostics).
  vm_compute. reflexivity.
Defined.

(** ** A CSV file that is not there *)

Lemma access_missing (p : jsstring) (w : world) (e : error) :
  missing w p = true ->
  try_catch (access p) (fun _ => throw e) w = (w, inl e).
Proof.
  unfold missing, try_catch, access, throw.
  destruct (fs w (resolve w p)); [discriminate | reflexivity].
Qed.

(** X18. When the CSV file named on the command line is not there, each
    of the four converters prints that the file was not found and ends with
    status 1; nothing else is printed and no file is touched. *)
Theorem run_without_csv_file (localeCompare : jsstring -> jsstring -> Z)
    (w : world) (node script csvFile outputName : jsstring)
    (more : list jsstring) :
  missing w csvFile = true ->
  outputName <> [] ->
  let failed := (printed w (ErrorFatal (CsvFileNotFound csvFile)), 1%Z) in
  ImageToPdfConverter.run localeCompare [node; script; csvFile] w = failed
  /\ ImageToEpubConverter.run localeCompare [node; script; csvFile] w = failed
  /\ MergePdfConverter.run localeCompare
       (node :: script :: csvFile :: outputName :: more) w = failed
  /\ MergeEpubConverter.run localeCompare
       (node :: script :: csvFile :: outputName :: more) w = failed.
Proof.
  intros Hmissing Hname failed.
  pose proof (@access_missing csvFile w (CsvFileNotFound csvFile) Hmissing)
    as Haccess.
  destruct outputName as [|c name]; [now elim Hname|].
  unfold ImageToPdfConverter.run, ImageToEpubConverter.run,
    MergePdfConverter.run, MergeEpubConverter.run, exitStatus,
    ImageToPdfConverter.runBody, ImageToEpubConverter.runBody,
    MergePdfConverter.runBody, MergeEpubConverter.runBody,
    validateArguments, validateMergeArguments.
  cbn [length Nat.ltb Nat.leb Nat.eqb nth isEmpty].
  repeat split; unfold bind at 1, ret at 1; unfold bind at 1;
    rewrite Haccess; reflexivity.
Qed.

Lemma run_without_csv_file_witness :
  let failed :=
    (printed exampleWorld (ErrorFatal (CsvFileNotFound (lit "none.csv"))),
     1%Z) in
  ImageToPdfConverter.run codeUnitCompare
    [lit "node"; lit "gen-pdf.js"; lit "none.csv"] exampleWorld = failed
  /\ ImageToEpubConverter.run codeUnitCompare
       [lit "node"; lit "gen-pdf.js"; lit "none.csv"] exampleWorld = failed
  /\ MergePdfConverter.run codeUnitCompare
       [lit "node"; lit "gen-pdf.js"; lit "none.csv"; lit "all"] exampleWorld
     = failed
  /\ MergeEpubConverter.run codeUnitCompare
       [lit "node"; lit "gen-pdf.js"; lit "none.csv"; lit "all"] exampleWorld
     = failed.
Proof.
  apply (@run_without_csv_file codeUnitCompare exampleWorld (lit "node")
           (lit "gen-pdf.js") (lit "none.csv") (lit "all") []).
  - reflexivity.
  - discriminate.
Defined.

(** ** The analyzer *)

Lemma readCsvContent_csvContent (folders : list CsvEntry) :
  folders <> [] -> Forall writableEntry folders ->
  readCsvContent (Analyzer.csvContent folders)
  = (inr (map written folders), []).
Proof.
  intros Hne Hall. rewrite csvContent_written by exact Hne.
  apply readCsvContent_lines.
  - destruct folders; [now elim Hne | discriminate].
  - rewrite Forall_map. eapply Forall_impl; [|exact Hall].
    intros f. apply written_plain.
Qed.

Lemma resolve_absolute (w : world) (p : jsstring) :
  NodePath.isAbsolute p = true -> resolve w p = p.
Proof. intros H. unfold resolve. now rewrite H. Qed.

Lemma resolve_isAbsolute (w : world) (p : jsstring) :
  NodePath.isAbsolute (cwd w) = true ->
  NodePath.isAbsolute (resolve w p) = true.
Proof.
  intros Hcwd. unfold resolve.
  destruct (NodePath.isAbsolute p) eqn:E; [exact E|].
  unfold NodePath.join. destruct (cwd w); [discriminate Hcwd | exact Hcwd].
Qed.

(** X19. What the analyzer writes, the converters read: when the
    directory of the output file is there and the folders have names and
    paths that a line of the CSV can hold, [generateCSV] succeeds and
    returns the absolute path of the file, and [readCsvFile] on that path
    returns the records as they were written, in the same order, without
    printing a warning. *)
Theorem generateCSV_then_readCsvFile (folders : list CsvEntry)
    (outputPath : jsstring) (w : world) (dirEntries : list jsstring) :
  let csvPath := resolve w outputPath in
  folders <> [] ->
  Forall writableEntry folders ->
  NodePath.isAbsolute (cwd w) = true ->
  fs w (NodePath.dirname csvPath) = Some (Dir dirEntries) ->
  (forall es, fs w csvPath <> Some (Dir es)) ->
  exists w',
    Analyzer.generateCSV folders outputPath w = (w', inr csvPath)
    /\ readCsvFile csvPath w' = (w', inr (map written folders)).
Proof.
  intros csvPath Hne Hall Hcwd Hdir Hfile.
  destruct (@writeOutput_written csvPath
              (Text (Analyzer.csvContent folders)) w dirEntries Hdir Hfile)
    as [w' [Hrun [Hout [_ [_ [Hcwd' _]]]]]].
  exists w'. split.
  - unfold Analyzer.generateCSV, try_catch, bind, Analyzer.writeFileSync,
      resolveM.
    fold csvPath. rewrite Hrun. subst csvPath. unfold resolve.
    now rewrite Hcwd'.
  - unfold readCsvFile, readFile.
    assert (Hres : resolve w' csvPath = csvPath).
    { apply resolve_absolute. now apply resolve_isAbsolute. }
    rewrite Hres, Hout.
    rewrite (readCsvContent_csvContent Hne Hall), app_nil_r.
    destruct w'. reflexivity.
Qed.

Lemma generateCSV_then_readCsvFile_witness :
  let folders :=
    [ {| nome := lit "Tomo 1"; caminho := lit "/data/A" |};
      {| nome := lit "a;b"; caminho := lit "/data/B" |} ] in
  exists w',
    Analyzer.generateCSV folders (lit "out.csv") exampleWorld
    = (w', inr (lit "/work/out.csv"))
    /\ readCsvFile (lit "/work/out.csv") w' = (w', inr (map written folders)).
Proof.
  intros folders.
  apply (@generateCSV_then_readCsvFile folders (lit "out.csv") exampleWorld
           [lit "list.csv"]).
  - discriminate.
  - repeat constructor; cbn; try discriminate;
      intros H; repeat (destruct H as [H|H]; [discriminate H|]); exact H.
  - reflexivity.
  - reflexivity.
  - intros es. vm_compute. discriminate.
Defined.

(** X20. [generateCSV] does not make the directory of its output file:
    when nothing is at the path and the directory that is to hold it is
    missing, with no file on the way to it, the call fails with the
    system's ENOENT, wrapped as a failure of the generation, and nothing
    is written. The error names the output path as it was given, not the
    absolute path that it resolves to. *)
Theorem generateCSV_needs_directory (folders : list CsvEntry)
    (outputPath : jsstring) (w : world) :
  let csvPath := resolve w outputPath in
  fs w csvPath = None ->
  fs w (NodePath.dirname csvPath) = None ->
  throughFile w csvPath = false ->
  Analyzer.generateCSV folders outputPath w
  = (w, inl (GenerateCsvError (ENOENT outputPath))).
Proof.
  intros csvPath Hfile Hdir Hthrough.
  unfold Analyzer.generateCSV, try_catch, bind, Analyzer.writeFileSync,
    writeOutput.
  fold csvPath. now rewrite Hfile, Hdir, Hthrough.
Qed.

(** A path relative to the working directory, in which no directory
    [csv] is. *)
Lemma generateCSV_needs_directory_witness :
  Analyzer.generateCSV exampleEntries (lit "csv/uuid.csv") exampleWorld
  = (exampleWorld, inl (GenerateCsvError (ENOENT (lit "csv/uuid.csv")))).
Proof.
  apply (@generateCSV_needs_directory exampleEntries
           (lit "csv/uuid.csv") exampleWorld); reflexivity.
Defined.

Lemma listImmediateFolders_loop_spec (w : world) (targetPath : jsstring)
    (items : list jsstring) :
  Analyzer.listImmediateFolders_loop w targetPath items
  = match find (missing w) (map (NodePath.join targetPath) items) with
    | Some fullPath => inl (Analyzer.SystemError (ENOENT fullPath))
    | None =>
        inr (map (folderRecord targetPath)
               (filter (isSubfolder w targetPath) items))
    end.
Proof.
  induction items as [|item rest IH]; [reflexivity|].
  cbn [Analyzer.listImmediateFolders_loop map find filter].
  unfold missing at 1, isSubfolder at 1.
  destruct (fs w (resolve w (NodePath.join targetPath item))) as [[c|es]|];
    [| |reflexivity]; rewrite IH;
    destruct (find (missing w) (map (NodePath.join targetPath) rest));
    reflexivity.
Qed.

(** X21. [listImmediateFolders] returns a record for each item of the
    directory that is a directory itself, and for no other, in the order
    in which the directory lists them; the record has the item's name and
    the item's path under the directory. A path that holds nothing, a
    path that holds a file and an item that is listed but not there any
    more are each reported, wrapped as a failure of the listing. *)
Theorem listImmediateFolders_outcomes (w : world) (targetPath : jsstring) :
  Analyzer.listImmediateFolders w targetPath
  = match fs w (resolve w targetPath) with
    | None =>
        inl (Analyzer.ListFoldersError (Analyzer.PathNotFound targetPath))
    | Some (File _) =>
        inl (Analyzer.ListFoldersError (Analyzer.NotADirectory targetPath))
    | Some (Dir items) =>
        match find (missing w) (map (NodePath.join targetPath) items) with
        | Some fullPath =>
            inl (Analyzer.ListFoldersError
                   (Analyzer.SystemError (ENOENT fullPath)))
        | None =>
            inr (map (folderRecord targetPath)
                   (filter (isSubfolder w targetPath) items))
        end
    end.
Proof.
  unfold Analyzer.listImmediateFolders, Analyzer.listImmediateFolders_try.
  destruct (fs w (resolve w targetPath)) as [[c|items]|]; try reflexivity.
  rewrite listImmediateFolders_loop_spec.
  destruct (find (missing w) (map (NodePath.join targetPath) items));
    reflexivity.
Qed.

(** ** The CSV reader: white space, header and fields *)

Lemma trimStart_split (s : jsstring) :
  exists pre, forallb isWhiteSpace pre = true /\ s = pre ++ trimStart s.
Proof.
  induction s as [|c s [pre [Hpre Hs]]]; [exists []; split; reflexivity|].
  cbn [trimStart]. destruct (isWhiteSpace c) eqn:Hc.
  - exists (c :: pre). cbn [forallb app]. rewrite Hc, Hpre.
    split; [reflexivity | now f_equal].
  - exists []. split; reflexivity.
Qed.

Lemma trimStart_hd (s : jsstring) : isWhiteSpace (hd 0%N (trimStart s)) = false.
Proof.
  induction s as [|c s IH]; [reflexivity|].
  cbn [trimStart]. destruct (isWhiteSpace c) eqn:Hc; [exact IH | exact Hc].
Qed.

Lemma trimStart_app_whitespace (ws s : jsstring) :
  forallb isWhiteSpace ws = true -> trimStart (ws ++ s) = trimStart s.
Proof.
  induction ws as [|c ws IH]; [reflexivity|].
  cbn [forallb app trimStart]. rewrite andb_true_iff. intros [Hc Hws].
  rewrite Hc. auto.
Qed.

Lemma forallb_rev (p : char -> bool) (s : jsstring) :
  forallb p (rev s) = forallb p s.
Proof.
  induction s as [|c s IH]; [reflexivity|].
  cbn [rev forallb]. rewrite forallb_app, IH. cbn [forallb].
  rewrite andb_true_r. apply andb_comm.
Qed.

Lemma trimEnd_app_whitespace (s ws : jsstring) :
  forallb isWhiteSpace ws = true -> trimEnd (s ++ ws) = trimEnd s.
Proof.
  intros H. unfold trimEnd. rewrite rev_app_distr.
  rewrite trimStart_app_whitespace; [reflexivity|].
  now rewrite forallb_rev.
Qed.

Lemma trimEnd_split (s : jsstring) :
  exists suffix, forallb isWhiteSpace suffix = true /\ s = trimEnd s ++ suffix.
Proof.
  destruct (trimStart_split (rev s)) as [pre [Hpre Hs]].
  exists (rev pre). split; [now rewrite forallb_rev|].
  unfold trimEnd. rewrite <- rev_app_distr, <- Hs. symmetry.
  apply rev_involutive.
Qed.

Lemma trimEnd_last_char (s : jsstring) :
  isWhiteSpace (last (trimEnd s) 0%N) = false.
Proof.
  unfold trimEnd. pose proof (trimStart_hd (rev s)) as H.
  destruct (trimStart (rev s)) as [|c t] eqn:E; [reflexivity|].
  rewrite <- rev_head_last.
  - now rewrite rev_involutive.
  - cbn [rev]. intros E'. now apply app_eq_nil in E'.
Qed.

Lemma trimEnd_hd (s : jsstring) :
  isWhiteSpace (hd 0%N s) = false -> isWhiteSpace (hd 0%N (trimEnd s)) = false.
Proof.
  intros H. destruct (trimEnd_split s) as [suffix [_ Hs]].
  destruct (trimEnd s) as [|c t]; [reflexivity|].
  rewrite Hs in H. exact H.
Qed.

(** [trim] leaves no white space at either end, so trimming twice is
    trimming once. *)
Lemma trim_idem (s : jsstring) : trim (trim s) = trim s.
Proof.
  apply trim_fixed; unfold trim.
  - apply trimEnd_hd, trimStart_hd.
  - apply trimEnd_last_char.
Qed.

Lemma trim_In (x : char) (s : jsstring) : In x (trim s) -> In x s.
Proof.
  unfold trim. intros H.
  destruct (trimStart_split s) as [pre [_ Hs]].
  destruct (trimEnd_split (trimStart s)) as [suffix [_ Ht]].
  rewrite Hs, Ht. apply in_or_app. right. apply in_or_app. now left.
Qed.

Lemma trim_app_whitespace (ws s ws' : jsstring) :
  forallb isWhiteSpace ws = true -> forallb isWhiteSpace ws' = true ->
  trim (ws ++ s ++ ws') = trim s.
Proof.
  intros Hws Hws'. unfold trim. rewrite (@trimStart_app_whitespace ws (s ++ ws') Hws).
  destruct (trimStart_split s) as [pre [Hpre Hs]].
  pose proof (trimStart_hd s) as Hhd.
  destruct (trimStart s) as [|c t] eqn:E.
  - rewrite app_nil_r in Hs. subst s.
    rewrite trimStart_whitespace; [reflexivity|].
    rewrite forallb_app, Hpre, Hws'. reflexivity.
  - rewrite Hs at 1. rewrite <- app_assoc.
    rewrite (@trimStart_app_whitespace pre ((c :: t) ++ ws') Hpre).
    cbn [app trimStart]. cbn [hd] in Hhd. rewrite Hhd.
    exact (@trimEnd_app_whitespace (c :: t) ws' Hws').
Qed.

(** X22. White space, blank lines included, before the first line and
    after the last line of the CSV is ignored: the entries returned and
    the warnings printed are the same. The line numbers that the warnings
    name therefore count from the first line that is not blank. *)
Theorem readCsvContent_ignores_surrounding_whitespace
    (ws content ws' : jsstring) :
  forallb isWhiteSpace ws = true -> forallb isWhiteSpace ws' = true ->
  readCsvContent (ws ++ content ++ ws') = readCsvContent content.
Proof.
  intros Hws Hws'. unfold readCsvContent, readCsvFile_try.
  now rewrite (@trim_app_whitespace ws content ws' Hws Hws').
Qed.

Lemma readCsvContent_ignores_surrounding_whitespace_witness :
  readCsvContent ([LF; LF] ++ lit "third line" ++ [LF])
  = readCsvContent (lit "third line").
Proof.
  apply (@readCsvContent_ignores_surrounding_whitespace
           [LF; LF] (lit "third line") [LF]); reflexivity.
Defined.

Lemma readCsvFile_loop_row (r : CsvEntry) (rest : list jsstring) (i : nat) :
  plainEntry r ->
  readCsvFile_loop (S i) (csvLine r :: rest)
  = (r :: fst (readCsvFile_loop (S (S i)) rest),
     snd (readCsvFile_loop (S (S i)) rest)).
Proof.
  intros Hr. cbn [readCsvFile_loop].
  destruct (readCsvFile_loop (S (S i)) rest) as [entries warns].
  cbn [fst snd]. rewrite (@csvLine_trim r Hr).
  destruct Hr as [[[Hn [Hnh [Hnl [Hnq Hnf]]]] Hns]
                  [[Hc [Hch [Hcl [Hcq Hcf]]]] Hcs]].
  assert (Hline : isEmpty (csvLine r) = false)
    by (unfold csvLine; destruct (nome r); [congruence | reflexivity]).
  rewrite Hline. cbn [Nat.eqb andb].
  unfold csvLine. rewrite parseCsvLine_two_fields by assumption.
  cbn [length Nat.ltb Nat.leb nth].
  rewrite (trim_fixed _ Hnh Hnl), (trim_fixed _ Hch Hcl).
  destruct r as [n c]; cbn [nome caminho] in *.
  destruct n; [congruence|]. destruct c; [congruence|]. reflexivity.
Qed.

(** X23. The header is recognised by its words, on the first line only.
    A first line that holds both [nome] and [caminho], whatever the case
    of the letters, is left out without a warning, even when it is a well
    formed row of data; the same line further down is read as the entry
    it holds. *)
Theorem header_words_only_on_first_line (r : CsvEntry)
    (rest : list jsstring) :
  plainEntry r ->
  includes (toLowerCase (csvLine r)) (lit "nome") = true ->
  includes (toLowerCase (csvLine r)) (lit "caminho") = true ->
  readCsvFile_loop 0 (csvLine r :: rest) = readCsvFile_loop 1 rest
  /\ forall i,
       readCsvFile_loop (S i) (csvLine r :: rest)
       = (r :: fst (readCsvFile_loop (S (S i)) rest),
          snd (readCsvFile_loop (S (S i)) rest)).
Proof.
  intros Hr Hnome Hcaminho. split.
  - cbn [readCsvFile_loop].
    destruct (readCsvFile_loop 1 rest) as [entries warns].
    rewrite (@csvLine_trim r Hr), Hnome, Hcaminho.
    destruct (isEmpty (csvLine r)); reflexivity.
  - intros i. now apply readCsvFile_loop_row.
Qed.

Lemma header_words_only_on_first_line_witness :
  let r := {| nome := lit "Nome do livro"; caminho := lit "/caminho/1" |} in
  let rest := [lit "B;/data/B"] in
  readCsvFile_loop 0 (csvLine r :: rest) = readCsvFile_loop 1 rest
  /\ forall i,
       readCsvFile_loop (S i) (csvLine r :: rest)
       = (r :: fst (readCsvFile_loop (S (S i)) rest),
          snd (readCsvFile_loop (S (S i)) rest)).
Proof.
  intros r rest.
  apply (@header_words_only_on_first_line r rest).
  - repeat split; cbn; try discriminate;
      intros H; repeat (destruct H as [H|H]; [discriminate H|]); exact H.
  - vm_compute. reflexivity.
  - vm_compute. reflexivity.
Defined.

Lemma parseCsvLine_nth_quoteFree (line : jsstring) (k : nat) :
  quoteFree (nth k (parseCsvLine line) []).
Proof.
  assert (H : Forall quoteFree (parseCsvLine line)).
  { apply parseCsvLine_loop_quoteFree; [constructor | intros []]. }
  destruct (nth_in_or_default k (parseCsvLine line) []) as [Hin | ->].
  - rewrite Forall_forall in H. now apply H.
  - intros [].
Qed.

Lemma trim_validField (s : jsstring) :
  quoteFree s -> trim s <> [] -> validField (trim s).
Proof.
  intros Hq Hne. split; [exact Hne|]. split; [apply trim_idem|].
  intros Hin. apply Hq. now apply trim_In.
Qed.

Lemma readCsvFile_loop_valid (lines : list jsstring) :
  forall i, Forall validEntry (fst (readCsvFile_loop i lines)).
Proof.
  induction lines as [|raw rest IH]; intros i; [constructor|].
  cbn [readCsvFile_loop]. specialize (IH (S i)).
  destruct (readCsvFile_loop (S i) rest) as [entries warns]. cbn [fst] in IH.
  destruct (isEmpty (trim raw)); [exact IH|].
  destruct (Nat.eqb i 0 && includes (toLowerCase (trim raw)) (lit "nome")
            && includes (toLowerCase (trim raw)) (lit "caminho"));
    [exact IH|].
  destruct (Nat.ltb (length (parseCsvLine (trim raw))) 2); [exact IH|].
  pose proof (@trim_validField _ (parseCsvLine_nth_quoteFree (trim raw) 0))
    as Hn.
  pose proof (@trim_validField _ (parseCsvLine_nth_quoteFree (trim raw) 1))
    as Hp.
  destruct (trim (nth 0 (parseCsvLine (trim raw)) [])) as [|c n] eqn:En;
    [exact IH|].
  destruct (trim (nth 1 (parseCsvLine (trim raw)) [])) as [|c' p] eqn:Ep;
    [exact IH|].
  cbn [isEmpty orb fst]. constructor; [|exact IH].
  split; cbn [nome caminho]; [apply Hn | apply Hp]; discriminate.
Qed.

(** X24. Every entry that the CSV reader returns has a name and a path
    that are not empty, have no white space at either end and hold no
    double quote; and when the reader returns, it returns at least one
    entry. *)
Theorem readCsvFile_entries_are_valid (content : jsstring)
    (entries : list CsvEntry) :
  parseCsv content = inr entries ->
  entries <> [] /\ Forall validEntry entries.
Proof.
  unfold parseCsv, readCsvContent, readCsvFile_try.
  destruct (Nat.eqb (length (split LF (trim content))) 0);
    [discriminate|].
  pose proof (readCsvFile_loop_valid (split LF (trim content)) 0) as Hvalid.
  destruct (readCsvFile_loop 0 (split LF (trim content))) as [es warns].
  cbn [fst] in Hvalid.
  destruct (Nat.eqb (length es) 0) eqn:Hlen; [discriminate|].
  cbn [fst]. intros H. injection H as <-. split; [|exact Hvalid].
  intros ->. discriminate Hlen.
Qed.

Lemma readCsvFile_entries_are_valid_witness :
  exampleEntries <> [] /\ Forall validEntry exampleEntries.
Proof.
  apply (@readCsvFile_entries_are_valid
           (lit "nome;caminho" ++ [LF]
            ++ lit "vazio;/data/empty" ++ [LF]
            ++ lit "A;/data/A" ++ [LF]
            ++ lit "B;/data/B" ++ [LF])
           exampleEntries).
  vm_compute. reflexivity.
Defined.

(** ** What a batch leaves alone *)

Lemma writeOutput_frame (q : jsstring) (c : content) (w : world) :
  cwd (fst (writeOutput q c w)) = cwd w
  /\ forall p, p <> q -> p <> NodePath.dirname q ->
               fs (fst (writeOutput q c w)) p = fs w p.
Proof.
  unfold writeOutput.
  destruct (fs w q) as [[c'|es]|];
    destruct (fs w (NodePath.dirname q)) as [[c''|es']|];
    cbn [fst withFs cwd fs]; split; try reflexivity;
    intros p Hp Hp'; rewrite update_other by exact Hp;
    now apply addEntry_other.
Qed.

Lemma processEntry_pdf_frame (localeCompare : jsstring -> jsstring -> Z)
    (w : world) (entry : CsvEntry) :
  ~ In slash (nome entry) ->
  forall w' r,
    ImageToPdfConverter.processEntry localeCompare entry w = (w', r) ->
    cwd w' = cwd w
    /\ forall p, outsidePdfDirectory w p -> fs w' p = fs w p.
Proof.
  intros Hname w' r. unfold ImageToPdfConverter.processEntry.
  unfold bind at 1.
  pose proof (validateFolder_world (caminho entry) w) as H1.
  destruct (validateFolder (caminho entry) w) as [w1 [e | u]];
    cbn [fst] in H1; subst w1;
    [intros H; inversion H; subst; auto|].
  unfold bind at 1. unfold ImageToPdfConverter.readImageFiles.
  pose proof (readImageFiles_orThrow_world (caminho entry) w) as H2.
  destruct (readImageFiles_orThrow (caminho entry) w) as [w2 [e | imageFiles]];
    cbn [fst] in H2; subst w2;
    [intros H; inversion H; subst; auto|].
  unfold bind at 1.
  set (imagePaths := map (NodePath.join (caminho entry))
                         (sortFilesNumerically localeCompare imageFiles)).
  pose proof (checkFiles_world imagePaths w) as H3.
  destruct (checkFiles imagePaths w) as [w3 [e | u']];
    cbn [fst] in H3; subst w3;
    [intros H; inversion H; subst; auto|].
  unfold bind, resolveM. rewrite createPdf_spec.
  assert (Hout : exists name, ~ In slash name
            /\ (if endsWith (nome entry) (lit ".pdf")
                then lit "pdf/" ++ nome entry
                else lit "pdf/" ++ nome entry ++ lit ".pdf")
               = lit "pdf/" ++ name).
  { destruct (endsWith (nome entry) (lit ".pdf")).
    - exists (nome entry). split; [exact Hname | reflexivity].
    - exists (nome entry ++ lit ".pdf"). split; [|reflexivity].
      rewrite in_app_iff. intros [H | H]; [exact (Hname H)|].
      cbn in H. repeat (destruct H as [H | H]; [discriminate H|]). exact H. }
  destruct Hout as [name [Hslash ->]].
  rewrite resolve_in_pdfDirectory.
  destruct (printedAll_frame (imageWarnings w imagePaths) w)
    as [Hcwd0 [Hfs0 _]].
  destruct (writeOutput_frame (pdfDirectory w ++ [slash] ++ name)
              (Pdf imagePaths) (printedAll w (imageWarnings w imagePaths)))
    as [Hcwd Hfs].
  intros H. rewrite H in Hcwd, Hfs. cbn [fst] in Hcwd, Hfs.
  rewrite Hcwd0 in Hcwd. rewrite Hfs0 in Hfs.
  split; [exact Hcwd|].
  intros p [Hp Hunder]. apply Hfs; [apply Hunder|].
  rewrite (@dirname_in_directory _ _ (pdfDirectory_not_nil w) Hslash).
  exact Hp.
Qed.

(** X25. A batch of PDFs writes under the directory [pdf] of the working
    directory and nowhere else: whatever the entries (with names that
    name a file, not a path), every path that is neither that directory
    nor under it holds after the batch what it held before; the folders
    of images are only read. *)
Theorem batch_pdf_writes_only_under_pdf
    (localeCompare : jsstring -> jsstring -> Z) (entries : list CsvEntry)
    (w : world) :
  Forall (fun entry => ~ In slash (nome entry)) entries ->
  forall p,
    outsidePdfDirectory w p ->
    fs (fst (ImageToPdfConverter.processCsvEntries localeCompare entries w)) p
    = fs w p.
Proof.
  intros Hnames p Hp.
  assert (H : cwd (fst (ImageToPdfConverter.processCsvEntries
                          localeCompare entries w)) = cwd w
              /\ fs (fst (ImageToPdfConverter.processCsvEntries
                            localeCompare entries w)) p = fs w p).
  { revert w Hp. induction Hnames as [|entry rest Hname _ IH]; intros w Hp;
      [split; reflexivity|].
    cbn [ImageToPdfConverter.processCsvEntries]. unfold bind at 1 2, try_catch.
    destruct (ImageToPdfConverter.processEntry localeCompare entry w)
      as [w1 [e | u]] eqn:Hrun;
      destruct (@processEntry_pdf_frame localeCompare w entry Hname _ _ Hrun)
        as [Hcwd Hfs].
    - rewrite say_printed.
      assert (Hp' : outsidePdfDirectory
                      (printed w1 (ErrorEntry (nome entry) e)) p).
      { unfold outsidePdfDirectory, pdfDirectory, resolve in *. cbn [cwd printed say fst].
        rewrite Hcwd. exact Hp. }
      destruct (IH _ Hp') as [Hcwd' Hfs'].
      split; [rewrite Hcwd'; exact Hcwd|].
      rewrite Hfs'. cbn [printed say fst fs]. now apply Hfs.
    - assert (Hp' : outsidePdfDirectory w1 p).
      { unfold outsidePdfDirectory, pdfDirectory, resolve in *.
        rewrite Hcwd. exact Hp. }
      destruct (IH _ Hp') as [Hcwd' Hfs'].
      split; [rewrite Hcwd'; exact Hcwd|].
      rewrite Hfs'. now apply Hfs. }
  exact (proj2 H).
Qed.

Lemma batch_pdf_writes_only_under_pdf_witness :
  fs (fst (ImageToPdfConverter.processCsvEntries codeUnitCompare
             exampleEntries exampleWorld)) (lit "/data/A/1.jpg")
  = fs exampleWorld (lit "/data/A/1.jpg").
Proof.
  apply (@batch_pdf_writes_only_under_pdf codeUnitCompare exampleEntries
           exampleWorld).
  - repeat constructor; cbn;
      intros H; repeat (destruct H as [H|H]; [discriminate H|]); exact H.
  - split; [discriminate|]. intros name. discriminate.
Defined.

(** ** Lines without quotes *)

Lemma parseCsvLine_loop_split (line : jsstring) :
  ~ In dquote line ->
  forall result current,
    parseCsvLine_loop line result current false
    = result ++ match split semicolon line with
                | [] => [current]
                | first :: others => (current ++ first) :: others
                end.
Proof.
  induction line as [|c line IH]; intros Hq result current.
  - cbn. now rewrite app_nil_r.
  - assert (Hc : N.eqb c dquote = false).
    { apply N.eqb_neq. intros ->. apply Hq. now left. }
    assert (Hq' : ~ In dquote line) by (intros H; apply Hq; now right).
    cbn [parseCsvLine_loop split]. rewrite Hc.
    destruct (N.eqb c semicolon) eqn:Hs; cbn [andb negb].
    + rewrite (IH Hq'). rewrite <- app_assoc. cbn [app].
      rewrite app_nil_r.
      destruct (split semicolon line) eqn:E;
        [now elim (split_not_nil semicolon line)|]. reflexivity.
    + rewrite (IH Hq').
      destruct (split semicolon line) eqn:E;
        [now elim (split_not_nil semicolon line)|].
      now rewrite <- app_assoc.
Qed.

(** X26. On a line that holds no double quote, [parseCsvLine] is
    [line.split(';')]: the fields are the pieces between the semicolons,
    empty pieces included, and a line without semicolon is one field. *)
Theorem parseCsvLine_without_quotes (line : jsstring) :
  ~ In dquote line -> parseCsvLine line = split semicolon line.
Proof.
  intros Hq. unfold parseCsvLine.
  rewrite (@parseCsvLine_loop_split line Hq). cbn [app].
  destruct (split semicolon line) eqn:E;
    [now elim (split_not_nil semicolon line) | reflexivity].
Qed.

Lemma parseCsvLine_without_quotes_witness :
  parseCsvLine (lit "a;;b c;") = split semicolon (lit "a;;b c;").
Proof.
  apply (@parseCsvLine_without_quotes (lit "a;;b c;")).
  cbn. intros H. repeat (destruct H as [H|H]; [discriminate H|]). exact H.
Defined.

(** ** The command line *)

(** X27. With a single argument the batch converters are in CSV mode
    whatever the argument is: given a folder, as in the call for one
    folder but without the output name, they try to read the folder as a
    CSV file, print that reading the CSV failed on a directory, and end
    with status 1. *)
Theorem run_with_folder_only (localeCompare : jsstring -> jsstring -> Z)
    (w : world) (node script folderPath : jsstring)
    (entries : list jsstring) :
  isFolder w folderPath entries ->
  let failed :=
    (printed w (ErrorFatal (CsvReadError (EISDIR folderPath))), 1%Z) in
  ImageToPdfConverter.run localeCompare [node; script; folderPath] w = failed
  /\ ImageToEpubConverter.run localeCompare [node; script; folderPath] w
     = failed.
Proof.
  intros Hfolder failed. unfold isFolder in Hfolder.
  unfold ImageToPdfConverter.run, ImageToEpubConverter.run, exitStatus,
    ImageToPdfConverter.runBody, ImageToEpubConverter.runBody,
    validateArguments.
  cbn [length Nat.ltb Nat.leb Nat.eqb nth].
  split; unfold bind at 1, ret at 1; unfold bind at 1, try_catch, access;
    rewrite Hfolder; unfold bind at 1, readCsvFile, readFile;
    rewrite Hfolder; reflexivity.
Qed.

Lemma run_with_folder_only_witness :
  let failed :=
    (printed exampleWorld
       (ErrorFatal (CsvReadError (EISDIR (lit "/data/A")))), 1%Z) in
  ImageToPdfConverter.run codeUnitCompare
    [lit "node"; lit "gen-pdf.js"; lit "/data/A"] exampleWorld = failed
  /\ ImageToEpubConverter.run codeUnitCompare
       [lit "node"; lit "epub-converter.js"; lit "/data/A"] exampleWorld
     = failed.
Proof.
  intros failed.
  destruct (@run_with_folder_only codeUnitCompare exampleWorld (lit "node")
              (lit "gen-pdf.js") (lit "/data/A")
              (map lit ["2.jpg"; "notes.txt"; "1.jpg"]) eq_refl) as [H1 _].
  destruct (@run_with_folder_only codeUnitCompare exampleWorld (lit "node")
              (lit "epub-converter.js") (lit "/data/A")
              (map lit ["2.jpg"; "notes.txt"; "1.jpg"]) eq_refl) as [_ H2].
  split; [exact H1 | exact H2].
Defined.

(** X28. gen-pdf.js called with a folder and an output name does what
    script.js, the converter of one folder it grew from, does on the same
    command line: the same world is left and the same status returned.
    With fewer arguments script.js prints its usage and ends with status
    1. *)
Theorem gen_pdf_extends_script (localeCompare : jsstring -> jsstring -> Z)
    (args : list jsstring) (w : world) :
  (4 <= length args ->
   ImageToPdfConverter.run localeCompare args w
   = Script.run localeCompare args w)
  /\ (length args < 4 ->
      Script.run localeCompare args w = (printed w (ErrorFatal UsageError), 1%Z)).
Proof.
  split; intros Hlen.
  - unfold ImageToPdfConverter.run, Script.run,
      ImageToPdfConverter.runBody, Script.runBody, validateArguments,
      Script.validateArguments.
    assert (H3 : Nat.ltb (length args) 3 = false) by (apply Nat.ltb_ge; lia).
    assert (H4 : Nat.ltb (length args) 4 = false) by (apply Nat.ltb_ge; lia).
    assert (He : Nat.eqb (length args) 3 = false) by (apply Nat.eqb_neq; lia).
    rewrite H3, H4, He.
    destruct (isEmpty (nth 3 args [])); reflexivity.
  - unfold Script.run, Script.runBody, Script.validateArguments.
    assert (H4 : Nat.ltb (length args) 4 = true) by (apply Nat.ltb_lt; lia).
    rewrite H4. reflexivity.
Qed.

(** ** An entry of a batch made into an EPUB *)

Lemma sameKind_refl (a : option node) : sameKind a a.
Proof. destruct a as [[c|es]|]; cbn; auto. Qed.

Lemma addEntry_sameKind (f : jsstring -> option node)
    (parent name p : jsstring) :
  sameKind (addEntry f parent name p) (f p).
Proof.
  unfold addEntry. destruct (f parent) as [[c|entries]|] eqn:E;
    try apply sameKind_refl.
  destruct (array_includes entries name); [apply sameKind_refl|].
  unfold update. destruct (str_eqb p parent) eqn:Hp; [|apply sameKind_refl].
  apply str_eqb_eq in Hp. subst p. rewrite E. exact I.
Qed.

(** [mkdir] on a path that holds no file: the path is a directory
    afterwards and every other path holds what it held, a directory
    remaining a directory. *)
Lemma mkdir_effect (p : jsstring) (w : world) :
  (forall c, fs w (resolve w p) <> Some (File c)) ->
  exists w1,
    mkdir p w = (w1, inr tt)
    /\ cwd w1 = cwd w /\ zipExit w1 = zipExit w /\ uuids w1 = uuids w
    /\ console w1 = console w
    /\ (exists es, fs w1 (resolve w p) = Some (Dir es))
    /\ forall q, q <> resolve w p -> sameKind (fs w1 q) (fs w q).
Proof.
  intros Hfile. unfold mkdir.
  destruct (fs w (resolve w p)) as [[c|es]|] eqn:E.
  - now elim (Hfile c).
  - exists w. repeat split; try reflexivity.
    + exists es. exact E.
    + intros q _. apply sameKind_refl.
  - eexists. split; [reflexivity|]. cbn [withFs cwd zipExit uuids console fs].
    repeat split; try reflexivity.
    + exists []. apply update_same.
    + intros q Hq. rewrite update_other by exact Hq.
      apply addEntry_sameKind.
Qed.

Lemma copyFiles_present (sources : list jsstring) (w : world) :
  Forall (fun p => isFile w p = true) sources ->
  copyFiles sources w = (w, inr tt).
Proof.
  induction 1 as [|source rest Hp _ IH]; [reflexivity|].
  cbn [copyFiles]. unfold bind, copyFile. unfold isFile in Hp.
  destruct (fs w (resolve w source)) as [[c|es]|];
    [exact IH | discriminate Hp | discriminate Hp].
Qed.


Lemma sameKind_archive (a b : option node) :
  sameKind a b -> archiveOrNothing b -> a = b.
Proof.
  destruct a as [[c|es]|], b as [[c'|es']|]; cbn; try contradiction;
    try reflexivity.
  now intros ->.
Qed.

Lemma createEpubFile_written (outputPath : jsstring) (package : EpubPackage)
    (w : world) (entries : list jsstring) :
  fs w (NodePath.dirname outputPath) = Some (Dir entries) ->
  archiveOrNothing (fs w outputPath) ->
  zipExit w outputPath = (ZipClosed 0, ZipClosed 0) ->
  exists w',
    createEpubFile outputPath package w = (w', inr tt)
    /\ fs w' outputPath = Some (File (zipContent (fs w outputPath) package))
    /\ (exists entries', fs w' (NodePath.dirname outputPath)
                         = Some (Dir entries'))
    /\ console w' = console w.
Proof.
  intros Hdir Harchive Hzip. unfold createEpubFile. rewrite Hzip.
  cbn [Z.eqb negb].
  assert (Hfile : forall es, fs w outputPath <> Some (Dir es)).
  { intros es E. rewrite E in Harchive. exact Harchive. }
  destruct (@writeOutput_written outputPath
              (zipMimetype (fs w outputPath)) w entries Hdir Hfile)
    as [w1 [Hrun [Hout [[entries1 Hdir1] [_ [_ [Hconsole1 _]]]]]]].
  rewrite Hrun.
  assert (Hfile1 : forall es, fs w1 outputPath <> Some (Dir es)).
  { intros es. rewrite Hout. discriminate. }
  assert (Hsecond : zipContent (fs w1 outputPath) package
                    = zipContent (fs w outputPath) package).
  { rewrite Hout.
    destruct (fs w outputPath) as [[[]|]|]; try reflexivity;
      now elim Harchive. }
  destruct (@writeOutput_written outputPath
              (zipContent (fs w1 outputPath) package) w1 entries1
              Hdir1 Hfile1)
    as [w2 [Hrun2 [Hout2 [Hdir2 [_ [_ [Hconsole2 _]]]]]]].
  exists w2. rewrite <- Hsecond. repeat split; try assumption.
  congruence.
Qed.

Lemma epubDirectory_not_nil (w : world) : epubDirectory w <> [].
Proof.
  unfold epubDirectory, resolve, NodePath.join. cbn.
  destruct (cwd w); discriminate.
Qed.

Lemma resolve_in_epubDirectory (w : world) (name : jsstring) :
  resolve w (lit "epub/" ++ name) = epubDirectory w ++ [slash] ++ name.
Proof.
  unfold epubDirectory, resolve, NodePath.join. cbn.
  rewrite <- app_assoc. reflexivity.
Qed.

Lemma withExtension_no_slash (name : jsstring) (ext : string) :
  ~ In slash name -> ~ In slash (lit ext) ->
  ~ In slash (withExtension name (lit ext)).
Proof.
  intros Hname Hext. unfold withExtension.
  destruct (endsWith name (lit ext)); [exact Hname|].
  rewrite in_app_iff. intros [H|H]; auto.
Qed.



(** The entry A converted where nothing was, then the entry that names
    the folder B converted under the name A: the archive of the second
    run is the archive of the first, updated. And a folder in which a
    directory has the name of an image: the check of the files lets it
    pass, the copy fails. *)
Lemma batch_epub_entry_example :
  let entryA := {| nome := lit "A"; caminho := lit "/data/A" |} in
  let entryB := {| nome := lit "A"; caminho := lit "/data/B" |} in
  let entryG := {| nome := lit "G"; caminho := lit "/data/G" |} in
  let outputPath := lit "/work/epub/A.epub" in
  let w1 := fst (ImageToEpubConverter.processEntry codeUnitCompare entryA
                   exampleWorld) in
  let w2 := fst (ImageToEpubConverter.processEntry codeUnitCompare entryB
                   w1) in
  fs w1 outputPath
  = Some (File (Epub (bookOf (map lit ["/data/A/1.jpg"; "/data/A/2.jpg"])
                             (lit "A") (lit "uuid-1"))))
  /\ (exists archive,
        fs w2 outputPath = Some (File (Epub archive))
        /\ epub_images archive = map lit ["image_001.jpg"; "image_002.jpg"]
        /\ epub_images (bookOf (map lit ["/data/B/1.jpg"]) (lit "A")
                           (lit "uuid-2"))
           = map lit ["image_001.jpg"])
  /\ snd (ImageToEpubConverter.processEntry codeUnitCompare entryG
            galleryWorld)
     = inl (EISDIR (lit "/data/G/3.png")).
Proof.
  vm_compute. split; [reflexivity|]. split; [|reflexivity].
  eexists. repeat split.
Qed.

(** ** A merge made into one PDF *)

Lemma readCsvFile_sameFiles (csvPath : jsstring) (w : world) :
  sameFiles w (fst (readCsvFile csvPath w)).
Proof.
  unfold readCsvFile, readFile.
  destruct (fs w (resolve w csvPath)) as [[[s| | | | |]|es]|];
    try (split; reflexivity);
    destruct (readCsvContent _) as [r warns]; split; reflexivity.
Qed.

Lemma sameFiles_trans (w1 w2 w3 : world) :
  sameFiles w1 w2 -> sameFiles w2 w3 -> sameFiles w1 w3.
Proof.
  intros [Hfs Hcwd] [Hfs' Hcwd']. split; congruence.
Qed.

Lemma collectAllImages_loop_sameFiles
    (localeCompare : jsstring -> jsstring -> Z) (entries : list CsvEntry) :
  forall i allImages w w' result,
    collectAllImages_loop localeCompare i entries allImages w
    = (w', inr result) ->
    sameFiles w w'.
Proof.
  induction entries as [|entry rest IH]; intros i allImages w w' result.
  - unfold collectAllImages_loop, ret. intros H. inversion H.
    split; reflexivity.
  - cbn [collectAllImages_loop]. unfold bind at 1.
    destruct (try_catch _ _ w) as [w1 [e | allImages']] eqn:Htry;
      [discriminate|].
    intros Hrest.
    destruct (@collectEntry_step localeCompare _ _ _ _ _ _ Htry)
      as [Hsame _].
    exact (@sameFiles_trans _ _ _ Hsame (IH _ _ _ _ _ Hrest)).
Qed.

Lemma collectAllImages_sameFiles
    (localeCompare : jsstring -> jsstring -> Z) (entries : list CsvEntry)
    (w w' : world) (allImages : list MergedImageRecord) :
  collectAllImages localeCompare entries w = (w', inr allImages) ->
  sameFiles w w'.
Proof.
  unfold collectAllImages, bind.
  destruct (collectAllImages_loop localeCompare 0 entries [] w)
    as [w1 [e | all]] eqn:Hloop; [discriminate|].
  destruct (Nat.eqb (length all) 0); [discriminate|].
  unfold ret. intros H. inversion H; subst.
  exact (@collectAllImages_loop_sameFiles localeCompare entries _ _ _ _ _ Hloop).
Qed.

(** The merge into one PDF when the CSV is read and images are
    collected: the directory is made, the document written, and what was
    printed while collecting stays on the console. *)
Lemma merge_pdf_run_written
    (localeCompare : jsstring -> jsstring -> Z) (w w1 w2 : world)
    (node script csvFile outputName : jsstring) (more : list jsstring)
    (entries : list CsvEntry) (allImages : list MergedImageRecord) :
  let outputPath :=
    pdfDirectory w ++ [slash] ++ withExtension outputName (lit ".pdf") in
  outputName <> [] ->
  ~ In slash outputName ->
  missing w csvFile = false ->
  readCsvFile csvFile w = (w1, inr entries) ->
  collectAllImages localeCompare entries w1 = (w2, inr allImages) ->
  (forall c, fs w (pdfDirectory w) <> Some (File c)) ->
  (forall es, fs w outputPath <> Some (Dir es)) ->
  exists w',
    MergePdfConverter.run localeCompare
      (node :: script :: csvFile :: outputName :: more) w = (w', 0%Z)
    /\ fs w' outputPath = Some (File (Pdf (map mi_path allImages)))
    /\ (exists es, fs w' (pdfDirectory w) = Some (Dir es))
    /\ exists ds, console w' = console w2 ++ ds.
Proof.
  intros outputPath Hname Hslash Hcsv Hread Hcollect Hpdf Hout.
  pose proof (readCsvFile_sameFiles csvFile w) as Hsame1.
  rewrite Hread in Hsame1. cbn [fst] in Hsame1.
  pose proof (@sameFiles_trans _ _ _ Hsame1
                (@collectAllImages_sameFiles _ _ _ _ _ Hcollect))
    as [Hfs Hcwd].
  assert (Hdir2 : pdfDirectory w2 = pdfDirectory w).
  { unfold pdfDirectory, resolve. now rewrite Hcwd. }
  assert (Hslash' : ~ In slash (withExtension outputName (lit ".pdf"))).
  { apply withExtension_no_slash; [exact Hslash|].
    cbn. intros H. repeat (destruct H as [H|H]; [discriminate H|]). exact H. }
  assert (Hrel : NodePath.isAbsolute (withExtension outputName (lit ".pdf"))
                 = false).
  { destruct (withExtension outputName (lit ".pdf")) as [|c s] eqn:E;
      [reflexivity|].
    cbn [NodePath.isAbsolute]. apply N.eqb_neq. intros ->.
    apply Hslash'. now left. }
  assert (Hpath :
    resolve w2 (NodePath.join (lit "pdf")
                  (withExtension outputName (lit ".pdf")))
    = outputPath).
  { unfold outputPath. rewrite <- Hdir2.
    exact (resolve_in_pdfDirectory w2 _). }
  assert (Hpdf2 : forall c, fs w2 (resolve w2 (lit "pdf")) <> Some (File c)).
  { intros c. fold (pdfDirectory w2). rewrite Hdir2, Hfs. apply Hpdf. }
  destruct (@mkdir_effect (lit "pdf") w2 Hpdf2)
    as [w3 [Hmkdir [_ [_ [_ [Hconsole3 [[es3 Hdir3] Hkind]]]]]]].
  fold (pdfDirectory w2) in Hdir3, Hkind. rewrite Hdir2 in Hdir3, Hkind.
  assert (Hdirname : NodePath.dirname outputPath = pdfDirectory w).
  { exact (@dirname_in_directory _ _ (pdfDirectory_not_nil w) Hslash'). }
  assert (Hneq : outputPath <> pdfDirectory w).
  { unfold outputPath. intros E. apply (f_equal (@length _)) in E.
    rewrite length_app in E. cbn [length app] in E. lia. }
  assert (Hout3 : forall es, fs w3 outputPath <> Some (Dir es)).
  { intros es E. specialize (Hkind outputPath Hneq). rewrite E, Hfs in Hkind.
    destruct (fs w outputPath) as [[c|es']|] eqn:E'; try now elim Hkind.
    now elim (Hout es'). }
  assert (Hdir3' : fs w3 (NodePath.dirname outputPath) = Some (Dir es3)).
  { rewrite Hdirname. exact Hdir3. }
  destruct (@createPdf_written (map mi_path allImages) outputPath w3
              es3 Hdir3' Hout3)
    as [w4 [Hrun [Hfile [[es4 Hdir4] [_ [_ Hconsole4]]]]]].
  exists w4. split; [|split; [exact Hfile|split]].
  - unfold MergePdfConverter.run, exitStatus, MergePdfConverter.runBody.
    unfold validateMergeArguments. cbn [length Nat.ltb Nat.leb nth].
    destruct outputName as [|c name]; [now elim Hname|]. cbn [isEmpty].
    unfold bind at 1, ret at 1. unfold bind at 1, try_catch, access.
    unfold missing in Hcsv.
    destruct (fs w (resolve w csvFile)) as [n|]; [|discriminate Hcsv].
    unfold bind at 1. rewrite Hread. unfold bind at 1. rewrite Hcollect.
    unfold bind at 1, resolve2M. rewrite Hrel, Hpath.
    unfold bind at 1. rewrite Hmkdir.
    unfold MergePdfConverter.createMergedPdf. now rewrite Hrun.
  - exists es4. rewrite <- Hdirname. exact Hdir4.
  - eexists. rewrite Hconsole4, Hconsole3. reflexivity.
Qed.


(** X30. A merge into one PDF, unlike a batch, makes the directory
    [pdf] of the working directory when it is missing: when the CSV is
    read and images are collected, the run ends with status 0, the
    directory exists, and under the output name with the extension [.pdf]
    it holds a document with one page per collected image, in the order
    in which they were collected. *)
Theorem merge_pdf_run_writes_document
    (localeCompare : jsstring -> jsstring -> Z) (w w1 w2 : world)
    (node script csvFile outputName : jsstring) (more : list jsstring)
    (entries : list CsvEntry) (allImages : list MergedImageRecord) :
  let outputPath :=
    pdfDirectory w ++ [slash] ++ withExtension outputName (lit ".pdf") in
  outputName <> [] ->
  ~ In slash outputName ->
  missing w csvFile = false ->
  readCsvFile csvFile w = (w1, inr entries) ->
  collectAllImages localeCompare entries w1 = (w2, inr allImages) ->
  (forall c, fs w (pdfDirectory w) <> Some (File c)) ->
  (forall es, fs w outputPath <> Some (Dir es)) ->
  exists w',
    MergePdfConverter.run localeCompare
      (node :: script :: csvFile :: outputName :: more) w = (w', 0%Z)
    /\ fs w' outputPath = Some (File (Pdf (map mi_path allImages)))
    /\ exists es, fs w' (pdfDirectory w) = Some (Dir es).
Proof.
  intros outputPath Hname Hslash Hcsv Hread Hcollect Hpdf Hout.
  destruct (@merge_pdf_run_written localeCompare w w1 w2 node script csvFile
              outputName more entries allImages
              Hname Hslash Hcsv Hread Hcollect Hpdf Hout)
    as [w' [Hrun [Hfile [Hdir _]]]].
  exists w'. auto.
Qed.

Lemma merge_pdf_run_writes_document_witness :
  exists w',
    MergePdfConverter.run codeUnitCompare
      (argv ["node"; "gen-lote-pdf.js"; "list.csv"; "all"]) exampleWorld
    = (w', 0%Z)
    /\ fs w' (lit "/work/pdf/all.pdf")
       = Some (File (Pdf (map lit ["/data/A/1.jpg"; "/data/A/2.jpg";
                                   "/data/B/1.jpg"])))
    /\ exists es, fs w' (lit "/work/pdf") = Some (Dir es).
Proof.
  apply (@merge_pdf_run_writes_document codeUnitCompare exampleWorld
           exampleWorld
           (printed exampleWorld (WarnNoImages (lit "/data/empty")))
           (lit "node") (lit "gen-lote-pdf.js") (lit "list.csv") (lit "all")
           [] exampleEntries
           (imagesInfo 1 (cf_entry folderA) (cf_files folderA)
            ++ imagesInfo 2 (cf_entry folderB) (cf_files folderB))).
  - discriminate.
  - cbn. intros H. repeat (destruct H as [H|H]; [discriminate H|]). exact H.
  - reflexivity.
  - vm_compute. reflexivity.
  - vm_compute. reflexivity.
  - intros c. vm_compute. discriminate.
  - intros es. vm_compute. discriminate.
Defined.

(** ** A folder without image: fatal, or skipped *)

Lemma printedMore_refl (w : world) : printedMore w w.
Proof.
  repeat split. exists []. symmetry. apply app_nil_r.
Qed.

Lemma printedMore_printed (w : world) (d : diagnostic) :
  printedMore w (printed w d).
Proof. repeat split. exists [d]. reflexivity. Qed.

Lemma printedMore_trans (w1 w2 w3 : world) :
  printedMore w1 w2 -> printedMore w2 w3 -> printedMore w1 w3.
Proof.
  intros [H1 [H2 [H3 [H4 [ds H5]]]]] [H1' [H2' [H3' [H4' [ds' H5']]]]].
  repeat split; try congruence.
  exists (ds ++ ds'). rewrite H5', H5. symmetry. apply app_assoc.
Qed.

Lemma printedMore_sameFiles (w w' : world) :
  printedMore w w' -> sameFiles w w'.
Proof. intros [H1 [H2 _]]. split; assumption. Qed.

Lemma readCsvFile_printedMore (csvPath : jsstring) (w : world) :
  printedMore w (fst (readCsvFile csvPath w)).
Proof.
  unfold readCsvFile, readFile.
  destruct (fs w (resolve w csvPath)) as [[[s| | | | |]|es]|];
    try apply printedMore_refl;
    destruct (readCsvContent _) as [r warns]; repeat split;
    eexists; reflexivity.
Qed.

Lemma collectEntry_printedMore (localeCompare : jsstring -> jsstring -> Z)
    (i : nat) (entry : CsvEntry) (allImages : list MergedImageRecord)
    (w : world) :
  printedMore w
    (fst (try_catch (collectEntry localeCompare i entry allImages)
            (fun error => say (ErrorEntry (nome entry) error) ;;
                          ret allImages) w)).
Proof.
  unfold try_catch, collectEntry. unfold bind at 1.
  pose proof (validateFolder_world (caminho entry) w) as H1.
  destruct (validateFolder (caminho entry) w) as [w1 [e | u]];
    cbn [fst] in H1; subst w1; [apply printedMore_printed|].
  unfold bind at 1. unfold readImageFiles_lenient, try_catch, bind, readdir.
  destruct (fs w (resolve w (caminho entry))) as [[c | es]|] eqn:Hfs;
    try apply printedMore_printed.
  unfold ret at 1.
  destruct (Nat.eqb (length (filter isImageFile es)) 0) eqn:Hlen;
    [apply printedMore_printed|].
  set (files := sortFilesNumerically localeCompare (filter isImageFile es)).
  pose proof (checkFiles_world (map mi_path (imagesInfo i entry files)) w) as H3.
  destruct (checkFiles (map mi_path (imagesInfo i entry files)) w)
    as [w3 [e | u']]; cbn [fst] in H3; subst w3;
    [apply printedMore_printed | apply printedMore_refl].
Qed.

Lemma collectAllImages_loop_printedMore
    (localeCompare : jsstring -> jsstring -> Z) (entries : list CsvEntry) :
  forall i allImages w,
    printedMore w
      (fst (collectAllImages_loop localeCompare i entries allImages w)).
Proof.
  induction entries as [|entry rest IH]; intros i allImages w;
    [apply printedMore_refl|].
  cbn [collectAllImages_loop]. unfold bind at 1.
  pose proof (collectEntry_printedMore localeCompare i entry allImages w)
    as Hstep.
  destruct (try_catch _ _ w) as [w1 [e | allImages']]; cbn [fst] in *;
    [exact Hstep|].
  exact (printedMore_trans Hstep (IH _ _ _)).
Qed.

Lemma collectAllImages_loop_returns
    (localeCompare : jsstring -> jsstring -> Z) (entries : list CsvEntry) :
  forall i allImages w,
    exists result,
      snd (collectAllImages_loop localeCompare i entries allImages w)
      = inr result.
Proof.
  induction entries as [|entry rest IH]; intros i allImages w;
    [eexists; reflexivity|].
  cbn [collectAllImages_loop]. unfold bind at 1.
  assert (Hstep : exists r,
    snd (try_catch (collectEntry localeCompare i entry allImages)
           (fun error => say (ErrorEntry (nome entry) error) ;;
                         ret allImages) w) = inr r).
  { unfold try_catch.
    destruct (collectEntry localeCompare i entry allImages w)
      as [w1 [e | r]]; eexists; reflexivity. }
  destruct Hstep as [r Hr].
  destruct (try_catch _ _ w) as [w1 [e | allImages']]; cbn [snd] in Hr;
    [discriminate Hr|].
  apply IH.
Qed.

(** The loop of [collectAllImages] at an entry whose folder lists no
    image: a warning is printed and the loop goes on, [allImages] as it
    was. *)
Lemma collectAllImages_loop_skip
    (localeCompare : jsstring -> jsstring -> Z) (w : world)
    (entry : CsvEntry) (dirEntries : list jsstring) (rest : list CsvEntry)
    (i : nat) (allImages : list MergedImageRecord) :
  isFolder w (caminho entry) dirEntries ->
  filter isImageFile dirEntries = [] ->
  collectAllImages_loop localeCompare i (entry :: rest) allImages w
  = collectAllImages_loop localeCompare (S i) rest allImages
      (printed w (WarnNoImages (caminho entry))).
Proof.
  intros Hdir Hnone. cbn [collectAllImages_loop]. unfold bind at 1.
  unfold try_catch, collectEntry.
  unfold bind at 1. rewrite (validateFolder_folder Hdir).
  unfold bind at 1. rewrite (readImageFiles_lenient_folder Hdir), Hnone.
  cbn [length Nat.eqb]. unfold bind at 1. rewrite say_printed.
  reflexivity.
Qed.

Lemma collectAllImages_printedMore
    (localeCompare : jsstring -> jsstring -> Z) (entries : list CsvEntry)
    (w : world) :
  printedMore w (fst (collectAllImages localeCompare entries w)).
Proof.
  unfold collectAllImages, bind.
  pose proof (collectAllImages_loop_printedMore localeCompare entries 0 [] w)
    as H.
  destruct (collectAllImages_loop localeCompare 0 entries [] w)
    as [w1 [e | all]]; [exact H|].
  destruct (Nat.eqb (length all) 0); exact H.
Qed.

(** A merge whose CSV is read but gives no image: the run fails, after
    the diagnostics of the entries. *)
Lemma merge_run_nothing_collected
    (localeCompare : jsstring -> jsstring -> Z) (w w1 w2 : world)
    (node script csvFile outputName : jsstring) (more : list jsstring)
    (entries : list CsvEntry) :
  outputName <> [] ->
  missing w csvFile = false ->
  readCsvFile csvFile w = (w1, inr entries) ->
  collectAllImages_loop localeCompare 0 entries [] w1 = (w2, inr []) ->
  MergePdfConverter.run localeCompare
    (node :: script :: csvFile :: outputName :: more) w
  = (printed w2 (ErrorFatal NoImagesCollected), 1%Z)
  /\ MergeEpubConverter.run localeCompare
       (node :: script :: csvFile :: outputName :: more) w
     = (printed w2 (ErrorFatal NoImagesCollected), 1%Z).
Proof.
  intros Hname Hcsv Hread Hloop.
  destruct outputName as [|c name]; [now elim Hname|].
  unfold missing in Hcsv.
  split.
  - unfold MergePdfConverter.run, exitStatus, MergePdfConverter.runBody.
    unfold validateMergeArguments. cbn [length Nat.ltb Nat.leb nth isEmpty].
    unfold bind at 1, ret at 1. unfold bind at 1, try_catch, access.
    destruct (fs w (resolve w csvFile)) as [n|]; [|discriminate Hcsv].
    unfold bind at 1. rewrite Hread. unfold bind at 1.
    unfold collectAllImages, bind at 1. rewrite Hloop. reflexivity.
  - unfold MergeEpubConverter.run, exitStatus, MergeEpubConverter.runBody.
    unfold validateMergeArguments. cbn [length Nat.ltb Nat.leb nth isEmpty].
    unfold bind at 1, ret at 1. unfold bind at 1, try_catch, access.
    destruct (fs w (resolve w csvFile)) as [n|]; [|discriminate Hcsv].
    unfold bind at 1. rewrite Hread. unfold bind at 1.
    unfold collectAllImages, bind at 1. rewrite Hloop. reflexivity.
Qed.

(** The merge into one EPUB when the CSV is read, images are collected
    and the archiver succeeds: the directory is made and the archive
    written; nothing more is printed. *)
Lemma merge_epub_run_written
    (localeCompare : jsstring -> jsstring -> Z) (w w1 w2 : world)
    (node script csvFile outputName : jsstring) (more : list jsstring)
    (entries : list CsvEntry) (allImages : list MergedImageRecord) :
  let outputPath :=
    epubDirectory w ++ [slash] ++ withExtension outputName (lit ".epub") in
  let book := mergedBookOf allImages outputName (hd [] (uuids w)) in
  outputName <> [] ->
  ~ In slash outputName ->
  missing w csvFile = false ->
  readCsvFile csvFile w = (w1, inr entries) ->
  collectAllImages localeCompare entries w1 = (w2, inr allImages) ->
  (forall c, fs w (epubDirectory w) <> Some (File c)) ->
  archiveOrNothing (fs w outputPath) ->
  zipExit w outputPath = (ZipClosed 0, ZipClosed 0) ->
  Forall (fun p => isFile w p = true) (map mi_path allImages) ->
  exists w',
    MergeEpubConverter.run localeCompare
      (node :: script :: csvFile :: outputName :: more) w = (w', 0%Z)
    /\ fs w' outputPath = Some (File (zipContent (fs w outputPath) book))
    /\ (exists es, fs w' (epubDirectory w) = Some (Dir es))
    /\ console w' = console w2.
Proof.
  intros outputPath book Hname Hslash Hcsv Hread Hcollect Hepub Hout Hzip
    Hfiles.
  pose proof (readCsvFile_printedMore csvFile w) as Hmore1.
  rewrite Hread in Hmore1. cbn [fst] in Hmore1.
  pose proof (collectAllImages_printedMore localeCompare entries w1)
    as Hmore2.
  rewrite Hcollect in Hmore2. cbn [fst] in Hmore2.
  destruct (printedMore_trans Hmore1 Hmore2)
    as [Hcwd [Hfs [Hzip2 [Huuids2 _]]]].
  assert (Hdir2 : epubDirectory w2 = epubDirectory w).
  { unfold epubDirectory, resolve. now rewrite Hcwd. }
  assert (Hslash' : ~ In slash (withExtension outputName (lit ".epub"))).
  { apply withExtension_no_slash; [exact Hslash|].
    cbn. intros H. repeat (destruct H as [H|H]; [discriminate H|]). exact H. }
  assert (Hrel : NodePath.isAbsolute (withExtension outputName (lit ".epub"))
                 = false).
  { destruct (withExtension outputName (lit ".epub")) as [|c s] eqn:E;
      [reflexivity|].
    cbn [NodePath.isAbsolute]. apply N.eqb_neq. intros ->.
    apply Hslash'. now left. }
  assert (Hpath :
    resolve w2 (NodePath.join (lit "epub")
                  (withExtension outputName (lit ".epub")))
    = outputPath).
  { unfold outputPath. rewrite <- Hdir2.
    exact (resolve_in_epubDirectory w2 _). }
  assert (Hepub2 : forall c, fs w2 (resolve w2 (lit "epub")) <> Some (File c)).
  { intros c. fold (epubDirectory w2). rewrite Hdir2, Hfs. apply Hepub. }
  destruct (@mkdir_effect (lit "epub") w2 Hepub2)
    as [w3 [Hmkdir [Hcwd3 [Hzip3 [Huuids3 [Hconsole3 [[es3 Hdir3] Hkind]]]]]]].
  fold (epubDirectory w2) in Hdir3, Hkind. rewrite Hdir2 in Hdir3, Hkind.
  assert (Hdirname : NodePath.dirname outputPath = epubDirectory w).
  { exact (@dirname_in_directory _ _ (epubDirectory_not_nil w) Hslash'). }
  assert (Hneq : outputPath <> epubDirectory w).
  { unfold outputPath. intros E. apply (f_equal (@length _)) in E.
    rewrite length_app in E. cbn [length app] in E. lia. }
  set (w4 := {| cwd := cwd w3; fs := fs w3; zipExit := zipExit w3;
                uuids := tl (uuids w3); console := console w3 |}).
  assert (Hfiles4 : Forall (fun p => isFile w4 p = true)
                           (map mi_path allImages)).
  { eapply Forall_impl; [|exact Hfiles]. intros p Hp.
    unfold isFile, resolve in *. cbn [w4 cwd fs]. rewrite Hcwd3, Hcwd.
    set (q := if NodePath.isAbsolute p then p else NodePath.join (cwd w) p) in *.
    destruct (list_eq_dec N.eq_dec q (epubDirectory w)) as [E | Hq].
    - rewrite E in Hp. destruct (fs w (epubDirectory w)) as [[c|es]|] eqn:E';
        try discriminate Hp.
      now elim (Hepub c).
    - specialize (Hkind q Hq). rewrite Hfs in Hkind.
      destruct (fs w q) as [[c|es]|]; try discriminate Hp.
      destruct (fs w3 q) as [[c'|es']|]; try reflexivity; now elim Hkind. }
  assert (Hsame : fs w4 outputPath = fs w outputPath).
  { cbn [w4 fs]. rewrite <- Hfs.
    apply sameKind_archive; [apply Hkind; exact Hneq | now rewrite Hfs]. }
  assert (Hout4 : archiveOrNothing (fs w4 outputPath)).
  { rewrite Hsame. exact Hout. }
  assert (Hzip4 : zipExit w4 outputPath = (ZipClosed 0, ZipClosed 0)).
  { cbn [w4 zipExit]. now rewrite Hzip3, Hzip2. }
  assert (Hdir4 : fs w4 (NodePath.dirname outputPath) = Some (Dir es3)).
  { rewrite Hdirname. exact Hdir3. }
  destruct (@createEpubFile_written outputPath book w4 es3
              Hdir4 Hout4 Hzip4)
    as [w5 [Hrun [Hfile [[es5 Hdir5] Hconsole5]]]].
  rewrite Hsame in Hfile.
  exists w5. split; [|split; [exact Hfile|split]].
  - unfold MergeEpubConverter.run, exitStatus, MergeEpubConverter.runBody.
    unfold validateMergeArguments. cbn [length Nat.ltb Nat.leb nth].
    destruct outputName as [|c name]; [now elim Hname|]. cbn [isEmpty].
    unfold bind at 1, ret at 1. unfold bind at 1, try_catch, access.
    unfold missing in Hcsv.
    destruct (fs w (resolve w csvFile)) as [n|]; [|discriminate Hcsv].
    unfold bind at 1. rewrite Hread. unfold bind at 1. rewrite Hcollect.
    unfold bind at 1, resolve2M. rewrite Hrel, Hpath.
    unfold bind at 1. rewrite Hmkdir.
    unfold MergeEpubConverter.createMergedEpub.
    unfold bind at 1, generateUUID. fold w4.
    unfold bind at 1, MergeEpubConverter.copyImagesToEpub. unfold bind at 1.
    rewrite (@copyFiles_present (map mi_path allImages) w4 Hfiles4).
    unfold ret at 1. rewrite Huuids3, Huuids2. fold book.
    unfold book, mergedBookOf in Hrun. cbv zeta in Hrun.
    now rewrite Hrun.
  - exists es5. rewrite <- Hdirname. exact Hdir5.
  - rewrite Hconsole5. cbn [w4 console]. exact Hconsole3.
Qed.

(** Wherever the CSV lists a folder without image, the loop of
    [collectAllImages] leaves the warning on the console. *)
Lemma collectAllImages_loop_warns
    (localeCompare : jsstring -> jsstring -> Z) (entry : CsvEntry)
    (dirEntries : list jsstring) (entries : list CsvEntry) :
  filter isImageFile dirEntries = [] ->
  In entry entries ->
  forall i allImages w w' result,
    isFolder w (caminho entry) dirEntries ->
    collectAllImages_loop localeCompare i entries allImages w
    = (w', inr result) ->
    In (WarnNoImages (caminho entry)) (console w').
Proof.
  intros Hnone. induction entries as [|e rest IH]; intros Hin; [elim Hin|].
  intros i allImages w w' result Hdir Hloop.
  destruct (list_eq_dec N.eq_dec (caminho e) (caminho entry)) as [Heq | Hneq].
  - assert (Hdir' : isFolder w (caminho e) dirEntries) by now rewrite Heq.
    rewrite (@collectAllImages_loop_skip localeCompare w e dirEntries rest i
               allImages Hdir' Hnone) in Hloop.
    pose proof (collectAllImages_loop_printedMore localeCompare rest (S i)
                  allImages (printed w (WarnNoImages (caminho e)))) as Hmore.
    rewrite Hloop in Hmore. cbn [fst] in Hmore.
    destruct Hmore as [_ [_ [_ [_ [ds Hds]]]]]. rewrite Hds, <- Heq.
    apply in_or_app. left. cbn [printed say fst console].
    apply in_or_app. right. now left.
  - destruct Hin as [-> | Hin]; [now elim Hneq|].
    cbn [collectAllImages_loop] in Hloop. unfold bind at 1 in Hloop.
    pose proof (collectEntry_printedMore localeCompare i e allImages w)
      as Hstep.
    destruct (try_catch _ _ w) as [w1 [err | allImages']]; [discriminate|].
    cbn [fst] in Hstep. apply printedMore_sameFiles in Hstep.
    destruct Hstep as [Hfs Hcwd].
    apply (IH Hin (S i) allImages' w1 w' result); [|exact Hloop].
    unfold isFolder, resolve in *. now rewrite Hfs, Hcwd.
Qed.

(** C7. A folder whose filtered list of files is empty. In single-folder
    mode (gen-pdf and epub-converter) [readImageFiles] throws, [run] prints
    the error and the process exits with status 1. In CSV batch mode the
    same error is caught at the entry and reported on the console as an
    error of the entry, through [console.error], the loop goes on with the
    next entry, and the run ends with status 0 whatever the other entries
    do. In merge mode [readImageFiles] returns the empty list,
    [collectAllImages] prints a warning, through [console.warn], and goes
    on with the next entry, [allImages] unchanged; the collection succeeds as soon as the other entries give
    an image. A merge run over a CSV that lists the folder prints the
    warning; it ends with status 1, after the error that no image was
    found, when the entries give no image, and with status 0, the merged
    document written, when they give one and the output can be
    written. *)
Theorem empty_folder_fatal_or_skipped
    (localeCompare : jsstring -> jsstring -> Z) (w : world)
    (entry : CsvEntry) (dirEntries : list jsstring) (rest : list CsvEntry)
    (i : nat) (allImages : list MergedImageRecord)
    (node script outputName : jsstring) :
  isFolder w (caminho entry) dirEntries ->
  filter isImageFile dirEntries = [] ->
  outputName <> [] ->
  (readImageFiles_orThrow (caminho entry) w
   = (w, inl (ReadFolderError NoImagesInFolder))
   /\ readImageFiles_lenient (caminho entry) w = (w, inr []))
  /\ (ImageToPdfConverter.run localeCompare
        [node; script; caminho entry; outputName] w
      = (printed w (ErrorFatal (ReadFolderError NoImagesInFolder)), 1%Z)
      /\ ImageToEpubConverter.run localeCompare
           [node; script; caminho entry; outputName] w
         = (printed w (ErrorFatal (ReadFolderError NoImagesInFolder)), 1%Z))
  /\ (ImageToPdfConverter.processCsvEntries localeCompare (entry :: rest) w
      = ImageToPdfConverter.processCsvEntries localeCompare rest
          (printed w (ErrorEntry (nome entry)
                                 (ReadFolderError NoImagesInFolder)))
      /\ ImageToEpubConverter.processCsvEntries localeCompare (entry :: rest) w
         = ImageToEpubConverter.processCsvEntries localeCompare rest
             (printed w (ErrorEntry (nome entry)
                                    (ReadFolderError NoImagesInFolder))))
  /\ (snd (exitStatus
             (ImageToPdfConverter.processCsvEntries localeCompare
                (entry :: rest)) w) = 0%Z
      /\ snd (exitStatus
                (ImageToEpubConverter.processCsvEntries localeCompare
                   (entry :: rest)) w) = 0%Z)
  /\ collectAllImages_loop localeCompare i (entry :: rest) allImages w
     = collectAllImages_loop localeCompare (S i) rest allImages
         (printed w (WarnNoImages (caminho entry)))
  /\ (forall w' images,
        collectAllImages_loop localeCompare 1 rest []
          (printed w (WarnNoImages (caminho entry))) = (w', inr images) ->
        images <> [] ->
        collectAllImages localeCompare (entry :: rest) w = (w', inr images))
  /\ (forall csvFile entries w1 w2 images,
        missing w csvFile = false ->
        readCsvFile csvFile w = (w1, inr entries) ->
        In entry entries ->
        collectAllImages_loop localeCompare 0 entries [] w1
        = (w2, inr images) ->
        let mergePdf :=
          MergePdfConverter.run localeCompare
            [node; script; csvFile; outputName] w in
        let mergeEpub :=
          MergeEpubConverter.run localeCompare
            [node; script; csvFile; outputName] w in
        let pdfPath :=
          pdfDirectory w ++ [slash] ++ withExtension outputName (lit ".pdf") in
        let epubPath :=
          epubDirectory w ++ [slash]
          ++ withExtension outputName (lit ".epub") in
        In (WarnNoImages (caminho entry)) (console w2)
        /\ (images = [] ->
            mergePdf = (printed w2 (ErrorFatal NoImagesCollected), 1%Z)
            /\ mergeEpub = (printed w2 (ErrorFatal NoImagesCollected), 1%Z))
        /\ (images <> [] ->
            ~ In slash outputName ->
            ((forall c, fs w (pdfDirectory w) <> Some (File c)) ->
             (forall es, fs w pdfPath <> Some (Dir es)) ->
             exists w',
               mergePdf = (w', 0%Z)
               /\ In (WarnNoImages (caminho entry)) (console w')
               /\ fs w' pdfPath = Some (File (Pdf (map mi_path images))))
            /\ ((forall c, fs w (epubDirectory w) <> Some (File c)) ->
                archiveOrNothing (fs w epubPath) ->
                zipExit w epubPath = (ZipClosed 0, ZipClosed 0) ->
                Forall (fun p => isFile w p = true) (map mi_path images) ->
                exists w',
                  mergeEpub = (w', 0%Z)
                  /\ In (WarnNoImages (caminho entry)) (console w')
                  /\ fs w' epubPath
                     = Some (File (zipContent (fs w epubPath)
                                     (mergedBookOf images outputName
                                        (hd [] (uuids w)))))))).
Proof.
  intros Hdir Hnone Hout.
  pose proof (fun j all =>
                @collectAllImages_loop_skip localeCompare w entry dirEntries
                  rest j all Hdir Hnone) as Hskip.
  split.
  { split; [exact (readImageFiles_orThrow_no_image Hdir Hnone)|].
    rewrite (readImageFiles_lenient_folder Hdir), Hnone. reflexivity. }
  split; [split|]; [| |split; [split|]]; [| | | |split; [|split; [|split]]].
  - destruct outputName as [|c outputName]; [congruence|].
    unfold ImageToPdfConverter.run, exitStatus, ImageToPdfConverter.runBody.
    unfold bind at 1. unfold validateArguments.
    cbn [length Nat.ltb Nat.leb Nat.eqb nth isEmpty].
    unfold ret at 1. unfold bind at 1. rewrite (validateFolder_folder Hdir).
    unfold bind at 1. unfold ImageToPdfConverter.readImageFiles.
    rewrite (readImageFiles_orThrow_no_image Hdir Hnone). reflexivity.
  - destruct outputName as [|c outputName]; [congruence|].
    unfold ImageToEpubConverter.run, exitStatus, ImageToEpubConverter.runBody.
    unfold bind at 1. unfold validateArguments.
    cbn [length Nat.ltb Nat.leb Nat.eqb nth isEmpty].
    unfold ret at 1. unfold bind at 1. rewrite (validateFolder_folder Hdir).
    unfold bind at 1. unfold ImageToEpubConverter.readImageFiles.
    rewrite (readImageFiles_orThrow_no_image Hdir Hnone). reflexivity.
  - cbn [ImageToPdfConverter.processCsvEntries]. unfold bind at 1.
    unfold try_catch, ImageToPdfConverter.processEntry.
    unfold bind at 1. rewrite (validateFolder_folder Hdir).
    unfold bind at 1. unfold ImageToPdfConverter.readImageFiles.
    rewrite (readImageFiles_orThrow_no_image Hdir Hnone).
    rewrite say_printed. reflexivity.
  - cbn [ImageToEpubConverter.processCsvEntries]. unfold bind at 1.
    unfold try_catch, ImageToEpubConverter.processEntry.
    unfold bind at 1. rewrite (validateFolder_folder Hdir).
    unfold bind at 1. unfold ImageToEpubConverter.readImageFiles.
    rewrite (readImageFiles_orThrow_no_image Hdir Hnone).
    rewrite say_printed. reflexivity.
  - exact (batch_exit_status localeCompare (entry :: rest) w).
  - apply Hskip.
  - intros w' images Hloop Himages. unfold collectAllImages, bind.
    rewrite Hskip, Hloop.
    destruct images; [congruence | reflexivity].
  - intros csvFile entries w1 w2 images Hcsv Hread Hin Hloop
      mergePdf mergeEpub pdfPath epubPath.
    pose proof (readCsvFile_printedMore csvFile w) as Hmore1.
    rewrite Hread in Hmore1. cbn [fst] in Hmore1.
    assert (Hdir1 : isFolder w1 (caminho entry) dirEntries).
    { apply printedMore_sameFiles in Hmore1. destruct Hmore1 as [Hfs Hcwd].
      unfold isFolder, resolve in *. now rewrite Hfs, Hcwd. }
    assert (Hwarn : In (WarnNoImages (caminho entry)) (console w2)).
    { exact (@collectAllImages_loop_warns localeCompare entry dirEntries
               entries Hnone Hin 0 [] w1 w2 images Hdir1 Hloop). }
    split; [exact Hwarn|]. split.
    + intros ->.
      exact (@merge_run_nothing_collected localeCompare w w1 w2 node script
               csvFile outputName [] entries Hout Hcsv Hread Hloop).
    + intros Himages Hslash.
      assert (Hcollect :
        collectAllImages localeCompare entries w1 = (w2, inr images)).
      { unfold collectAllImages, bind. rewrite Hloop.
        destruct images; [congruence | reflexivity]. }
      split.
      * intros Hpdf Hfile.
        destruct (@merge_pdf_run_written localeCompare w w1 w2 node script
                    csvFile outputName [] entries images
                    Hout Hslash Hcsv Hread Hcollect Hpdf Hfile)
          as [w' [Hrun [Hwritten [_ [ds Hds]]]]].
        exists w'. split; [exact Hrun|]. split; [|exact Hwritten].
        rewrite Hds. apply in_or_app. now left.
      * intros Hepub Harchive Hzip Hfiles.
        destruct (@merge_epub_run_written localeCompare w w1 w2 node script
                    csvFile outputName [] entries images
                    Hout Hslash Hcsv Hread Hcollect Hepub Harchive Hzip
                    Hfiles)
          as [w' [Hrun [Hwritten [_ Hconsole]]]].
        exists w'. split; [exact Hrun|]. split; [|exact Hwritten].
        rewrite Hconsole. exact Hwarn.
Qed.

(** On the folder [/data/empty] of [exampleWorld] and the CSV that lists
    it first. *)
Lemma empty_folder_fatal_or_skipped_witness :
  let entry := {| nome := lit "vazio"; caminho := lit "/data/empty" |} in
  let rest := tl exampleEntries in
  let warned := printed exampleWorld (WarnNoImages (caminho entry)) in
  let images :=
    imagesInfo 1 (cf_entry folderA) (cf_files folderA)
    ++ imagesInfo 2 (cf_entry folderB) (cf_files folderB) in
  (ImageToPdfConverter.run codeUnitCompare
     (argv ["node"; "gen-pdf.js"; "/data/empty"; "all"]) exampleWorld
   = (printed exampleWorld (ErrorFatal (ReadFolderError NoImagesInFolder)),
      1%Z)
   /\ ImageToEpubConverter.run codeUnitCompare
        (argv ["node"; "gen-pdf.js"; "/data/empty"; "all"]) exampleWorld
      = (printed exampleWorld (ErrorFatal (ReadFolderError NoImagesInFolder)),
         1%Z))
  /\ (ImageToPdfConverter.processCsvEntries codeUnitCompare (entry :: rest)
        exampleWorld
      = ImageToPdfConverter.processCsvEntries codeUnitCompare rest
          (printed exampleWorld
             (ErrorEntry (nome entry) (ReadFolderError NoImagesInFolder)))
      /\ ImageToEpubConverter.processCsvEntries codeUnitCompare (entry :: rest)
           exampleWorld
         = ImageToEpubConverter.processCsvEntries codeUnitCompare rest
             (printed exampleWorld
                (ErrorEntry (nome entry) (ReadFolderError NoImagesInFolder))))
  /\ (snd (exitStatus
             (ImageToPdfConverter.processCsvEntries codeUnitCompare
                (entry :: rest)) exampleWorld) = 0%Z
      /\ snd (exitStatus
                (ImageToEpubConverter.processCsvEntries codeUnitCompare
                   (entry :: rest)) exampleWorld) = 0%Z)
  /\ collectAllImages_loop codeUnitCompare 0 (entry :: rest) [] exampleWorld
     = collectAllImages_loop codeUnitCompare 1 rest [] warned
  /\ (exists w',
        MergePdfConverter.run codeUnitCompare
          (argv ["node"; "gen-pdf.js"; "list.csv"; "all"]) exampleWorld
        = (w', 0%Z)
        /\ In (WarnNoImages (caminho entry)) (console w')
        /\ fs w' (lit "/work/pdf/all.pdf")
           = Some (File (Pdf (map mi_path images))))
  /\ (exists w',
        MergeEpubConverter.run codeUnitCompare
          (argv ["node"; "gen-pdf.js"; "list.csv"; "all"]) exampleWorld
        = (w', 0%Z)
        /\ In (WarnNoImages (caminho entry)) (console w')
        /\ fs w' (lit "/work/epub/all.epub")
           = Some (File (Epub (mergedBookOf images (lit "all")
                                 (lit "uuid-1"))))).
Proof.
  intros entry rest warned images.
  pose proof (@empty_folder_fatal_or_skipped codeUnitCompare exampleWorld
                entry (map lit ["readme.txt"]) rest 0 [] (lit "node")
                (lit "gen-pdf.js") (lit "all")
                eq_refl eq_refl ltac:(discriminate)) as H.
  destruct H as [_ [H1 [H2 [H3 [H4 [_ H6]]]]]].
  specialize (H6 (lit "list.csv") exampleEntries exampleWorld warned images
                eq_refl eq_refl (or_introl eq_refl) eq_refl).
  cbv zeta in H6. destruct H6 as [_ [_ H6]].
  assert (Himages : images <> []) by discriminate.
  assert (Hslash : ~ In slash (lit "all")).
  { cbn. intros H. repeat (destruct H as [H|H]; [discriminate H|]). exact H. }
  destruct (H6 Himages Hslash) as [Hpdf Hepub].
  split; [exact H1|]. split; [exact H2|]. split; [exact H3|].
  split; [exact H4|]. split.
  - apply Hpdf.
    + intros c. vm_compute. discriminate.
    + intros es. vm_compute. discriminate.
  - apply Hepub.
    + intros c. vm_compute. discriminate.
    + vm_compute. exact I.
    + reflexivity.
    + vm_compute. repeat constructor.
Defined.

(** C7, as stated, fails on the word warning for the batch: the batch
    over the CSV of [exampleWorld], whose first entry is the folder
    without image, skips that folder and ends with status 0, and what it
    prints for the folder is the error of the entry; nothing is printed as
    a warning. *)
Lemma batch_reports_error_not_warning :
  let batchPdf := ImageToPdfConverter.run codeUnitCompare
                    (argv ["node"; "gen-pdf.js"; "list.csv"]) exampleWorld in
  let batchEpub := ImageToEpubConverter.run codeUnitCompare
                     (argv ["node"; "epub-converter.js"; "list.csv"])
                     exampleWorld in
  let reported :=
    ErrorEntry (lit "vazio") (ReadFolderError NoImagesInFolder) in
  isFolder exampleWorld (lit "/data/empty") (map lit ["readme.txt"])
  /\ filter isImageFile (map lit ["readme.txt"]) = []
  /\ (snd batchPdf = 0%Z
      /\ In reported (console (fst batchPdf))
      /\ existsb isWarning (console (fst batchPdf)) = false)
  /\ (snd batchEpub = 0%Z
      /\ console (fst batchEpub) = [reported]
      /\ existsb isWarning (console (fst batchEpub)) = false
      /\ fs (fst batchEpub) (lit "/work/epub/B.epub") <> None).
Proof.
  vm_compute. repeat split; try discriminate. now left.
Qed.

(** The runs over the CSV of [exampleWorld], whose first entry is the folder
    without image: the batch run and the merge run end with status 0 and
    write the other folders' books. *)
Lemma empty_folder_runs_example :
  let batch := ImageToEpubConverter.run codeUnitCompare
                 (argv ["node"; "epub-converter.js"; "list.csv"])
                 exampleWorld in
  let merge := MergeEpubConverter.run codeUnitCompare
                 (argv ["node"; "gen-lote-epub.js"; "list.csv"; "all"])
                 exampleWorld in
  (snd batch = 0%Z
   /\ console (fst batch)
      = [ErrorEntry (lit "vazio") (ReadFolderError NoImagesInFolder)]
   /\ fs (fst batch) (lit "/work/epub/vazio.epub") = None
   /\ fs (fst batch) (lit "/work/epub/B.epub") <> None)
  /\ (snd merge = 0%Z
      /\ console (fst merge) = [WarnNoImages (lit "/data/empty")]
      /\ fs (fst merge) (lit "/work/epub/all.epub") <> None).
Proof. vm_compute. repeat split; discriminate. Qed.
